(** * pdfToDocx: the line grouper, block classifier and emitters

    A shallow embedding of [ultra_converter.py] and [advanced_converter.py].

    - Python [str] values are lists of Unicode code points.
    - Coordinates and font sizes are rationals; a finite float is a rational,
      and the code only adds, divides, compares and rounds them.
    - The output document is the list of nodes appended so far, in order;
      objects returned by the document library (tables, paragraphs) are
      positions in that list.
    - Exceptions are the [Raise] results of the [result] monad. *)

From Stdlib Require Import String Ascii QArith Lqa Sorting.Sorted Sorting.Permutation.
From stdpp Require Import base list sorting.

Local Close Scope Q_scope.
Local Open Scope nat_scope.

(** ** Errors *)

Inductive exn :=
| IndexError
| ZeroDivisionError
| ValueError
| OpenError.

Inductive result (A : Type) :=
| Ok (a : A)
| Raise (e : exn).
Arguments Ok {A} a.
Arguments Raise {A} e.

Definition rbind {A B} (m : result A) (f : A -> result B) : result B :=
  match m with
  | Ok a => f a
  | Raise e => Raise e
  end.

Notation "'let!' x ':=' m 'in' k" := (rbind m (fun x => k))
  (at level 10, x name, m at level 100, k at level 200).

(** [for x in xs: body], threading the state [s]. *)
Fixpoint for_each {A St} (body : St -> A -> result St) (xs : list A) (s : St)
  : result St :=
  match xs with
  | [] => Ok s
  | x :: rest => let! s' := body s x in for_each body rest s'
  end.

(** [for i, x in enumerate(xs, start): body]. *)
Fixpoint for_enumerate {A St} (body : St -> nat -> A -> result St)
  (start : nat) (xs : list A) (s : St) : result St :=
  match xs with
  | [] => Ok s
  | x :: rest => let! s' := body s start x in for_enumerate body (S start) rest s'
  end.

(** ** Text *)

Definition str := list N.

(** An ASCII literal of the source as a list of code points. *)
Definition py (s : string) : str := map N_of_ascii (list_ascii_of_string s).

Definition str_eqb (a b : str) : bool := bool_decide (a = b).

(** [str.join('', parts)]. *)
Definition join (parts : list str) : str := concat parts.

(** [sep.join(parts)]. *)
Fixpoint join_sep (sep : str) (parts : list str) : str :=
  match parts with
  | [] => []
  | [p] => p
  | p :: rest => p ++ sep ++ join_sep sep rest
  end.

(** [text.startswith(prefix)]. *)
Fixpoint startswith (text prefix : str) : bool :=
  match prefix, text with
  | [], _ => true
  | p :: ps, c :: cs => (p =? c)%N && startswith cs ps
  | _ :: _, [] => false
  end.

(** [needle in text]. *)
Fixpoint contains (needle text : str) : bool :=
  startswith text needle ||
  match text with
  | [] => false
  | _ :: rest => contains needle rest
  end.

(** [text.split(sep)] for a one-character separator. *)
Fixpoint split_on (sep : N) (text : str) : list str :=
  match text with
  | [] => [[]]
  | c :: rest =>
      if (c =? sep)%N then [] :: split_on sep rest
      else match split_on sep rest with
           | [] => [[c]]
           | w :: ws => (c :: w) :: ws
           end
  end.

(** The characters for which [str.isspace] holds; the same table serves
    [str.strip()] and the [\s] class of [re] on [str] patterns. *)
Definition is_space (c : N) : bool :=
  ((9 <=? c) && (c <=? 13) || (28 <=? c) && (c <=? 32) ||
   (c =? 133) || (c =? 160) || (c =? 5760) ||
   (8192 <=? c) && (c <=? 8202) ||
   (c =? 8232) || (c =? 8233) || (c =? 8239) || (c =? 8287) || (c =? 12288))%N.

Fixpoint lstrip (s : str) : str :=
  match s with
  | [] => []
  | c :: rest => if is_space c then lstrip rest else s
  end.

Definition rstrip (s : str) : str := rev (lstrip (rev s)).

(** [text.strip()]. *)
Definition strip (s : str) : str := rstrip (lstrip s).

(** The part of the Unicode character database the code consults through
    [str.isupper], [str.lower] and the [\d], [\w], [\b] classes of [re]. *)
Class Ucd := {
  is_decimal : N -> bool;      (* category Nd: [\d] *)
  is_alnum : N -> bool;        (* [str.isalnum]: with [_], the class [\w] *)
  is_upper : N -> bool;        (* cased, uppercase *)
  is_lower : N -> bool;        (* cased, lowercase *)
  is_title : N -> bool;        (* cased, titlecase *)
  lower : str -> str           (* [str.lower] *)
}.

Definition in_range (lo hi c : N) : bool := ((lo <=? c) && (c <=? hi))%N.
Definition ascii_digit (c : N) : bool := in_range 48 57 c.
Definition ascii_upper (c : N) : bool := in_range 65 90 c.
Definition ascii_lower (c : N) : bool := in_range 97 122 c.
Definition ascii_letter (c : N) : bool := ascii_upper c || ascii_lower c.

(** The database restricted to ASCII: exact on code points below 128,
    every other code point is uncased, not a digit and not alphanumeric. *)
Definition ascii_ucd : Ucd := {|
  is_decimal := ascii_digit;
  is_alnum := fun c => ascii_digit c || ascii_letter c;
  is_upper := ascii_upper;
  is_lower := ascii_lower;
  is_title := fun _ => false;
  lower := map (fun c => if ascii_upper c then (c + 32)%N else c)
|}.

(** What every faithful database says about ASCII. *)
Record ascii_faithful (u : Ucd) : Prop := {
  af_decimal : forall c, (c < 128)%N -> is_decimal c = ascii_digit c;
  af_alnum : forall c, (c < 128)%N -> is_alnum c = ascii_digit c || ascii_letter c;
  af_upper : forall c, (c < 128)%N -> is_upper c = ascii_upper c;
  af_lower : forall c, (c < 128)%N -> is_lower c = ascii_lower c;
  af_title : forall c, (c < 128)%N -> is_title c = false
}.

Section Text.
Context {u : Ucd}.

(** The loop of [text.isupper()]: no lowercase or titlecase character, and
    at least one uppercase one. *)
Fixpoint isupper_from (cased : bool) (s : str) : bool :=
  match s with
  | [] => cased
  | c :: rest =>
      if is_lower c || is_title c then false
      else isupper_from (cased || is_upper c) rest
  end.

(** [text.isupper()]; a text of one character is answered from that
    character's uppercase flag alone. *)
Definition isupper (s : str) : bool :=
  match s with
  | [c] => is_upper c
  | _ => isupper_from false s
  end.

End Text.

(** ** Regular expressions

    The fragment of [re] the code uses: anchors, character classes, and the
    greedy quantifiers [*], [+], [?], [{n}] and [{n,}] applied to a class.
    The matcher backtracks in the order [re] does, so the first match found is
    the one [re] reports. A position is the character before it ([None] at
    the start of the text) and the text after it. *)

Inductive regex :=
| Bol                         (* [^] *)
| WordB                       (* [\b] *)
| Cls (p : N -> bool)         (* one character of a class *)
| Star (p : N -> bool)        (* class[*] *)
| Opt (p : N -> bool)         (* class[?] *)
| Seq (a b : regex).

Definition Plus (p : N -> bool) : regex := Seq (Cls p) (Star p).

Definition mstate := (option N * str)%type.
Definition cont := option N -> str -> option mstate.
Definition accept : cont := fun prev s => Some (prev, s).

Definition or_else (a b : option mstate) : option mstate :=
  match a with
  | Some r => Some r
  | None => b
  end.

Fixpoint star_from (p : N -> bool) (k : cont) (prev : option N) (s : str)
  : option mstate :=
  match s with
  | c :: rest =>
      if p c then or_else (star_from p k (Some c) rest) (k prev s) else k prev s
  | [] => k prev s
  end.

Section Regex.
Context {u : Ucd}.

(** The class [\w]. *)
Definition is_word (c : N) : bool := is_alnum c || (c =? 95)%N.

Definition word_before (prev : option N) : bool :=
  match prev with
  | Some c => is_word c
  | None => false
  end.

Definition word_after (s : str) : bool :=
  match s with
  | c :: _ => is_word c
  | [] => false
  end.

Fixpoint match_at (r : regex) (k : cont) (prev : option N) (s : str)
  : option mstate :=
  match r with
  | Bol => match prev with None => k prev s | Some _ => None end
  | WordB => if xorb (word_before prev) (word_after s) then k prev s else None
  | Cls p =>
      match s with
      | c :: rest => if p c then k (Some c) rest else None
      | [] => None
      end
  | Star p => star_from p k prev s
  | Opt p =>
      match s with
      | c :: rest => if p c then or_else (k (Some c) rest) (k prev s) else k prev s
      | [] => k prev s
      end
  | Seq a b => match_at a (match_at b k) prev s
  end.

(** [re.match(r, text)], as a truth value. *)
Definition re_match (r : regex) (text : str) : bool :=
  match match_at r accept None text with
  | Some _ => true
  | None => false
  end.

Fixpoint search_from (r : regex) (prev : option N) (s : str) : bool :=
  match match_at r accept prev s with
  | Some _ => true
  | None =>
      match s with
      | [] => false
      | c :: rest => search_from r (Some c) rest
      end
  end.

(** [re.search(r, text)], as a truth value. *)
Definition re_search (r : regex) (text : str) : bool := search_from r None text.

(** [re.sub(r, '', text)]: the text without the matches of [r], found left
    to right. A match of no character removes nothing; no pattern of the
    program has one. *)
Fixpoint sub_from (r : regex) (fuel : nat) (prev : option N) (s : str) : str :=
  match fuel with
  | 0 => s
  | S fuel' =>
      let keep :=
        match s with
        | [] => []
        | c :: rest => c :: sub_from r fuel' (Some c) rest
        end in
      match match_at r accept prev s with
      | Some (prev', rest) =>
          if length rest <? length s then sub_from r fuel' prev' rest else keep
      | None => keep
      end
  end.

Definition re_sub (r : regex) (text : str) : str :=
  sub_from r (S (length text)) None text.

(** *** The patterns of the program *)

Definition one_of (cs : list N) (c : N) : bool := existsb (N.eqb c) cs.

(** [[\s•◦\-*▪▫]] *)
Definition bullet_glyphs : list N := [8226; 9702; 45; 42; 9642; 9643]%N.
Definition bullet_class (c : N) : bool := is_space c || one_of bullet_glyphs c.
Definition dot (c : N) : bool := (c =? 46)%N.

(** [^[\s•◦\-*▪▫]] *)
Definition re_bullet_lead : regex := Seq Bol (Cls bullet_class).
(** [^\s*\d+\.] *)
Definition re_number_lead : regex :=
  Seq Bol (Seq (Star is_space) (Seq (Plus is_decimal) (Cls dot))).
(** [^\s*[a-zA-Z]\.] *)
Definition re_letter_lead : regex :=
  Seq Bol (Seq (Star is_space) (Seq (Cls ascii_letter) (Cls dot))).
(** [^[\s•◦\-*▪▫]+] *)
Definition re_bullet_run : regex := Seq Bol (Plus bullet_class).
(** [^\d+\.\s*] *)
Definition re_number_marker : regex :=
  Seq Bol (Seq (Plus is_decimal) (Seq (Cls dot) (Star is_space))).
(** [^[a-zA-Z]\.\s*] *)
Definition re_letter_marker : regex :=
  Seq Bol (Seq (Cls ascii_letter) (Seq (Cls dot) (Star is_space))).
(** [^[\s•◦\-*▪▫\d.]+] *)
Definition re_marker_run : regex :=
  Seq Bol (Plus (fun c => bullet_class c || is_decimal c || dot c)).

(** [\b\d{3}[-.]?\d{3}[-.]?\d{4}\b] *)
Definition phone_sep (c : N) : bool := (c =? 45)%N || (c =? 46)%N.
Definition digits3 : regex := Seq (Cls is_decimal) (Seq (Cls is_decimal) (Cls is_decimal)).
Definition re_phone : regex :=
  Seq WordB (Seq digits3 (Seq (Opt phone_sep) (Seq digits3 (Seq (Opt phone_sep)
    (Seq digits3 (Seq (Cls is_decimal) WordB)))))).

(** [\b[A-Za-z0-9._%+-]+@[A-Za-z0-9.-]+\.[A-Z|a-z]{2,}\b] *)
Definition email_local (c : N) : bool :=
  ascii_letter c || ascii_digit c || one_of [46; 95; 37; 43; 45]%N c.
Definition email_domain (c : N) : bool :=
  ascii_letter c || ascii_digit c || one_of [46; 45]%N c.
Definition email_tld (c : N) : bool := ascii_letter c || (c =? 124)%N.
Definition re_email : regex :=
  Seq WordB (Seq (Plus email_local) (Seq (Cls (N.eqb 64)) (Seq (Plus email_domain)
    (Seq (Cls dot) (Seq (Cls email_tld) (Seq (Plus email_tld) WordB)))))).

End Regex.

(** ** Numbers *)

(** [a > b] on numbers. *)
Definition Qgtb (a b : Q) : bool := negb (Qle_bool a b).

(** Rounding to the nearest integer, ties to even. *)
Definition round_half_even (q : Q) : Z :=
  let n := Qnum q in
  let d := Zpos (Qden q) in
  let f := (n / d)%Z in
  let r2 := (2 * (n mod d))%Z in
  if (r2 <? d)%Z then f
  else if (d <? r2)%Z then (f + 1)%Z
  else if Z.even f then f else (f + 1)%Z.

(** [round(q, ndigits)], as the integer number of units of [10^-ndigits]:
    two roundings are equal, or ordered, as these integers are. *)
Definition py_round (q : Q) (ndigits : nat) : Z :=
  round_half_even (q * inject_Z (10 ^ Z.of_nat ndigits))%Q.

(** [int(q)]: truncation towards zero. *)
Definition py_int (q : Q) : Z := (Qnum q ÷ Zpos (Qden q))%Z.

Definition Qsum (l : list Q) : Q := fold_left Qplus l (0%Q).

(** [sum(l) / len(l)]. *)
Definition average (l : list Q) : result Q :=
  match length l with
  | 0 => Raise ZeroDivisionError
  | S _ => Ok (Qsum l / inject_Z (Z.of_nat (length l)))%Q
  end.

(** ** The block classifier (ultra_converter.py, classify_text_type) *)

Inductive kind :=
| heading1
| heading2
| section_header
| bullet
| contact
| indented
| paragraph
| empty.

Definition kinds : list kind :=
  [heading1; heading2; section_header; bullet; contact; indented; paragraph; empty].

Definition section_keywords : list str :=
  map py ["experience"; "education"; "skills"; "summary"; "objective";
          "projects"; "certifications"]%string.

Section Classifier.
Context {u : Ucd}.

(** [any(keyword in text.lower() for keyword in keywords)]. *)
Definition has_keyword (keywords : list str) (text : str) : bool :=
  existsb (fun keyword => contains keyword (lower text)) keywords.

Definition classify_text_type (text : str) (font_size indent_level : Q) : kind :=
  if Qgtb font_size 16 then heading1
  else if Qgtb font_size 14 then heading2
  else if isupper text && (length text <? 50) then heading2
  else if re_match re_bullet_lead text || re_match re_number_lead text then bullet
  else if re_search re_phone text then contact
  else if re_search re_email text then contact
  else if has_keyword section_keywords text && (length text <? 30)
       then section_header
  else if Qgtb indent_level 50 then indented
  else paragraph.

End Classifier.

(** ** The document sink

    What the code asks of the document library: paragraphs made of runs,
    headings (paragraphs of a heading style), tables and page breaks,
    appended to the body in order.

    The library refuses a text that the document format cannot carry (one
    holding a control character) with [ValueError]. The sink here takes
    every text: what is stated of the nodes a run appends is stated of the
    runs that return, and holds for texts the library takes. *)

Inductive align := LEFT | CENTER.

Inductive pstyle :=
| Normal
| HeadingStyle (level : nat)
| ListBullet.

Inductive tstyle :=
| DefaultTable
| LightGridAccent1
| TableGrid.

Record run := {
  run_text : str;
  run_size : option Z;      (* points *)
  run_bold : bool;
  run_italic : bool;
  run_underline : bool
}.

Record para := {
  p_style : pstyle;
  p_align : option align;
  p_left_indent : option Q; (* inches *)
  p_runs : list run
}.

Record cell := {
  cell_text : str;
  cell_size : option Z      (* points *)
}.

Inductive node :=
| Para (p : para)
| Tbl (style : tstyle) (rows : list (list cell))
| PageBreak.

Record document := {
  margins : Q;              (* inches, all four sides *)
  body : list node
}.

Definition plain_run (text : str) : run :=
  {| run_text := text; run_size := None; run_bold := false;
     run_italic := false; run_underline := false |}.

(** The paragraph [add_paragraph(text, style)] makes: one run holding the
    text, none when the text is empty. *)
Definition new_para (text : str) (style : pstyle) : para :=
  {| p_style := style; p_align := None; p_left_indent := None;
     p_runs := match text with [] => [] | _ => [plain_run text] end |}.

Definition add_paragraph (doc : list node) (text : str) (style : pstyle)
  : list node := doc ++ [Para (new_para text style)].

Definition add_heading (doc : list node) (text : str) (level : nat)
  : list node := add_paragraph doc text (HeadingStyle level).

Definition add_page_break (doc : list node) : list node := doc ++ [PageBreak].

Definition blank_cell : cell := {| cell_text := []; cell_size := None |}.

(** [doc.add_table(rows, cols)]: the new body and the position of the table. *)
Definition add_table (doc : list node) (rows cols : nat) : list node * nat :=
  (doc ++ [Tbl DefaultTable (replicate rows (replicate cols blank_cell))],
   length doc).

(** [table.style = st], on the table at position [h]. *)
Definition set_table_style (doc : list node) (h : nat) (st : tstyle) : list node :=
  match doc !! h with
  | Some (Tbl _ rows) => <[h := Tbl st rows]> doc
  | _ => doc
  end.

(** [table.rows[i].cells[j] = c], on the table at position [h]: an index
    outside the table raises. *)
Definition set_cell (doc : list node) (h i j : nat) (c : cell)
  : result (list node) :=
  match doc !! h with
  | Some (Tbl st rows) =>
      match rows !! i with
      | Some row =>
          if j <? length row
          then Ok (<[h := Tbl st (<[i := <[j := c]> row]> rows)]> doc)
          else Raise IndexError
      | None => Raise IndexError
      end
  | _ => Raise IndexError
  end.

(** A change to the paragraph appended last. *)
Definition on_last_para (f : para -> para) (doc : list node) : list node :=
  match rev doc with
  | Para p :: before => rev before ++ [Para (f p)]
  | _ => doc
  end.

Definition set_align (a : align) (p : para) : para :=
  {| p_style := p_style p; p_align := Some a;
     p_left_indent := p_left_indent p; p_runs := p_runs p |}.

Definition set_left_indent (i : Q) (p : para) : para :=
  {| p_style := p_style p; p_align := p_align p;
     p_left_indent := Some i; p_runs := p_runs p |}.

(** [for run in para.runs: ...]. *)
Definition on_runs (f : run -> run) (p : para) : para :=
  {| p_style := p_style p; p_align := p_align p;
     p_left_indent := p_left_indent p; p_runs := map f (p_runs p) |}.

Definition set_size (pt : Z) (r : run) : run :=
  {| run_text := run_text r; run_size := Some pt; run_bold := run_bold r;
     run_italic := run_italic r; run_underline := run_underline r |}.

Definition set_bold (r : run) : run :=
  {| run_text := run_text r; run_size := run_size r; run_bold := true;
     run_italic := run_italic r; run_underline := run_underline r |}.

Definition set_italic (r : run) : run :=
  {| run_text := run_text r; run_size := run_size r; run_bold := run_bold r;
     run_italic := true; run_underline := run_underline r |}.

Definition set_underline (r : run) : run :=
  {| run_text := run_text r; run_size := run_size r; run_bold := run_bold r;
     run_italic := run_italic r; run_underline := true |}.

(** ** The table emitter
    (ultra_converter.py, lines 59-78; advanced_converter.py, lines 38-48) *)

(** A grid of the source: rows of cells, a cell a string or [None]. *)
Definition table_data := list (list (option str)).

(** The body of the inner loop: [if cell_text: ...cells[j].text = ...]. *)
Definition fill_cell (size : option Z) (h i : nat) (doc : list node) (j : nat)
  (cell_text : option str) : result (list node) :=
  match cell_text with
  | Some (c :: s) =>
      set_cell doc h i j {| cell_text := strip (c :: s); cell_size := size |}
  | _ => Ok doc
  end.

Definition fill_row (size : option Z) (h : nat) (doc : list node) (i : nat)
  (row : list (option str)) : result (list node) :=
  for_enumerate (fill_cell size h i) 0 row doc.

(** [if table_data and len(table_data) > 0: ...], with the table style and
    the font size the variant gives a filled cell. *)
Definition emit_table (st : tstyle) (size : option Z) (doc : list node)
  (data : table_data) : result (list node) :=
  match data with
  | [] => Ok doc
  | first :: _ =>
      let '(doc1, h) := add_table doc (length data) (length first) in
      let doc2 := set_table_style doc1 h st in
      let! doc3 := for_enumerate (fill_row size h) 0 data doc2 in
      Ok (add_paragraph doc3 [] Normal)
  end.

(** ** The line grouper (ultra_converter.py, analyze_text_blocks) *)

Record char := {
  text : str;
  x0 : Q;
  y0 : Q;
  size : option Q;          (* [char.get('size', 12)] *)
  fontname : option str     (* [char.get('fontname', 'default')] *)
}.

Record line_data := {
  chars : list char;
  font_sizes : list Q;
  fonts : list str;
  x_positions : list Q
}.

Record text_block := {
  type : kind;
  block_text : str;
  font_size : Q;
  font : str;
  indent : Q
}.

(** A [dict] with numeric keys, in insertion order. *)
Definition dict (V : Type) := list (Z * V).

Definition dict_mem {V} (k : Z) (d : dict V) : bool :=
  existsb (fun kv => (fst kv =? k)%Z) d.

(** [if k not in d: d[k] = v]. *)
Definition dict_setdefault {V} (k : Z) (v : V) (d : dict V) : dict V :=
  if dict_mem k d then d else d ++ [(k, v)].

(** [d[k] = f(d[k])], for a key of [d]. *)
Fixpoint dict_alter {V} (f : V -> V) (k : Z) (d : dict V) : dict V :=
  match d with
  | [] => []
  | (k', v) :: rest =>
      if (k' =? k)%Z then (k', f v) :: rest else (k', v) :: dict_alter f k rest
  end.

(** [sorted(l, key=...)]: the stable sort, as insertion of each element
    before the first one that is not below it. [le a b] says the key of [a]
    is at most the key of [b] in the order asked for. *)
Fixpoint insert_sorted {A} (le : A -> A -> bool) (x : A) (l : list A) : list A :=
  match l with
  | [] => [x]
  | y :: rest => if le x y then x :: l else y :: insert_sorted le x rest
  end.

Definition sorted {A} (le : A -> A -> bool) (l : list A) : list A :=
  foldr (insert_sorted le) [] l.

Definition empty_line : line_data :=
  {| chars := []; font_sizes := []; fonts := []; x_positions := [] |}.

Definition line_append (c : char) (ld : line_data) : line_data :=
  {| chars := chars ld ++ [c];
     font_sizes := font_sizes ld ++ [default 12%Q (size c)];
     fonts := fonts ld ++ [default (py "default") (fontname c)];
     x_positions := x_positions ld ++ [x0 c] |}.

(** The grouping loop, for both variants: [fresh] is the value a new key
    gets and [add] what a character appends to it. *)
Definition group_step {V} (fresh : V) (add : char -> V -> V) (ndigits : nat)
  (lines : dict V) (c : char) : dict V :=
  let y := py_round (y0 c) ndigits in
  dict_alter (add c) y (dict_setdefault y fresh lines).

Definition group_lines {V} (fresh : V) (add : char -> V -> V) (ndigits : nat)
  (cs : list char) : dict V :=
  fold_left (group_step fresh add ndigits) cs [].

(** The first loop of [analyze_text_blocks]: keys are [round(y0, 2)]. *)
Definition group_chars (cs : list char) : dict line_data :=
  group_lines empty_line line_append 2 cs.

(** [sorted(lines.items(), key=lambda x: x[0], reverse=True)]. *)
Definition sorted_lines {V} (lines : dict V) : dict V :=
  sorted (fun a b => (fst b <=? fst a)%Z) lines.

(** [sorted(chars, key=lambda c: c['x0'])]. *)
Definition sorted_chars (cs : list char) : list char :=
  sorted (fun a b => Qle_bool (x0 a) (x0 b)) cs.

(** [''.join(char['text'] for char in chars_in_line).strip()]. *)
Definition line_text (cs : list char) : str := strip (join (map text cs)).

(** [fonts.count(f)]. *)
Definition count_of (f : str) (fonts : list str) : nat :=
  length (filter (fun g => g = f) fonts).

(** [max(set(fonts), key=fonts.count)]. The set is walked in the order of
    first occurrence; Python leaves the order among equally frequent fonts
    open. *)
Definition most_common (fonts : list str) : result str :=
  match remove_dups fonts with
  | [] => Raise ValueError
  | f :: rest =>
      Ok (fold_left (fun best g =>
                       if count_of best fonts <? count_of g fonts then g else best)
                    rest f)
  end.

(** [min(xs) if xs else 0]. *)
Definition min_or_zero (xs : list Q) : Q :=
  match xs with
  | [] => 0%Q
  | x :: rest => fold_left (fun m y => if Qgtb m y then y else m) rest x
  end.

Definition empty_block : text_block :=
  {| type := empty; block_text := []; font_size := 0; font := []; indent := 0 |}.

Section Analyze.
Context {u : Ucd}.

(** The body of the second loop of [analyze_text_blocks]. The fields a
    block of type [empty] lacks in the source are never read. *)
Definition block_of_line (blocks : list text_block) (line : Z * line_data)
  : result (list text_block) :=
  let line_data := snd line in
  let chars_in_line := sorted_chars (chars line_data) in
  let text := line_text chars_in_line in
  match text with
  | [] => Ok (blocks ++ [empty_block])
  | _ =>
      let! avg_font_size := average (font_sizes line_data) in
      let! most_common_font := most_common (fonts line_data) in
      let indent_level := min_or_zero (x_positions line_data) in
      let block_type := classify_text_type text avg_font_size indent_level in
      Ok (blocks ++ [{| type := block_type; block_text := text;
                        font_size := avg_font_size; font := most_common_font;
                        indent := indent_level |}])
  end.

Definition analyze_text_blocks (cs : list char) : result (list text_block) :=
  for_each block_of_line (sorted_lines (group_chars cs)) [].

End Analyze.

Definition mk_char (t : string) (x y : Q) : char :=
  {| text := py t; x0 := x; y0 := y; size := None; fontname := None |}.

(** ** The block emitter (ultra_converter.py, add_formatted_text_block) *)

Section Ultra.
Context {u : Ucd}.

(** The two substitutions of the [bullet] branch (lines 208-209). *)
Definition clean_bullet_text (text : str) : str :=
  let clean_text := strip (re_sub re_bullet_run text) in
  strip (re_sub re_number_marker clean_text).

Definition add_formatted_text_block (doc : list node) (block : text_block)
  : list node :=
  let text := block_text block in
  match type block with
  | empty => add_paragraph doc [] Normal
  | heading1 => on_last_para (set_align LEFT) (add_heading doc text 1)
  | heading2 => on_last_para (set_align LEFT) (add_heading doc text 2)
  | section_header =>
      on_last_para (on_runs set_underline)
        (on_last_para (set_align LEFT) (add_heading doc text 2))
  | bullet =>
      match clean_bullet_text text with
      | [] => doc
      | clean_text => add_paragraph doc clean_text ListBullet
      end
  | contact =>
      on_last_para (on_runs (fun r => set_italic (set_size 11 r)))
        (on_last_para (set_align CENTER) (add_paragraph doc text Normal))
  | indented =>
      on_last_para (on_runs (set_size 10))
        (on_last_para (set_left_indent (1 # 2)) (add_paragraph doc text Normal))
  | paragraph =>
      on_last_para
        (on_runs (fun r => if Qgtb (font_size block) 12
                           then set_size (py_int (font_size block)) r else r))
        (add_paragraph doc text Normal)
  end.

(** The fallback for a page without character data (smart_text_parsing). *)
Definition smart_line (doc : list node) (line : str) : list node :=
  let line := strip line in
  match line with
  | [] => add_paragraph doc [] Normal
  | _ =>
      if isupper line && (length line <? 50) then add_heading doc line 2
      else if re_match re_bullet_lead line || re_match re_number_lead line then
        match strip (re_sub re_marker_run line) with
        | [] => doc
        | clean_text => add_paragraph doc clean_text ListBullet
        end
      else add_paragraph doc line Normal
  end.

Definition smart_text_parsing (doc : list node) (text : str) : list node :=
  fold_left smart_line (split_on 10 text) doc.

(** ** The page loop (ultra_converter.py, ultra_preserve_formatting) *)

Record page := {
  extract_tables : list table_data;
  page_chars : list char;
  extract_text : option str
}.

(** The text part of a page: the character branch, or the fallback. *)
Definition page_text (doc : list node) (p : page) : result (list node) :=
  match page_chars p with
  | _ :: _ =>
      let! text_blocks := analyze_text_blocks (page_chars p) in
      Ok (fold_left add_formatted_text_block text_blocks doc)
  | [] =>
      match extract_text p with
      | Some (c :: s) => Ok (smart_text_parsing doc (c :: s))
      | _ => Ok doc
      end
  end.

Definition ultra_page (doc : list node) (page_num : nat) (p : page)
  : result (list node) :=
  let doc := if 1 <? page_num then add_page_break doc else doc in
  let! doc := for_each (emit_table LightGridAccent1 (Some 11%Z))
                       (extract_tables p) doc in
  page_text doc p.

(** [opened] is what [pdfplumber.open(pdf_path)] gave: the pages, or the
    exception it raised. *)
Definition ultra_preserve_formatting (opened : result (list page))
  : result document :=
  let! pages := opened in
  let! body := for_enumerate ultra_page 1 pages [] in
  Ok {| margins := 8 # 10; body := body |}.

End Ultra.

(** ** The advanced variant (advanced_converter.py) *)

Section Advanced.
Context {u : Ucd}.

Definition detect_bullet_point (text : str) : bool :=
  existsb (fun indicator => startswith text [indicator]) bullet_glyphs
  || re_match re_number_lead text
  || re_match re_letter_lead text.

(** The three substitutions of [add_bullet_point] (lines 157-159). *)
Definition clean_bullet_text_advanced (text : str) : str :=
  let text := strip (re_sub re_bullet_run text) in
  let text := strip (re_sub re_number_marker text) in
  strip (re_sub re_letter_marker text).

Definition add_bullet_point (doc : list node) (text : str) : list node :=
  match clean_bullet_text_advanced text with
  | [] => doc
  | text => add_paragraph doc text ListBullet
  end.

(** [run = para.runs[0] if para.runs else para.add_run(); run.bold = True]. *)
Definition bold_first_run (p : para) : para :=
  {| p_style := p_style p; p_align := p_align p;
     p_left_indent := p_left_indent p;
     p_runs := match p_runs p with
               | [] => [set_bold (plain_run [])]
               | r :: rest => set_bold r :: rest
               end |}.

(** [para.add_run(text)]. *)
Definition add_run (text : str) (p : para) : para :=
  {| p_style := p_style p; p_align := p_align p;
     p_left_indent := p_left_indent p;
     p_runs := p_runs p ++ [plain_run text] |}.

Definition emphasis_keywords : list str :=
  map py ["summary"; "objective"; "experience"; "education"; "skills"]%string.

Definition add_formatted_paragraph (doc : list node) (text : str) : list node :=
  let text := strip text in
  match text with
  | [] => doc
  | _ =>
      if detect_bullet_point text then add_bullet_point doc text
      else if isupper text && (length text <? 50) then add_heading doc text 2
      else
        let doc := add_paragraph doc text Normal in
        if has_keyword emphasis_keywords text
        then on_last_para bold_first_run doc else doc
  end.

(** The grouping loop of the advanced variant: keys are [round(y0, 1)], a
    line is the list of its characters. *)
Definition group_chars_advanced (cs : list char) : dict (list char) :=
  group_lines [] (fun c line => line ++ [c]) 1 cs.

(** [' '.join(current_paragraph_text)]. *)
Definition para_text (current_paragraph_text : list str) : str :=
  join_sep [32%N] current_paragraph_text.

(** The body of the loop over the sorted lines; the state is the document
    and [current_paragraph_text]. *)
Definition advanced_line (st : list node * list str) (line : Z * list char)
  : result (list node * list str) :=
  let '(doc, current) := st in
  let line_chars := sorted_chars (snd line) in
  let line_text := line_text line_chars in
  match line_text with
  | [] =>
      match current with
      | [] => Ok (doc, current)
      | _ => Ok (add_formatted_paragraph doc (para_text current), [])
      end
  | _ =>
      let! avg_font_size := average (map (fun c => default 12%Q (size c)) line_chars) in
      let is_likely_header :=
        Qgtb avg_font_size 14 || isupper line_text || (length line_text <? 50) in
      match is_likely_header, current with
      | true, _ :: _ =>
          let doc := add_formatted_paragraph doc (para_text current) in
          if isupper line_text && (length line_text <? 30)
          then Ok (add_heading doc line_text 2, [])
          else
            let doc := on_last_para (add_run line_text) (add_paragraph doc [] Normal) in
            Ok (if Qgtb avg_font_size 14
                then on_last_para
                       (on_runs (fun r => set_bold (set_size (py_int avg_font_size) r)))
                       doc
                else doc, [])
      | _, _ => Ok (doc, current ++ [line_text])
      end
  end.

(** The fallback loop over the lines of [page.extract_text()]. *)
Definition advanced_fallback_line (doc : list node) (line : str) : list node :=
  let line := strip line in
  match line with
  | [] => doc
  | _ =>
      if detect_bullet_point line then add_bullet_point doc line
      else if isupper line && (length line <? 50) then add_heading doc line 2
      else add_paragraph doc line Normal
  end.

Definition advanced_page_text (doc : list node) (p : page) : result (list node) :=
  match page_chars p with
  | _ :: _ =>
      let! st := for_each advanced_line
                   (sorted_lines (group_chars_advanced (page_chars p))) (doc, []) in
      let '(doc, current) := st in
      match current with
      | [] => Ok doc
      | _ => Ok (add_formatted_paragraph doc (para_text current))
      end
  | [] =>
      match extract_text p with
      | Some (c :: s) => Ok (fold_left advanced_fallback_line (split_on 10 (c :: s)) doc)
      | _ => Ok doc
      end
  end.

Definition advanced_page (doc : list node) (page_num : nat) (p : page)
  : result (list node) :=
  let doc := if 1 <? page_num then add_page_break doc else doc in
  let! doc := for_each (emit_table TableGrid None) (extract_tables p) doc in
  advanced_page_text doc p.

Definition extract_with_tables_and_formatting (opened : result (list page))
  : result document :=
  let! pages := opened in
  let! body := for_enumerate advanced_page 1 pages [] in
  Ok {| margins := 1; body := body |}.

End Advanced.

(** ** The main programs *)

(** [text.strip(chars)]. *)
Fixpoint lstrip_chars (p : N -> bool) (s : str) : str :=
  match s with
  | [] => []
  | c :: rest => if p c then lstrip_chars p rest else s
  end.

Definition strip_chars (p : N -> bool) (s : str) : str :=
  rev (lstrip_chars p (rev (lstrip_chars p s))).

(** What [install_requirements] found. *)
Inductive requirements :=
| Available
| Installed
| InstallFailed.

(** The world a run meets: the package check, the line typed at the prompt,
    what opening a path gives, and whether [doc.save] raises. *)
Record env := {
  env_requirements : requirements;
  env_input : str;
  env_open : str -> result (list page);
  env_save : option exn
}.

(** The groups of lines a run prints. *)
Inductive message :=
| MsgBanner
| MsgRequirements (r : requirements)
| MsgCannotProceed
| MsgStarting
| MsgComplete (filename : string)
| MsgError (e : exn)
| MsgTryOther.

Record outcome := {
  stdout : list message;
  saved : option (string * document);
  exit_status : option nat
}.

(** The line typed at the prompt, stripped of surrounding whitespace, then
    of double quotes, then of single quotes. *)
Definition read_path (w : env) : str :=
  strip_chars (N.eqb 39) (strip_chars (N.eqb 34) (strip (env_input w))).

(** [doc.save(filename)]. *)
Definition save (w : env) (filename : string) (doc : document)
  : result (string * document) :=
  match env_save w with
  | None => Ok (filename, doc)
  | Some e => Raise e
  end.

(** The [try] ... [except Exception] of a main program: [convert] is the
    variant's conversion function. *)
Definition try_convert (convert : result (list page) -> result document)
  (filename : string) (w : env) (printed : list message) : outcome :=
  let attempt :=
    let! doc := convert (env_open w (read_path w)) in
    save w filename doc in
  match attempt with
  | Ok file =>
      {| stdout := printed ++ [MsgStarting; MsgComplete filename];
         saved := Some file; exit_status := None |}
  | Raise e =>
      {| stdout := printed ++ [MsgStarting; MsgError e; MsgTryOther];
         saved := None; exit_status := None |}
  end.

Section Main.
Context {u : Ucd}.

Definition ultra_main (w : env) : outcome :=
  let printed := [MsgBanner; MsgRequirements (env_requirements w)] in
  match env_requirements w with
  | InstallFailed =>
      {| stdout := printed ++ [MsgCannotProceed]; saved := None;
         exit_status := Some 1 |}
  | _ => try_convert ultra_preserve_formatting "PDF-Ultra-Formatted.docx" w printed
  end.

Definition advanced_main (w : env) : outcome :=
  try_convert extract_with_tables_and_formatting "PDF-Advanced-Formatted.docx" w [].

End Main.

(** * The vocabulary of the properties *)

(** A text that does not begin with whitespace. *)
Definition no_lead_space (s : str) : Prop :=
  match s with
  | [] => True
  | c :: _ => is_space c = false
  end.

(** A text [strip] leaves alone. *)
Definition trimmed (s : str) : Prop := lstrip s = s /\ rstrip s = s.

(** What one block appends. *)
Definition block_nodes {u : Ucd} (block : text_block) : list node :=
  add_formatted_text_block [] block.

(** The entry at row [i], column [j] of a list of rows. *)
Definition lookup2 {A} (ll : list (list A)) (i j : nat) : option A :=
  match ll !! i with
  | Some l => l !! j
  | None => None
  end.

(** The cell the emitter makes of a source value. *)
Definition cell_of (size : option Z) (v : option str) : cell :=
  match v with
  | Some (c :: s) => {| cell_text := strip (c :: s); cell_size := size |}
  | _ => blank_cell
  end.

(** A cell after the loop has passed the source entry [v] (none when the
    loop has no entry for it): written when the entry is a non-empty
    string, as it was otherwise. *)
Definition written (size : option Z) (v : option (option str)) (old : option cell)
  : option cell :=
  match v with
  | Some (Some (c :: s)) => Some (cell_of size (Some (c :: s)))
  | _ => old
  end.

(** The entries the loops have reached when they start at index [from]. *)
Definition reached {A} (from k : nat) (l : list A) : option A :=
  if from <=? k then l !! (k - from) else None.

(** The source entry the loops have reached for the cell at row [r],
    column [k], when the outer loop starts at row [from]. *)
Definition reached2 {A} (from r k : nat) (ll : list (list A)) : option A :=
  match reached from r ll with
  | Some l => l !! k
  | None => None
  end.

(** The value the source grid holds at row [r], column [k]: none where the
    grid has no entry or the entry is [None]. *)
Definition source_value (data : table_data) (r k : nat) : option str :=
  match lookup2 data r k with
  | Some v => v
  | None => None
  end.

(** All the characters of a dictionary of lines, line after line; [proj]
    gives the characters of a line. *)
Definition dict_chars {V} (proj : V -> list char) (d : dict V) : list char :=
  concat (map (fun kv => proj (snd kv)) d).

(** What the grouping loop keeps true of the lines built from the
    characters seen so far: the keys are distinct, the lines hold the
    characters seen, and every line has the property [Q] of its key. *)
Record grouped {V} (proj : V -> list char) (Q : Z -> V -> Prop)
  (d : dict V) (seen : list char) : Prop := {
  g_nodup : NoDup (map fst d);
  g_chars : dict_chars proj d ≡ₚ seen;
  g_lines : Forall (fun kv => Q (fst kv) (snd kv)) d
}.

(** The lines the grouper hands on: the key of each line and its characters
    in the order they are read out, the lines in the order they are walked. *)
Definition lines_of {V} (proj : V -> list char) (d : dict V) : list (Z * list char) :=
  map (fun kv => (fst kv, sorted_chars (proj (snd kv)))) (sorted_lines d).

(** The key [k] names the vertical position [y] to [ndigits] decimal
    places: [y] lies within half a unit of [k] units of [10^-ndigits]. *)
Definition quantizes (ndigits : nat) (y : Q) (k : Z) : Prop :=
  (inject_Z k - (1 # 2) <= y * inject_Z (10 ^ Z.of_nat ndigits) /\
   y * inject_Z (10 ^ Z.of_nat ndigits) <= inject_Z k + (1 # 2))%Q.

(** A line of the grouper: not empty, and of characters of its key. *)
Definition line_of_key (ndigits : nat) (k : Z) (cs : list char) : Prop :=
  cs <> [] /\ Forall (fun c => py_round (y0 c) ndigits = k) cs.

(** The lists a line of the ultra variant keeps beside its characters. *)
Definition line_data_ok (ld : line_data) : Prop :=
  font_sizes ld = map (fun c => default 12%Q (size c)) (chars ld) /\
  fonts ld = map (fun c => default (py "default") (fontname c)) (chars ld) /\
  x_positions ld = map x0 (chars ld).

(** A line of the ultra variant under the key [k]. *)
Definition ultra_line_ok (k : Z) (ld : line_data) : Prop :=
  line_of_key 2 k (chars ld) /\ line_data_ok ld.

(** The block the second loop makes of a line. *)
Definition block_of {u : Ucd} (ld : line_data) (b : text_block) : Prop :=
  block_text b = line_text (sorted_chars (chars ld)) /\
  match block_text b with
  | [] => b = empty_block
  | _ =>
      type b = classify_text_type (block_text b) (font_size b) (indent b) /\
      average (font_sizes ld) = Ok (font_size b) /\
      font b ∈ fonts ld /\
      indent b = min_or_zero (x_positions ld)
  end.

(** The lines of the two variants. *)
Definition ultra_lines (cs : list char) : list (Z * list char) :=
  lines_of chars (group_chars cs).

Definition advanced_lines (cs : list char) : list (Z * list char) :=
  lines_of id (group_chars_advanced cs).

(** Lines in reading order, in terms of the coordinates of the characters
    (the origin of a page is its bottom left corner): there is one line at
    least; together the lines hold the characters of the page; no line is
    empty, the key of a line names the vertical position of each of its
    characters to [ndigits] places, and its characters go from left to
    right; the keys strictly descend from line to line, and every character
    of a line lies strictly higher on the page than every character of a
    later line. *)
Definition in_reading_order (ndigits : nat) (cs : list char)
  (ls : list (Z * list char)) : Prop :=
  ls <> [] /\
  concat (map snd ls) ≡ₚ cs /\
  Forall (fun l => snd l <> [] /\
                   Forall (fun c => quantizes ndigits (y0 c) (fst l)) (snd l) /\
                   StronglySorted (fun a b => (x0 a <= x0 b)%Q) (snd l)) ls /\
  StronglySorted (fun l l' => (fst l' < fst l)%Z /\
                              forall a b, a ∈ snd l -> b ∈ snd l' ->
                                          (y0 b < y0 a)%Q) ls.

(** The rows of the table emitted for a grid whose first row has
    [cols] cells. *)
Definition table_rows (size : option Z) (cols : nat) (data : table_data)
  : list (list cell) :=
  map (fun row => take cols (map (cell_of size) row)
                  ++ replicate (cols - length row) blank_cell) data.

(** The nodes emitted for one grid: nothing for an empty grid, the table
    and its spacer paragraph otherwise. *)
Definition table_nodes (st : tstyle) (size : option Z) (data : table_data)
  : list node :=
  match data with
  | [] => []
  | first :: _ =>
      [Tbl st (table_rows size (length first) data); Para (new_para [] Normal)]
  end.

(** A paragraph node: a heading, a plain or a bulleted paragraph. *)
Definition is_para (n : node) : Prop :=
  match n with
  | Para _ => True
  | _ => False
  end.

(** The grids of a page are all accepted. *)
Definition tables_fit (tables : list table_data) : Prop :=
  Forall (fun data => forall first rest, data = first :: rest ->
            Forall (fun row => length row <= length first) data) tables.

(** The nodes of a page: the page break of every page but the first, the
    nodes of its tables, then its text nodes. *)
Definition page_nodes (st : tstyle) (size : option Z) (page_num : nat) (p : page)
  (texts : list node) : list node :=
  (if 1 <? page_num then [PageBreak] else [])
  ++ concat (map (table_nodes st size) (extract_tables p))
  ++ texts.

(** The nodes of the pages from number [page_num] on, [texts] holding the
    text nodes of each. *)
Fixpoint layout (st : tstyle) (size : option Z) (page_num : nat)
  (pages : list page) (texts : list (list node)) : list node :=
  match pages, texts with
  | p :: pages', x :: texts' =>
      page_nodes st size page_num p x ++ layout st size (S page_num) pages' texts'
  | _, _ => []
  end.

(** The body of the page loop, for either variant: [st] and [size] are the
    table style and cell size of the variant, [text_of] its text part. *)
Definition page_step (st : tstyle) (size : option Z)
  (text_of : list node -> page -> result (list node))
  (doc : list node) (page_num : nat) (p : page) : result (list node) :=
  let doc := if 1 <? page_num then add_page_break doc else doc in
  let! doc := for_each (emit_table st size) (extract_tables p) doc in
  text_of doc p.

(** Two lines of two characters each, given out of order. *)
Definition four_chars : list char :=
  [mk_char "i" 20 700; mk_char "b" 10 100; mk_char "H" 10 700; mk_char "y" 30 100].

(** Two pages: a grid and a line of text, then a line of text. *)
Definition two_pages : list page :=
  [ {| extract_tables := [[[Some (py "Name"); Some (py "Age")];
                          [Some (py "Bob"); Some (py "25")]]];
       page_chars := [mk_char "i" 20 700; mk_char "H" 10 700];
       extract_text := None |};
    {| extract_tables := [];
       page_chars := [mk_char "k" 20 700; mk_char "O" 10 700];
       extract_text := None |} ].

(** A run on a document whose one page has a grid with a second row longer
    than the first. *)
Definition bad_page : page :=
  {| extract_tables := [[[Some (py "a")]; [Some (py "b"); Some (py "c")]]];
     page_chars := [mk_char "x" 10 700];
     extract_text := None |}.

Definition bad_run : env :=
  {| env_requirements := Available;
     env_input := py " 'in.pdf' ";
     env_open := fun _ => Ok [bad_page];
     env_save := None |}.

(** ** Further vocabulary *)

(** [a] is a contiguous part of [s]. *)
Definition part_of (a s : str) : Prop := exists pre post, s = pre ++ a ++ post.

(** A continuation that, when it accepts, stops at a later or the same place
    of the text it was given; when it has moved on, the character before
    the place it stops at is known. *)
Definition advances (k : cont) : Prop :=
  forall q t p' r', k q t = Some (p', r') ->
    r' `suffix_of` t /\
    ((p' = q /\ r' = t) \/ (p' <> None /\ length r' < length t)).

(** A block made of a line of the ultra variant, with the font the second
    loop chose for it. *)
Definition block_from {u : Ucd} (kv : Z * line_data) (b : text_block) : Prop :=
  ultra_line_ok (fst kv) (snd kv) /\
  block_of (snd kv) b /\
  (block_text b <> [] -> most_common (fonts (snd kv)) = Ok (font b)).

(** The rounded vertical position of a character in the ultra variant. *)
Definition line_key (c : char) : Z := py_round (y0 c) 2.

(** A grid with a non-empty value at a column beyond the width of its
    first row. *)
Definition overflows (data : table_data) : Prop :=
  exists first rest r k c s,
    data = first :: rest /\
    lookup2 data r k = Some (Some (c :: s)) /\
    length first <= k.

Definition is_break (n : node) : bool :=
  match n with
  | PageBreak => true
  | _ => false
  end.

Definition is_table (n : node) : bool :=
  match n with
  | Tbl _ _ => true
  | _ => false
  end.

(** The number of nodes of a kind. *)
Definition count_nodes (f : node -> bool) (ns : list node) : nat :=
  length (List.filter f ns).

(** A grid with at least one row. *)
Definition has_rows (data : table_data) : bool :=
  match data with
  | [] => false
  | _ :: _ => true
  end.

(** A node that, if it is a heading, is a heading of level 2 over one run
    of all-uppercase text shorter than 50 characters. *)
Definition caps_heading2 {u : Ucd} (n : node) : Prop :=
  match n with
  | Para p =>
      match p_style p with
      | HeadingStyle level =>
          level = 2 /\
          exists t, p_runs p = [plain_run t] /\
                    isupper t = true /\ length t < 50
      | _ => True
      end
  | _ => True
  end.

(** A page of one line in a large font, its characters given out of order. *)
Definition one_line_page : page :=
  {| extract_tables := [];
     page_chars :=
       [ {| text := py "I"; x0 := 20; y0 := 700; size := Some 24%Q; fontname := None |};
         {| text := py "H"; x0 := 10; y0 := 700; size := Some 24%Q; fontname := None |} ];
     extract_text := None |}.

(** The text a paragraph shows: the texts of its runs, one after the other. *)
Definition para_shown (p : para) : str := concat (map run_text (p_runs p)).

(** The text a node shows: that of a paragraph or heading, none for a table
    or a page break. *)
Definition node_text (n : node) : str :=
  match n with
  | Para p => para_shown p
  | _ => []
  end.

(** A text that is not empty. *)
Definition has_text (t : str) : bool :=
  match t with
  | [] => false
  | _ :: _ => true
  end.

(** A text that is not empty and that [strip] leaves alone. *)
Definition solid (t : str) : Prop := t <> [] /\ trimmed t.

(** What the advanced variant shows of a group of consecutive lines: one
    node with their texts joined by blanks; or, when the joined text is
    taken for a bullet, one node with what the stripper leaves of it, and
    no node when the stripper leaves nothing. *)
Definition shows_group {u : Ucd} (g : list str) (shown : list str) : Prop :=
  shown = [para_text g] \/
  (detect_bullet_point (para_text g) = true /\
   shown = List.filter has_text [clean_bullet_text_advanced (para_text g)]).

(** The texts [outs] of the nodes of a page are read off the texts of its
    lines: the texts of the lines that have any fall, in their order, into
    groups of consecutive lines, and the nodes show the groups one after the
    other. *)
Definition read_off {u : Ucd} (outs texts : list str) : Prop :=
  exists groups shown,
    concat groups = List.filter has_text texts /\
    Forall (fun g => g <> []) groups /\
    Forall2 shows_group groups shown /\
    outs = concat shown.

(** Two lines of two characters each, given out of order and not quite
    level. *)
Definition slanted_chars : list char :=
  [mk_char "i" 20 700; mk_char "b" 10 (100004 # 1000);
   mk_char "H" 10 (700003 # 1000); mk_char "y" 30 100].

Definition slanted_page : page :=
  {| extract_tables := []; page_chars := slanted_chars; extract_text := None |}.

(** A page without character data whose text has a line in capitals. *)
Definition fallback_page : page :=
  {| extract_tables := [];
     page_chars := [];
     extract_text := Some (py "EF" ++ [10%N] ++ py "plain") |}.

(** A page of two lines in capitals, its characters given out of order,
    then the page without character data. *)
Definition heading_pages : list page :=
  [ {| extract_tables := [];
       page_chars := [mk_char "B" 20 700; mk_char "A" 10 700;
                      mk_char "C" 10 600; mk_char "D" 20 600];
       extract_text := None |};
    fallback_page ].

(** The paragraph style the block emitter gives a kind. *)
Definition style_of_kind (k : kind) : pstyle :=
  match k with
  | heading1 => HeadingStyle 1
  | heading2 | section_header => HeadingStyle 2
  | bullet => ListBullet
  | _ => Normal
  end.

(** The characters of a list at the horizontal position [x], in order. *)
Definition at_x (x : Q) (cs : list char) : list char :=
  List.filter (fun c => Qeq_bool (x0 c) x) cs.

(** * Examples *)

Example classify_professional_summary :
  @classify_text_type ascii_ucd (py "PROFESSIONAL SUMMARY") 12 0 = heading2.
Proof. reflexivity. Qed.

Example classify_led_a_team :
  @classify_text_type ascii_ucd
    ([8226; 32]%N ++ py "Led a team of 5 engineers") 12 0 = bullet.
Proof. reflexivity. Qed.

Example classify_email :
  @classify_text_type ascii_ucd (py "john.doe@example.com") 12 0 = contact.
Proof. reflexivity. Qed.

Example classify_phone :
  @classify_text_type ascii_ucd (py "Call 555-123-4567 now") 12 0 = contact.
Proof. reflexivity. Qed.

Example classify_work_experience :
  @classify_text_type ascii_ucd (py "Work Experience") 12 0 = section_header.
Proof. reflexivity. Qed.

Example classify_lettered :
  @classify_text_type ascii_ucd (py "a. first item") 12 0 = paragraph.
Proof. reflexivity. Qed.

Example classify_indented :
  @classify_text_type ascii_ucd (py "plain words") 12 72 = indented.
Proof. reflexivity. Qed.

Example emit_table_scenario4 :
  emit_table LightGridAccent1 (Some 11%Z) []
    [[Some (py "Name"); Some (py "Age")];
     [Some (py "Alice"); Some (py "30")];
     [Some (py "Bob"); Some (py "25")]]
  = Ok [Tbl LightGridAccent1
          [[ {| cell_text := py "Name"; cell_size := Some 11%Z |};
             {| cell_text := py "Age"; cell_size := Some 11%Z |} ];
           [ {| cell_text := py "Alice"; cell_size := Some 11%Z |};
             {| cell_text := py "30"; cell_size := Some 11%Z |} ];
           [ {| cell_text := py "Bob"; cell_size := Some 11%Z |};
             {| cell_text := py "25"; cell_size := Some 11%Z |} ]];
        Para (new_para [] Normal)].
Proof. reflexivity. Qed.

Example analyze_two_lines :
  @analyze_text_blocks ascii_ucd
    [mk_char "i" 20 700; mk_char "b" 10 100; mk_char "H" 10 700; mk_char "y" 30 100;
     mk_char "e" 20 100]
  = Ok [ {| type := paragraph; block_text := py "Hi"; font_size := 24 # 2;
            font := py "default"; indent := 10 |};
         {| type := paragraph; block_text := py "bey"; font_size := 36 # 3;
            font := py "default"; indent := 10 |} ].
Proof. reflexivity. Qed.

Example emit_bullet_scenario2 :
  @add_formatted_text_block ascii_ucd []
    {| type := bullet; block_text := [8226; 32]%N ++ py "Led a team of 5 engineers";
       font_size := 12; font := py "default"; indent := 0 |}
  = [Para (new_para (py "Led a team of 5 engineers") ListBullet)].
Proof. reflexivity. Qed.

Example clean_numbered :
  @clean_bullet_text ascii_ucd (py "  - 12.   item one ") = py "item one".
Proof. reflexivity. Qed.

(** * Properties *)

(** ** Stripping *)

Lemma lstrip_id s : no_lead_space s -> lstrip s = s.
Proof. destruct s as [|c s]; simpl; [done|]. by intros ->. Qed.

Lemma lstrip_no_lead s : no_lead_space (lstrip s).
Proof.
  induction s as [|c s IH]; simpl; [done|].
  destruct (is_space c) eqn:E; [done|]. simpl. by rewrite E.
Qed.

Lemma lstrip_idem s : lstrip (lstrip s) = lstrip s.
Proof. apply lstrip_id, lstrip_no_lead. Qed.

Lemma lstrip_snoc s c : is_space c = false -> lstrip (s ++ [c]) = lstrip s ++ [c].
Proof.
  intros Hc. induction s as [|d s IH]; simpl.
  - by rewrite Hc.
  - destruct (is_space d); [done|]. done.
Qed.

Lemma rstrip_no_lead s : no_lead_space s -> no_lead_space (rstrip s).
Proof.
  destruct s as [|c s]; [done|]. simpl. intros Hc.
  unfold rstrip. simpl. rewrite lstrip_snoc by done.
  rewrite rev_app_distr. simpl. done.
Qed.

Lemma rstrip_idem s : rstrip (rstrip s) = rstrip s.
Proof. unfold rstrip. by rewrite rev_involutive, lstrip_idem. Qed.

Lemma strip_trimmed s : trimmed (strip s).
Proof.
  unfold trimmed, strip. split.
  - apply lstrip_id, rstrip_no_lead, lstrip_no_lead.
  - apply rstrip_idem.
Qed.

Lemma strip_id s : trimmed s -> strip s = s.
Proof. intros [Hl Hr]. unfold strip. by rewrite Hl. Qed.

Lemma trimmed_no_lead s : trimmed s -> no_lead_space s.
Proof. intros [Hl _]. rewrite <- Hl. apply lstrip_no_lead. Qed.

(** ** The matcher *)

Section RegexFacts.
Context {u : Ucd}.

(** A pattern that fails before an accepting continuation fails before
    every continuation. *)
Lemma star_from_fails p (k k' : cont) prev s :
  (forall q t, k q t = None -> k' q t = None) ->
  star_from p k prev s = None -> star_from p k' prev s = None.
Proof.
  intros Hk. revert prev. induction s as [|c s IH]; intros prev; simpl.
  - apply Hk.
  - destruct (p c); [|apply Hk].
    destruct (star_from p k (Some c) s) eqn:E; simpl; [done|].
    intros H. rewrite (IH _ E). simpl. by apply Hk.
Qed.

Lemma match_at_fails r (k k' : cont) prev s :
  (forall q t, k q t = None -> k' q t = None) ->
  match_at r k prev s = None -> match_at r k' prev s = None.
Proof.
  revert k k' prev s. induction r as [| |p|p|p|a IHa b IHb]; intros k k' prev s Hk; simpl.
  - destruct prev; [done|apply Hk].
  - destruct (xorb _ _); [apply Hk|done].
  - destruct s as [|c s]; [done|]. destruct (p c); [apply Hk|done].
  - by apply star_from_fails.
  - destruct s as [|c s]; [apply Hk|]. destruct (p c); [|apply Hk].
    destruct (k (Some c) s) eqn:E; simpl; [done|].
    intros H. rewrite (Hk _ _ E). simpl. by apply Hk.
  - apply IHa. intros q t. by apply IHb.
Qed.

(** [\s*] takes nothing from a text that does not begin with a space. *)
Lemma star_space_no_lead (k : cont) prev s :
  no_lead_space s -> star_from is_space k prev s = k prev s.
Proof. destruct s as [|c s]; simpl; [done|]. by intros ->. Qed.

(** A pattern anchored by [^] matches nowhere but at the start. *)
Lemma sub_from_anchored r fuel c s : sub_from (Seq Bol r) fuel (Some c) s = s.
Proof.
  revert c s. induction fuel as [|fuel IH]; intros c s; simpl; [done|].
  destruct s as [|d s]; [done|]. by rewrite IH.
Qed.

Lemma re_sub_no_match r s :
  match_at r accept None s = None -> re_sub (Seq Bol r) s = s.
Proof.
  intros H. unfold re_sub. simpl. rewrite H.
  destruct s as [|c s]; [done|]. by rewrite sub_from_anchored.
Qed.

End RegexFacts.

(** ** The bullet-marker stripper *)

Section Stripper.
Context {u : Ucd}.

Lemma re_match_false r s :
  re_match r s = false -> match_at r accept None s = None.
Proof. unfold re_match. by destruct (match_at r accept None s). Qed.

Lemma match_at_accept_fails r (k : cont) prev s :
  match_at r accept prev s = None -> match_at r k prev s = None.
Proof. apply match_at_fails. intros q t. discriminate. Qed.

Lemma bullet_run_no_match s :
  re_match re_bullet_lead s = false -> re_sub re_bullet_run s = s.
Proof.
  intros H. apply re_match_false in H. apply re_sub_no_match.
  change (match_at (Cls bullet_class) (match_at (Star bullet_class) accept) None s = None).
  by apply match_at_accept_fails.
Qed.

Lemma number_marker_no_match s :
  no_lead_space s -> re_match re_number_lead s = false ->
  re_sub re_number_marker s = s.
Proof.
  intros Hs H. apply re_match_false in H. apply re_sub_no_match.
  change (star_from is_space
            (match_at (Plus is_decimal) (match_at (Cls dot) accept)) None s = None) in H.
  rewrite star_space_no_lead in H by done.
  change (match_at (Plus is_decimal)
            (match_at (Cls dot) (match_at (Star is_space) accept)) None s = None).
  revert H. apply match_at_fails. intros q t.
  change (match_at (Cls dot) accept q t = None ->
          match_at (Cls dot) (match_at (Star is_space) accept) q t = None).
  apply match_at_accept_fails.
Qed.

Lemma letter_marker_no_match s :
  no_lead_space s -> re_match re_letter_lead s = false ->
  re_sub re_letter_marker s = s.
Proof.
  intros Hs H. apply re_match_false in H. apply re_sub_no_match.
  change (star_from is_space
            (match_at (Cls ascii_letter) (match_at (Cls dot) accept)) None s = None) in H.
  rewrite star_space_no_lead in H by done.
  change (match_at (Cls ascii_letter)
            (match_at (Cls dot) (match_at (Star is_space) accept)) None s = None).
  revert H. apply match_at_fails. intros q t.
  change (match_at (Cls dot) accept q t = None ->
          match_at (Cls dot) (match_at (Star is_space) accept) q t = None).
  apply match_at_accept_fails.
Qed.

(** A trimmed text the classifier's two marker tests reject is left as it
    is by the stripper of the ultra variant. *)
Lemma clean_bullet_text_fixed r :
  trimmed r ->
  re_match re_bullet_lead r || re_match re_number_lead r = false ->
  clean_bullet_text r = r.
Proof.
  intros Ht H. apply orb_false_iff in H as [H1 H2].
  unfold clean_bullet_text.
  rewrite bullet_run_no_match, (strip_id r) by done.
  rewrite number_marker_no_match by (done || by apply trimmed_no_lead).
  by apply strip_id.
Qed.

Lemma startswith_one_of (gs : list N) c s :
  existsb (fun indicator => startswith (c :: s) [indicator]) gs = one_of gs c.
Proof.
  unfold one_of. induction gs as [|g gs IH]; [done|].
  change (startswith (c :: s) [g]
          || existsb (fun indicator => startswith (c :: s) [indicator]) gs
          = (c =? g)%N || existsb (N.eqb c) gs).
  rewrite IH. f_equal. rewrite (N.eqb_sym c g).
  destruct s; cbn; by rewrite andb_true_r.
Qed.

Lemma no_glyph_no_bullet_lead s :
  no_lead_space s ->
  existsb (fun indicator => startswith s [indicator]) bullet_glyphs = false ->
  re_match re_bullet_lead s = false.
Proof.
  destruct s as [|c s]; [done|]. intros Hc H.
  rewrite startswith_one_of in H.
  unfold re_match, re_bullet_lead. cbn [match_at]. unfold bullet_class.
  cbn in Hc. by rewrite Hc, H.
Qed.

Lemma clean_bullet_text_advanced_fixed r :
  trimmed r -> detect_bullet_point r = false ->
  clean_bullet_text_advanced r = r.
Proof.
  intros Ht H. unfold detect_bullet_point in H.
  apply orb_false_iff in H as [H H3]. apply orb_false_iff in H as [H1 H2].
  pose proof (trimmed_no_lead _ Ht) as Hn.
  apply no_glyph_no_bullet_lead in H1; [|done].
  unfold clean_bullet_text_advanced.
  rewrite bullet_run_no_match, (strip_id r) by done.
  rewrite number_marker_no_match, (strip_id r) by done.
  rewrite letter_marker_no_match by done.
  by apply strip_id.
Qed.

End Stripper.

(** ** The classifier *)

Lemma Qgtb_14_16 fs : Qgtb fs 14 = false -> Qgtb fs 16 = false.
Proof.
  unfold Qgtb. rewrite !negb_false_iff, !Qle_bool_iff.
  intros H. eapply Qle_trans; [exact H|]. by compute.
Qed.

Lemma ascii_letter_range c :
  ascii_letter c = true -> (65 <= c <= 90)%N \/ (97 <= c <= 122)%N.
Proof.
  unfold ascii_letter, ascii_upper, ascii_lower, in_range.
  rewrite orb_true_iff, !andb_true_iff, !N.leb_le. tauto.
Qed.

Lemma ascii_letter_not_space c : ascii_letter c = true -> is_space c = false.
Proof.
  intros H%ascii_letter_range. unfold is_space.
  repeat match goal with
         | |- context [(?a <=? ?b)%N] => destruct (N.leb_spec a b)
         | |- context [(?a =? ?b)%N] => destruct (N.eqb_spec a b)
         end; simpl; try reflexivity; exfalso; lia.
Qed.

Lemma ascii_letter_not_glyph c : ascii_letter c = true -> one_of bullet_glyphs c = false.
Proof.
  intros H%ascii_letter_range. unfold one_of, bullet_glyphs. cbn [existsb].
  repeat match goal with
         | |- context [(?a =? ?b)%N] => destruct (N.eqb_spec a b)
         end; simpl; try reflexivity; exfalso; lia.
Qed.

Lemma ascii_letter_not_digit c : ascii_letter c = true -> ascii_digit c = false.
Proof.
  intros H%ascii_letter_range. unfold ascii_digit, in_range.
  repeat match goal with
         | |- context [(?a <=? ?b)%N] => destruct (N.leb_spec a b)
         end; simpl; try reflexivity; exfalso; lia.
Qed.

Section ClassifierFacts.
Context {u : Ucd}.

(** The kinds the classifier can give; [empty] is given by the line
    grouper alone. *)
Lemma classify_text_type_kind text fs ind :
  In (classify_text_type text fs ind)
     [heading1; heading2; section_header; bullet; contact; indented; paragraph].
Proof.
  unfold classify_text_type.
  repeat match goal with
         | |- context [if ?b then _ else _] => destruct b
         end; simpl; tauto.
Qed.

(** A text that begins with an ASCII letter passes neither marker test of
    the ultra classifier. *)
Lemma letter_first_not_bullet c rest :
  ascii_faithful u -> ascii_letter c = true ->
  re_match re_bullet_lead (c :: rest) || re_match re_number_lead (c :: rest) = false.
Proof.
  intros Hu Hc. apply orb_false_iff. split.
  - unfold re_match, re_bullet_lead. cbn [match_at]. unfold bullet_class.
    by rewrite ascii_letter_not_space, ascii_letter_not_glyph.
  - unfold re_match, re_number_lead.
    change (match star_from is_space
                    (match_at (Plus is_decimal) (match_at (Cls dot) accept))
                    None (c :: rest)
            with Some _ => true | None => false end = false).
    rewrite star_space_no_lead by (by apply ascii_letter_not_space).
    cbn [match_at Plus].
    rewrite (af_decimal u Hu), ascii_letter_not_digit; [done|done|].
    apply ascii_letter_range in Hc. lia.
Qed.

End ClassifierFacts.

(** C1, as the code has it. A line whose text is all uppercase, shorter than
    30 characters and holds a resume-section keyword is caught by the rules
    that come first: it is classified [heading1] when its font size exceeds
    16 and [heading2] otherwise, and never reaches the keyword rule that
    gives [section_header]. *)
Theorem C1_uppercase_keyword_line_is_heading {u : Ucd} (text : str) (fs ind : Q) :
  isupper text = true ->
  length text < 30 ->
  has_keyword section_keywords text = true ->
  classify_text_type text fs ind = (if Qgtb fs 16 then heading1 else heading2).
Proof.
  intros Hup Hlen _. unfold classify_text_type.
  destruct (Qgtb fs 16); [done|]. destruct (Qgtb fs 14); [done|].
  rewrite Hup. simpl.
  destruct (Nat.ltb_spec (length text) 50) as [_|Hge]; [done|lia].
Qed.

Lemma C1_uppercase_keyword_line_is_heading_witness :
  @classify_text_type ascii_ucd (py "EDUCATION") 12 0
  = (if Qgtb 12 16 then heading1 else heading2).
Proof.
  apply (@C1_uppercase_keyword_line_is_heading ascii_ucd (py "EDUCATION") 12 0).
  - reflexivity.
  - simpl. lia.
  - reflexivity.
Defined.

(** C1 as stated fails on "PROFESSIONAL SUMMARY" at font size 12: the text
    is all uppercase, 20 characters long and holds the keyword "summary",
    and the classifier gives [heading2]. *)
Lemma C1_counterexample :
  @isupper ascii_ucd (py "PROFESSIONAL SUMMARY") = true /\
  length (py "PROFESSIONAL SUMMARY") < 30 /\
  @has_keyword ascii_ucd section_keywords (py "PROFESSIONAL SUMMARY") = true /\
  @classify_text_type ascii_ucd (py "PROFESSIONAL SUMMARY") 12 0 = heading2 /\
  @classify_text_type ascii_ucd (py "PROFESSIONAL SUMMARY") 12 0 <> section_header.
Proof.
  split; [reflexivity|]. split; [simpl; lia|]. split; [reflexivity|].
  split; [reflexivity|discriminate].
Qed.

(** C7, as the code has it. For a line whose text matches a leading
    alphabetic list marker and no rule of higher priority: the advanced
    variant's [detect_bullet_point] accepts it; the ultra classifier has no
    alphabetic rule, so it gives [bullet] only to a text that begins with
    whitespace (through the glyph rule), and a text that begins with the
    letter itself gets one of [contact], [section_header], [indented] or
    [paragraph]. *)
Theorem C7_alphabetic_marker {u : Ucd} (text : str) (fs ind : Q) :
  ascii_faithful u ->
  re_match re_letter_lead text = true ->
  Qgtb fs 14 = false ->
  isupper text && (length text <? 50) = false ->
  detect_bullet_point text = true /\
  (no_lead_space text ->
   In (classify_text_type text fs ind) [contact; section_header; indented; paragraph]) /\
  (~ no_lead_space text -> classify_text_type text fs ind = bullet).
Proof.
  intros Hu Hm Hfs Hup. split; [|split].
  - unfold detect_bullet_point. rewrite Hm. by rewrite orb_true_r.
  - intros Hn. destruct text as [|c rest]; [done|].
    assert (Hc : ascii_letter c = true).
    { unfold re_match, re_letter_lead in Hm.
      change (match star_from is_space
                      (match_at (Cls ascii_letter) (match_at (Cls dot) accept))
                      None (c :: rest)
              with Some _ => true | None => false end = true) in Hm.
      rewrite star_space_no_lead in Hm by done. cbn [match_at] in Hm.
      by destruct (ascii_letter c). }
    unfold classify_text_type.
    rewrite (Qgtb_14_16 _ Hfs), Hfs, Hup, (letter_first_not_bullet c rest Hu Hc).
    repeat match goal with
           | |- context [if ?b then _ else _] => destruct b
           end; simpl; tauto.
  - intros Hn. destruct text as [|c rest]; [by destruct Hn|].
    assert (Hc : is_space c = true).
    { simpl in Hn. by destruct (is_space c). }
    unfold classify_text_type.
    rewrite (Qgtb_14_16 _ Hfs), Hfs, Hup.
    unfold re_match at 1. unfold re_bullet_lead. cbn [match_at].
    unfold bullet_class. by rewrite Hc.
Qed.

Lemma ascii_ucd_faithful : ascii_faithful ascii_ucd.
Proof. by split. Qed.

Lemma C7_alphabetic_marker_witness :
  @detect_bullet_point ascii_ucd (py "a. first item") = true /\
  (no_lead_space (py "a. first item") ->
   In (@classify_text_type ascii_ucd (py "a. first item") 12 0)
      [contact; section_header; indented; paragraph]) /\
  (~ no_lead_space (py "a. first item") ->
   @classify_text_type ascii_ucd (py "a. first item") 12 0 = bullet).
Proof.
  apply (@C7_alphabetic_marker ascii_ucd (py "a. first item") 12 0).
  - exact ascii_ucd_faithful.
  - reflexivity.
  - reflexivity.
  - reflexivity.
Defined.

(** C7 as stated fails on "a. first item" at font size 12 and indent 0: the
    text matches the alphabetic marker, is not empty, is not all uppercase,
    and the ultra classifier gives [paragraph]. *)
Lemma C7_counterexample :
  @re_match ascii_ucd re_letter_lead (py "a. first item") = true /\
  py "a. first item" <> [] /\
  Qgtb 12 14 = false /\
  @isupper ascii_ucd (py "a. first item") && (length (py "a. first item") <? 50) = false /\
  @classify_text_type ascii_ucd (py "a. first item") 12 0 = paragraph /\
  @classify_text_type ascii_ucd (py "a. first item") 12 0 <> bullet.
Proof.
  split; [reflexivity|]. split; [discriminate|]. split; [reflexivity|].
  split; [reflexivity|]. split; [reflexivity|discriminate].
Qed.

(** ** The block emitter *)

Lemma on_last_para_app f doc p :
  on_last_para f (doc ++ [Para p]) = doc ++ [Para (f p)].
Proof.
  unfold on_last_para. rewrite rev_app_distr. simpl. by rewrite rev_involutive.
Qed.

Lemma on_last_para_add f doc text style :
  on_last_para f (add_paragraph doc text style)
  = doc ++ [Para (f (new_para text style))].
Proof. apply on_last_para_app. Qed.

Lemma add_formatted_text_block_app {u : Ucd} doc block :
  add_formatted_text_block doc block = doc ++ block_nodes block.
Proof.
  unfold block_nodes, add_formatted_text_block, add_heading.
  destruct (type block);
    rewrite ?on_last_para_add, ?on_last_para_app; try done.
  destruct (clean_bullet_text (block_text block)); [by rewrite app_nil_r|done].
Qed.

Lemma block_nodes_length {u : Ucd} block :
  length (block_nodes block)
  = match type block, clean_bullet_text (block_text block) with
    | bullet, [] => 0
    | _, _ => 1
    end.
Proof.
  unfold block_nodes, add_formatted_text_block, add_heading.
  destruct (type block);
    rewrite ?on_last_para_add, ?on_last_para_app; try done;
    try (by destruct (clean_bullet_text (block_text block))).
Qed.

(** C5, as the code has it. The block emitter only appends to the document,
    and appends exactly one node for every block but one kind: a [bullet]
    block whose text is empty once its markers are stripped, for which the
    guard of the branch appends nothing. *)
Theorem C5_block_emitter_appends {u : Ucd} (doc : list node) (block : text_block) :
  exists nodes,
    add_formatted_text_block doc block = doc ++ nodes /\
    length nodes = match type block, clean_bullet_text (block_text block) with
                   | bullet, [] => 0
                   | _, _ => 1
                   end.
Proof.
  exists (block_nodes block). split.
  - apply add_formatted_text_block_app.
  - apply block_nodes_length.
Qed.

(** C5 as stated fails on a line that holds a lone dash: the line grouper
    makes it a [bullet] block, and the emitter appends nothing for it. *)
Lemma C5_counterexample :
  @analyze_text_blocks ascii_ucd [mk_char "-" 72 700]
  = Ok [ {| type := bullet; block_text := py "-"; font_size := 12 # 1;
            font := py "default"; indent := 72 |} ] /\
  @add_formatted_text_block ascii_ucd []
    {| type := bullet; block_text := py "-"; font_size := 12 # 1;
       font := py "default"; indent := 72 |} = [].
Proof. split; reflexivity. Qed.

(** C6, as the code has it. The stripper removes one layer of markers, so
    it is idempotent on every string whose stripped result carries no
    further marker: when the result of stripping fails the marker tests of
    its variant (the two tests of the ultra classifier, [detect_bullet_point]
    in the advanced variant), stripping it again changes nothing. *)
Theorem C6_stripper_idempotent_without_second_marker {u : Ucd} (s : str) :
  (re_match re_bullet_lead (clean_bullet_text s)
   || re_match re_number_lead (clean_bullet_text s) = false ->
   clean_bullet_text (clean_bullet_text s) = clean_bullet_text s) /\
  (detect_bullet_point (clean_bullet_text_advanced s) = false ->
   clean_bullet_text_advanced (clean_bullet_text_advanced s)
   = clean_bullet_text_advanced s).
Proof.
  split; intros H.
  - apply clean_bullet_text_fixed; [|done]. apply strip_trimmed.
  - apply clean_bullet_text_advanced_fixed; [|done]. apply strip_trimmed.
Qed.

Lemma C6_stripper_idempotent_without_second_marker_witness :
  @clean_bullet_text ascii_ucd (@clean_bullet_text ascii_ucd (py "- 1. item one"))
  = @clean_bullet_text ascii_ucd (py "- 1. item one") /\
  @clean_bullet_text_advanced ascii_ucd
    (@clean_bullet_text_advanced ascii_ucd (py "- 1. item one"))
  = @clean_bullet_text_advanced ascii_ucd (py "- 1. item one").
Proof.
  split.
  - apply (proj1 (@C6_stripper_idempotent_without_second_marker ascii_ucd
                    (py "- 1. item one"))).
    reflexivity.
  - apply (proj2 (@C6_stripper_idempotent_without_second_marker ascii_ucd
                    (py "- 1. item one"))).
    reflexivity.
Defined.

(** C6 as stated fails on "1. 2. x": one pass leaves "2. x", a second pass
    leaves "x", in both variants. *)
Lemma C6_counterexample :
  @clean_bullet_text ascii_ucd (py "1. 2. x") = py "2. x" /\
  @clean_bullet_text ascii_ucd (py "2. x") = py "x" /\
  @clean_bullet_text ascii_ucd (@clean_bullet_text ascii_ucd (py "1. 2. x"))
  <> @clean_bullet_text ascii_ucd (py "1. 2. x") /\
  @clean_bullet_text_advanced ascii_ucd
    (@clean_bullet_text_advanced ascii_ucd (py "1. 2. x"))
  <> @clean_bullet_text_advanced ascii_ucd (py "1. 2. x").
Proof.
  split; [reflexivity|]. split; [reflexivity|]. split; by vm_compute.
Qed.

(** ** The table emitter *)

Lemma reached_before {A} j k (l : list A) : k < j -> reached j k l = None.
Proof. intros H. unfold reached. by destruct (Nat.leb_spec j k); [lia|]. Qed.

Lemma reached_cons_here {A} j (v : A) rest : reached j j (v :: rest) = Some v.
Proof. unfold reached. rewrite Nat.leb_refl, Nat.sub_diag. done. Qed.

Lemma reached_cons_after {A} j k (v : A) rest :
  j < k -> reached j k (v :: rest) = reached (S j) k rest.
Proof.
  intros H. unfold reached.
  destruct (Nat.leb_spec j k); [|lia]. destruct (Nat.leb_spec (S j) k); [|lia].
  replace (k - j) with (S (k - S j)) by lia. done.
Qed.

Lemma set_cell_last pre st rows i j c row :
  rows !! i = Some row ->
  set_cell (pre ++ [Tbl st rows]) (length pre) i j c
  = if j <? length row
    then Ok (pre ++ [Tbl st (<[i := <[j := c]> row]> rows)])
    else Raise IndexError.
Proof.
  intros Hrow. unfold set_cell. rewrite list_lookup_middle by done. rewrite Hrow.
  destruct (j <? length row); [|done].
  replace (length pre) with (length pre + 0) at 1 by lia.
  by rewrite insert_app_r.
Qed.

(** The inner loop, started at column [j] on a table whose row [i] is [row]. *)
Lemma fill_cells_spec size pre st i cells : forall j rows row,
  rows !! i = Some row ->
  match for_enumerate (fill_cell size (length pre) i) j cells (pre ++ [Tbl st rows]) with
  | Ok doc' =>
      exists row',
        doc' = pre ++ [Tbl st (<[i := row']> rows)] /\
        length row' = length row /\
        (forall k, row' !! k = written size (reached j k cells) (row !! k)) /\
        (forall k c s, cells !! k = Some (Some (c :: s)) -> j + k < length row)
  | Raise e =>
      e = IndexError /\
      exists k c s, cells !! k = Some (Some (c :: s)) /\ length row <= j + k
  end.
Proof.
  induction cells as [|v rest IH]; intros j rows row Hrow.
  - simpl. exists row. rewrite list_insert_id by done. repeat split; try done.
    intros k. unfold reached. destruct (j <=? k); by rewrite ?lookup_nil.
  - assert (Hkeep :
      match for_enumerate (fill_cell size (length pre) i) (S j) rest (pre ++ [Tbl st rows]) with
      | Ok doc' =>
          exists row',
            doc' = pre ++ [Tbl st (<[i := row']> rows)] /\
            length row' = length row /\
            (forall k, row' !! k = written size (reached (S j) k rest) (row !! k)) /\
            (forall k c s, rest !! k = Some (Some (c :: s)) -> S j + k < length row)
      | Raise e =>
          e = IndexError /\
          exists k c s, rest !! k = Some (Some (c :: s)) /\ length row <= S j + k
      end) by (by apply IH).
    assert (Hskip : (forall c s, v <> Some (c :: s)) ->
      match for_enumerate (fill_cell size (length pre) i) (S j) rest (pre ++ [Tbl st rows]) with
      | Ok doc' =>
          exists row',
            doc' = pre ++ [Tbl st (<[i := row']> rows)] /\
            length row' = length row /\
            (forall k, row' !! k = written size (reached j k (v :: rest)) (row !! k)) /\
            (forall k c s, (v :: rest) !! k = Some (Some (c :: s)) -> j + k < length row)
      | Raise e =>
          e = IndexError /\
          exists k c s, (v :: rest) !! k = Some (Some (c :: s)) /\ length row <= j + k
      end).
    { intros Hv.
      destruct (for_enumerate _ (S j) rest _) as [doc'|e].
      - destruct Hkeep as (row' & -> & Hlen & Hlook & Hin).
        exists row'. repeat split; try done.
        + intros k. rewrite Hlook.
          destruct (Nat.lt_trichotomy k j) as [Hk|[->|Hk]].
          * by rewrite !reached_before by lia.
          * rewrite reached_cons_here, reached_before by lia.
            simpl. destruct v as [[|c s]|]; try done. by destruct (Hv c s).
          * by rewrite reached_cons_after.
        + intros [|k] c s Hk; simpl in Hk.
          * injection Hk as ->. by destruct (Hv c s).
          * apply Hin in Hk. lia.
      - destruct Hkeep as (-> & k & c & s & Hk & Hle).
        split; [done|]. exists (S k), c, s. split; [done|lia]. }
    destruct v as [[|c s]|]; try (apply Hskip; congruence).
    clear Hskip Hkeep. cbn [for_enumerate fill_cell].
    rewrite (set_cell_last pre st rows i j _ row Hrow).
    destruct (Nat.ltb_spec j (length row)) as [Hj|Hj]; cbn [rbind].
    + set (cl := {| cell_text := strip (c :: s); cell_size := size |}).
      assert (Hi : i < length rows) by (by eapply lookup_lt_Some).
      specialize (IH (S j) (<[i := <[j := cl]> row]> rows) (<[j := cl]> row)).
      rewrite list_lookup_insert_eq in IH by done. specialize (IH eq_refl).
      destruct (for_enumerate _ (S j) rest _) as [doc'|e].
      * destruct IH as (row' & -> & Hlen & Hlook & Hin).
        rewrite length_insert in Hlen. rewrite list_insert_insert_eq.
        exists row'. repeat split; try done.
        -- intros k. rewrite Hlook.
           destruct (Nat.lt_trichotomy k j) as [Hk|[->|Hk]].
           ++ rewrite !reached_before by lia.
              simpl. apply list_lookup_insert_ne. lia.
           ++ rewrite reached_cons_here, reached_before by lia.
              simpl. by rewrite list_lookup_insert_eq.
           ++ rewrite reached_cons_after by done.
              rewrite list_lookup_insert_ne by lia. done.
        -- intros [|k] c' s' Hk; simpl in Hk; [lia|].
           apply Hin in Hk. rewrite length_insert in Hk. lia.
      * destruct IH as (-> & k & c' & s' & Hk & Hle).
        rewrite length_insert in Hle.
        split; [done|]. exists (S k), c', s'. split; [done|lia].
    + split; [done|]. exists 0, c, s. split; [done|lia].
Qed.

Lemma lookup2_insert_eq {A} (ll : list (list A)) i l k :
  i < length ll -> lookup2 (<[i := l]> ll) i k = l !! k.
Proof. intros H. unfold lookup2. by rewrite list_lookup_insert_eq. Qed.

Lemma lookup2_insert_ne {A} (ll : list (list A)) i r l k :
  i <> r -> lookup2 (<[i := l]> ll) r k = lookup2 ll r k.
Proof. intros H. unfold lookup2. by rewrite list_lookup_insert_ne. Qed.

(** The outer loop, started at row [i] on a table of rows of [C] cells. *)
Lemma fill_rows_spec size pre st C data : forall i rows,
  i + length data <= length rows ->
  Forall (fun row => length row = C) rows ->
  match for_enumerate (fill_row size (length pre)) i data (pre ++ [Tbl st rows]) with
  | Ok doc' =>
      exists rows',
        doc' = pre ++ [Tbl st rows'] /\
        length rows' = length rows /\
        Forall (fun row => length row = C) rows' /\
        (forall r k, lookup2 rows' r k
                     = written size (reached2 i r k data) (lookup2 rows r k)) /\
        (forall r k c s, lookup2 data r k = Some (Some (c :: s)) -> k < C)
  | Raise e =>
      e = IndexError /\
      exists r k c s, lookup2 data r k = Some (Some (c :: s)) /\ C <= k
  end.
Proof.
  induction data as [|rd rest IH]; intros i rows Hlen Hall.
  - simpl. exists rows.
    split; [done|]. split; [done|]. split; [done|]. split.
    + intros r k. unfold reached2, reached.
      destruct (i <=? r); by rewrite ?lookup_nil.
    + intros r k c s. unfold lookup2. by rewrite lookup_nil.
  - simpl in Hlen.
    destruct (lookup_lt_is_Some_2 rows i) as [row Hrow]; [lia|].
    assert (Hi : i < length rows) by lia.
    assert (HC : length row = C).
    { by apply (proj1 (Forall_lookup _ _) Hall i row). }
    cbn [for_enumerate]. unfold fill_row at 1.
    pose proof (fill_cells_spec size pre st i rd 0 rows row Hrow) as Hin.
    destruct (for_enumerate (fill_cell _ _ _) 0 rd _) as [doc1|e]; cbn [rbind].
    + destruct Hin as (row' & -> & Hlen' & Hlook & Hfit).
      specialize (IH (S i) (<[i := row']> rows)).
      rewrite length_insert in IH.
      assert (Hall' : Forall (fun row => length row = C) (<[i := row']> rows)).
      { apply Forall_insert; [done|lia]. }
      specialize (IH ltac:(lia) Hall').
      destruct (for_enumerate _ (S i) rest _) as [doc'|e].
      * destruct IH as (rows' & -> & Hl & Hf & Hlk & Hb).
        exists rows'. repeat split; try done.
        -- intros r k. rewrite Hlk. unfold reached2.
           destruct (Nat.lt_trichotomy r i) as [Hr|[->|Hr]].
           ++ rewrite !reached_before by lia. simpl.
              apply lookup2_insert_ne. lia.
           ++ rewrite reached_cons_here, reached_before by lia. simpl.
              rewrite lookup2_insert_eq by done. rewrite Hlook.
              unfold reached at 1. simpl. rewrite Nat.sub_0_r.
              unfold lookup2. by rewrite Hrow.
           ++ rewrite reached_cons_after by done.
              rewrite lookup2_insert_ne by lia. done.
        -- intros [|r] k c s Hk; unfold lookup2 in Hk; simpl in Hk.
           ++ apply Hfit in Hk. lia.
           ++ by apply (Hb r k c s).
      * destruct IH as (-> & r & k & c & s & Hk & Hle).
        split; [done|]. by exists (S r), k, c, s.
    + destruct Hin as (-> & k & c & s & Hk & Hle).
      split; [done|]. exists 0, k, c, s. split; [done|lia].
Qed.

Lemma set_table_style_last doc st0 rows st :
  set_table_style (doc ++ [Tbl st0 rows]) (length doc) st = doc ++ [Tbl st rows].
Proof.
  unfold set_table_style. rewrite list_lookup_middle by done.
  replace (length doc) with (length doc + 0) at 1 by lia.
  by rewrite insert_app_r.
Qed.

Lemma lookup2_replicate {A} R C (x : A) r k :
  r < R -> k < C -> lookup2 (replicate R (replicate C x)) r k = Some x.
Proof.
  intros Hr Hk. unfold lookup2.
  rewrite lookup_replicate_2 by done. by apply lookup_replicate_2.
Qed.

Lemma reached2_0 {A} (ll : list (list A)) r k : reached2 0 r k ll = lookup2 ll r k.
Proof. unfold reached2, reached, lookup2. simpl. by rewrite Nat.sub_0_r. Qed.

(** What the table emitter does with a grid that has a first row: either it
    appends the table and its spacer paragraph, every cell being what the
    source value at its place makes it, and then no non-empty value lies
    beyond the width of the first row; or it raises [IndexError], and then
    some non-empty value does. *)
Lemma emit_table_spec st size doc first rest :
  match emit_table st size doc (first :: rest) with
  | Ok doc' =>
      exists rows,
        doc' = doc ++ [Tbl st rows; Para (new_para [] Normal)] /\
        length rows = length (first :: rest) /\
        Forall (fun row => length row = length first) rows /\
        (forall r k, r < length (first :: rest) -> k < length first ->
           lookup2 rows r k
           = Some (cell_of size (source_value (first :: rest) r k))) /\
        (forall r k c s, lookup2 (first :: rest) r k = Some (Some (c :: s)) ->
           k < length first)
  | Raise e =>
      e = IndexError /\
      exists r k c s,
        lookup2 (first :: rest) r k = Some (Some (c :: s)) /\ length first <= k
  end.
Proof.
  unfold emit_table, add_table. rewrite set_table_style_last.
  set (data := first :: rest). set (C := length first).
  set (rows0 := replicate (length data) (replicate C blank_cell)).
  pose proof (fill_rows_spec size doc st C data 0 rows0) as H.
  assert (Hlen0 : length rows0 = length data) by apply length_replicate.
  assert (Hall0 : Forall (fun row => length row = C) rows0).
  { apply Forall_replicate, length_replicate. }
  specialize (H ltac:(lia) Hall0).
  destruct (for_enumerate _ 0 data _) as [doc'|e]; cbn [rbind]; [|done].
  destruct H as (rows & -> & Hlen & Hall & Hlook & Hfit).
  exists rows. split.
  { unfold add_paragraph. by rewrite <- app_assoc. }
  split; [lia|]. split; [done|]. split; [|done].
  intros r k Hr Hk. rewrite Hlook, reached2_0.
  unfold rows0. rewrite lookup2_replicate by done.
  unfold source_value.
  by destruct (lookup2 data r k) as [[[|c s]|]|].
Qed.

(** In a grid whose rows are no longer than the first, every entry lies
    inside the table. *)
Lemma wf_grid_in_bounds (first : list (option str)) (rest : table_data) r k v :
  Forall (fun row => length row <= length first) (first :: rest) ->
  lookup2 (first :: rest) r k = Some v ->
  r < length (first :: rest) /\ k < length first.
Proof.
  intros Hwf Hv. unfold lookup2 in Hv.
  destruct ((first :: rest) !! r) as [row|] eqn:Hrow; [|done].
  split; [by eapply lookup_lt_Some|].
  apply lookup_lt_Some in Hv.
  pose proof (proj1 (Forall_lookup _ _) Hwf r row Hrow) as Hle. simpl in Hle. lia.
Qed.

Lemma emit_table_wf st size doc first rest :
  Forall (fun row => length row <= length first) (first :: rest) ->
  exists doc', emit_table st size doc (first :: rest) = Ok doc'.
Proof.
  intros Hwf. pose proof (emit_table_spec st size doc first rest) as H.
  destruct (emit_table st size doc (first :: rest)) as [doc'|e]; [by exists doc'|].
  destruct H as (_ & r & k & c & s & Hl & Hk).
  apply (wf_grid_in_bounds _ _ _ _ _ Hwf) in Hl. lia.
Qed.

(** C4. For a grid of R rows whose first row has C cells and no row more,
    the table emitter appends one table of R rows of C cells each, followed
    by its spacer paragraph. A cell whose source value is a non-empty string
    holds that string stripped of surrounding whitespace; every other cell,
    the cells past the end of a shorter row among them, is blank. *)
Theorem C4_table_round_trip (st : tstyle) (size : option Z) (doc : list node)
  (first : list (option str)) (rest : table_data) :
  Forall (fun row => length row <= length first) (first :: rest) ->
  exists rows,
    emit_table st size doc (first :: rest)
    = Ok (doc ++ [Tbl st rows; Para (new_para [] Normal)]) /\
    length rows = length (first :: rest) /\
    Forall (fun row => length row = length first) rows /\
    (forall r k, r < length (first :: rest) -> k < length first ->
       lookup2 rows r k = Some (cell_of size (source_value (first :: rest) r k))) /\
    (forall r k c s, source_value (first :: rest) r k = Some (c :: s) ->
       lookup2 rows r k
       = Some {| cell_text := strip (c :: s); cell_size := size |}) /\
    (forall r k row, (first :: rest) !! r = Some row ->
       length row <= k < length first -> lookup2 rows r k = Some blank_cell).
Proof.
  intros Hwf. pose proof (emit_table_spec st size doc first rest) as H.
  assert (Hin : forall r k v, lookup2 (first :: rest) r k = Some v ->
                  r < length (first :: rest) /\ k < length first).
  { intros r k v. by apply wf_grid_in_bounds. }
  destruct (emit_table st size doc (first :: rest)) as [doc'|e].
  - destruct H as (rows & -> & Hlen & Hall & Hlook & _).
    exists rows. repeat (split; [done|]). split.
    + intros r k c s Hv. unfold source_value in Hv.
      destruct (lookup2 (first :: rest) r k) as [v|] eqn:Hl; [|done]. subst v.
      destruct (Hin _ _ _ Hl) as [Hr Hk].
      rewrite Hlook by done. unfold source_value. by rewrite Hl.
    + intros r k row Hrow [Hk1 Hk2].
      rewrite Hlook; [|by eapply lookup_lt_Some|done].
      unfold source_value, lookup2. rewrite Hrow.
      by rewrite (lookup_ge_None_2 row k Hk1).
  - destruct H as (_ & r & k & c & s & Hl & Hk).
    apply Hin in Hl. lia.
Qed.

Lemma C4_table_round_trip_witness :
  exists rows,
    emit_table LightGridAccent1 (Some 11%Z) []
      ([Some (py "Name"); Some (py " Age ")] :: [[Some (py "Alice")]; [None; Some (py "25")]])
    = Ok ([] ++ [Tbl LightGridAccent1 rows; Para (new_para [] Normal)]) /\
    length rows = 3 /\
    lookup2 rows 0 1 = Some {| cell_text := py "Age"; cell_size := Some 11%Z |} /\
    lookup2 rows 1 1 = Some blank_cell.
Proof.
  destruct (C4_table_round_trip LightGridAccent1 (Some 11%Z) []
              [Some (py "Name"); Some (py " Age ")]
              [[Some (py "Alice")]; [None; Some (py "25")]])
    as (rows & Hok & Hlen & _ & _ & Hval & Hblank).
  - repeat constructor; simpl; lia.
  - exists rows. split; [exact Hok|]. split; [exact Hlen|]. split.
    + apply (Hval 0 1 32%N (py "Age ")). reflexivity.
    + apply (Hblank 1 1 [Some (py "Alice")]); [reflexivity|simpl; lia].
Defined.

(** C10. The table emitter writes a cell for each non-empty source value,
    at the value's own row and column, into a table of as many rows as the
    grid and as many columns as its first row, with no check of the column.
    When no row is longer than the first, every such write lies inside the
    table and the emitter returns. Without that, the guarantee is lost: a
    grid with a non-empty value beyond the width of its first row makes the
    emitter raise [IndexError]. *)
Theorem C10_table_writes_in_bounds (st : tstyle) (size : option Z)
  (doc : list node) (first : list (option str)) (rest : table_data) :
  (Forall (fun row => length row <= length first) (first :: rest) ->
   (forall r k c s, lookup2 (first :: rest) r k = Some (Some (c :: s)) ->
      r < length (first :: rest) /\ k < length first) /\
   exists doc', emit_table st size doc (first :: rest) = Ok doc') /\
  ((exists r k c s, lookup2 (first :: rest) r k = Some (Some (c :: s)) /\
                    length first <= k) ->
   emit_table st size doc (first :: rest) = Raise IndexError).
Proof.
  pose proof (emit_table_spec st size doc first rest) as H. split.
  - intros Hwf.
    split; [|by apply emit_table_wf].
    intros r k c s. by apply wf_grid_in_bounds.
  - intros (r & k & c & s & Hl & Hk).
    destruct (emit_table st size doc (first :: rest)) as [doc'|e].
    + destruct H as (rows & _ & _ & _ & _ & Hfit). apply Hfit in Hl. lia.
    + by destruct H as [-> _].
Qed.

Lemma C10_table_writes_in_bounds_witness :
  (exists doc',
     emit_table TableGrid None [] ([Some (py "a"); Some (py "b")] :: [[Some (py "c")]])
     = Ok doc') /\
  emit_table TableGrid None [] ([Some (py "a")] :: [[Some (py "b"); Some (py "c")]])
  = Raise IndexError.
Proof.
  split.
  - apply (proj1 (C10_table_writes_in_bounds TableGrid None []
                    [Some (py "a"); Some (py "b")] [[Some (py "c")]])).
    repeat constructor; simpl; lia.
  - apply (proj2 (C10_table_writes_in_bounds TableGrid None []
                    [Some (py "a")] [[Some (py "b"); Some (py "c")]])).
    exists 1, 1, 99%N, []. split; [reflexivity|simpl; lia].
Defined.

(** ** Rounding *)

(** The integer [round_half_even] gives is within a half of the number, and
    even when the number lies half way between two integers. *)
Lemma round_half_even_spec q :
  let k := round_half_even q in
  ((2 * k - 1) * Zpos (Qden q) <= 2 * Qnum q <= (2 * k + 1) * Zpos (Qden q))%Z /\
  ((2 * Qnum q = (2 * k + 1) * Zpos (Qden q))%Z -> Z.even k = true) /\
  ((2 * Qnum q = (2 * k - 1) * Zpos (Qden q))%Z -> Z.even k = true).
Proof.
  unfold round_half_even. destruct q as [n d]. cbn [Qnum Qden].
  pose proof (Z.div_mod n (Zpos d) ltac:(lia)) as Hdm.
  pose proof (Z.mod_pos_bound n (Zpos d) ltac:(lia)) as Hb.
  set (f := (n / Zpos d)%Z) in *. set (r := (n mod Zpos d)%Z) in *.
  destruct (Z.ltb_spec (2 * r) (Zpos d)); [repeat split; nia|].
  destruct (Z.ltb_spec (Zpos d) (2 * r)); [repeat split; nia|].
  destruct (Z.even f) eqn:E.
  - repeat split; try nia. intros _. done.
  - repeat split; try nia. intros _.
    rewrite Z.add_1_r, Z.even_succ, <- Z.negb_even, E. done.
Qed.

(** Rounding keeps the order of the numbers. *)
Lemma round_half_even_mono q q' :
  (q <= q')%Q -> (round_half_even q <= round_half_even q')%Z.
Proof.
  intros Hle. unfold Qle in Hle.
  destruct (round_half_even_spec q) as ([Hl Hu] & Heu & Hel).
  destruct (round_half_even_spec q') as ([Hl' Hu'] & Heu' & Hel').
  set (k := round_half_even q) in *. set (k' := round_half_even q') in *.
  destruct (Z.le_gt_cases k k') as [|Hgt]; [done|exfalso].
  set (n := Qnum q) in *. set (d := Zpos (Qden q)) in *.
  set (n' := Qnum q') in *. set (d' := Zpos (Qden q')) in *.
  assert (Hd : (0 < d)%Z) by (unfold d; lia).
  assert (Hd' : (0 < d')%Z) by (unfold d'; lia).
  assert (Hdd : (0 < d * d')%Z) by nia.
  assert (Ha : ((2 * k - 1) * (d * d') <= 2 * n * d')%Z) by nia.
  assert (Hb : (2 * n' * d <= (2 * k' + 1) * (d * d'))%Z) by nia.
  assert (Hc : ((2 * k' + 1) * (d * d') <= (2 * k - 1) * (d * d'))%Z) by nia.
  assert (H3 : (k = k' + 1)%Z) by nia.
  assert (H1 : (2 * n = (2 * k - 1) * d)%Z) by nia.
  assert (H2 : (2 * n' = (2 * k' + 1) * d')%Z) by nia.
  specialize (Hel H1). specialize (Heu' H2).
  rewrite H3, Z.add_1_r, Z.even_succ, <- Z.negb_even, Heu' in Hel. done.
Qed.

Lemma py_round_quantizes ndigits y : quantizes ndigits y (py_round y ndigits).
Proof.
  unfold quantizes, py_round.
  set (q := (y * inject_Z (10 ^ Z.of_nat ndigits))%Q).
  destruct (round_half_even_spec q) as ([Hl Hu] & _).
  set (k := round_half_even q) in *.
  unfold Qle, Qminus, Qplus, Qopp, inject_Z. cbn [Qnum Qden].
  split; lia.
Qed.

Lemma py_round_mono ndigits y y' :
  (y <= y')%Q -> (py_round y ndigits <= py_round y' ndigits)%Z.
Proof.
  intros H. unfold py_round. apply round_half_even_mono.
  apply Qmult_le_compat_r; [done|].
  unfold Qle, inject_Z. cbn [Qnum Qden]. lia.
Qed.

(** Of two positions with different keys, the one with the larger key is
    the larger. *)
Lemma py_round_above ndigits a b :
  (py_round b ndigits < py_round a ndigits)%Z -> (b < a)%Q.
Proof.
  intros H. destruct (Qlt_le_dec b a) as [|Hle]; [done|].
  apply (py_round_mono ndigits) in Hle. lia.
Qed.

(** ** Sorting *)

Section SortedFacts.
Context {A : Type} (le : A -> A -> bool).

Lemma insert_sorted_perm x l : insert_sorted le x l ≡ₚ x :: l.
Proof.
  induction l as [|y l IH]; simpl; [done|].
  destruct (le x y); [done|]. rewrite IH. apply perm_swap.
Qed.

Lemma sorted_perm l : sorted le l ≡ₚ l.
Proof.
  induction l as [|x l IH]; simpl; [done|].
  rewrite insert_sorted_perm. by rewrite IH.
Qed.

Hypothesis le_total : forall a b, le a b = true \/ le b a = true.
Hypothesis le_trans : forall a b c, le a b = true -> le b c = true -> le a c = true.

Lemma insert_sorted_sorted x l :
  StronglySorted (fun a b => le a b = true) l ->
  StronglySorted (fun a b => le a b = true) (insert_sorted le x l).
Proof.
  induction l as [|y l IH]; simpl; intros Hs.
  - repeat constructor.
  - apply StronglySorted_cons in Hs as [Hy Hs].
    destruct (le x y) eqn:E.
    + apply StronglySorted_cons. split; [|by apply StronglySorted_cons].
      constructor; [done|].
      eapply Forall_impl; [exact Hy|]. intros b Hb. by eapply le_trans.
    + apply StronglySorted_cons. split; [|by apply IH].
      rewrite (insert_sorted_perm x l). constructor; [|done].
      destruct (le_total x y) as [H|H]; [congruence|done].
Qed.

Lemma sorted_sorted l : StronglySorted (fun a b => le a b = true) (sorted le l).
Proof.
  induction l as [|x l IH]; simpl; [constructor|]. by apply insert_sorted_sorted.
Qed.

End SortedFacts.

Lemma StronglySorted_weaken {A} (R R' : A -> A -> Prop) l :
  (forall a b, R a b -> R' a b) -> StronglySorted R l -> StronglySorted R' l.
Proof.
  intros HR. induction 1 as [|x l Hs IH Hx]; constructor; [done|].
  eapply Forall_impl; [exact Hx|]. intros b. apply HR.
Qed.

Lemma StronglySorted_weaken_in {A} (R R' : A -> A -> Prop) l :
  (forall a b, a ∈ l -> b ∈ l -> R a b -> R' a b) ->
  StronglySorted R l -> StronglySorted R' l.
Proof.
  intros HR Hs. induction Hs as [|x l Hs IH Hx]; constructor.
  - apply IH. intros a b Ha Hb. apply HR; by apply elem_of_cons; right.
  - apply Forall_forall. intros b Hb. apply HR.
    + apply elem_of_cons. by left.
    + apply elem_of_cons. by right.
    + by apply (proj1 (Forall_forall _ _) Hx).
Qed.

Lemma sorted_lines_perm {V} (d : dict V) : sorted_lines d ≡ₚ d.
Proof. apply sorted_perm. Qed.

Lemma sorted_lines_sorted {V} (d : dict V) :
  StronglySorted (fun a b => (fst b <= fst a)%Z) (sorted_lines d).
Proof.
  eapply StronglySorted_weaken;
    [|apply (sorted_sorted (fun a b : Z * V => (fst b <=? fst a)%Z))].
  - intros a b H. by apply Z.leb_le.
  - intros a b. rewrite !Z.leb_le. lia.
  - intros a b c. rewrite !Z.leb_le. lia.
Qed.

Lemma sorted_chars_perm cs : sorted_chars cs ≡ₚ cs.
Proof. apply sorted_perm. Qed.

Lemma sorted_chars_sorted cs :
  StronglySorted (fun a b => (x0 a <= x0 b)%Q) (sorted_chars cs).
Proof.
  eapply StronglySorted_weaken;
    [|apply (sorted_sorted (fun a b => Qle_bool (x0 a) (x0 b)))].
  - intros a b H. by apply Qle_bool_iff.
  - intros a b. rewrite !Qle_bool_iff.
    destruct (Qlt_le_dec (x0 b) (x0 a)) as [H|H]; [right; by apply Qlt_le_weak|by left].
  - intros a b c. rewrite !Qle_bool_iff. apply Qle_trans.
Qed.

(** ** The line grouper *)

Lemma dict_mem_true {V} k (d : dict V) : dict_mem k d = true <-> k ∈ map fst d.
Proof.
  unfold dict_mem. induction d as [|[k' v] d IH]; simpl.
  - split; [done|]. by intros ?%elem_of_nil.
  - rewrite orb_true_iff, IH, Z.eqb_eq, elem_of_cons.
    split; (intros [H|H]; [left; congruence|by right]).
Qed.

Lemma dict_mem_false {V} k (d : dict V) : dict_mem k d = false <-> k ∉ map fst d.
Proof. rewrite <- dict_mem_true. by destruct (dict_mem k d). Qed.

Lemma dict_alter_keys {V} (f : V -> V) k d :
  map fst (dict_alter f k d) = map fst d.
Proof.
  induction d as [|[k' v] d IH]; simpl; [done|].
  destruct (k' =? k)%Z; simpl; by rewrite ?IH.
Qed.

Lemma dict_alter_snoc {V} (f : V -> V) k v d :
  dict_mem k d = false -> dict_alter f k (d ++ [(k, v)]) = d ++ [(k, f v)].
Proof.
  unfold dict_mem. induction d as [|[k' v'] d IH]; simpl.
  - by rewrite Z.eqb_refl.
  - intros [H1 H2]%orb_false_iff. rewrite H1. by rewrite IH.
Qed.

Lemma dict_alter_Forall {V} (Q : Z -> V -> Prop) (f : V -> V) k d :
  (forall v, Q k v -> Q k (f v)) ->
  Forall (fun kv => Q (fst kv) (snd kv)) d ->
  Forall (fun kv => Q (fst kv) (snd kv)) (dict_alter f k d).
Proof.
  intros Hf. induction 1 as [|[k' v] d Hkv Hd IH]; simpl; [constructor|].
  destruct (Z.eqb_spec k' k) as [->|Hne].
  - constructor; [by apply Hf|done].
  - by constructor.
Qed.

Section Grouping.
Context {V : Type} (fresh : V) (add : char -> V -> V) (ndigits : nat).
Context (proj : V -> list char).
Hypothesis proj_fresh : proj fresh = [].
Hypothesis proj_add : forall c v, proj (add c v) = proj v ++ [c].

(** A property of the lines that adding a character of the line's key
    establishes and keeps. *)
Context (Q : Z -> V -> Prop).
Hypothesis Q_first : forall c, Q (py_round (y0 c) ndigits) (add c fresh).
Hypothesis Q_next : forall c v,
  Q (py_round (y0 c) ndigits) v -> Q (py_round (y0 c) ndigits) (add c v).

Lemma dict_alter_chars c k d :
  dict_mem k d = true ->
  dict_chars proj (dict_alter (add c) k d) ≡ₚ c :: dict_chars proj d.
Proof.
  unfold dict_chars, dict_mem. induction d as [|[k' v] d IH]; simpl; [done|].
  destruct (k' =? k)%Z; simpl.
  - intros _. rewrite proj_add. rewrite <- app_assoc. simpl.
    by rewrite <- Permutation_middle.
  - intros H. rewrite (IH H). by rewrite <- Permutation_middle.
Qed.

Lemma group_step_grouped d seen c :
  grouped proj Q d seen ->
  grouped proj Q (group_step fresh add ndigits d c) (seen ++ [c]).
Proof.
  intros [Hn Hp Hq]. unfold group_step, dict_setdefault.
  set (y := py_round (y0 c) ndigits).
  destruct (dict_mem y d) eqn:Hmem.
  - split.
    + by rewrite dict_alter_keys.
    + rewrite dict_alter_chars by done. rewrite Hp.
      by rewrite <- Permutation_cons_append.
    + apply dict_alter_Forall; [apply Q_next|done].
  - rewrite dict_alter_snoc by done. split.
    + rewrite map_app. simpl. apply NoDup_app. split; [done|]. split.
      * intros k Hk ->%list_elem_of_singleton. by apply dict_mem_false in Hmem.
      * apply NoDup_singleton.
    + unfold dict_chars in *. rewrite map_app, concat_app. simpl.
      rewrite proj_add, proj_fresh, app_nil_r. simpl. by rewrite Hp.
    + apply Forall_app. split; [done|]. constructor; [apply Q_first|constructor].
Qed.

Lemma fold_group_grouped cs : forall d seen,
  grouped proj Q d seen ->
  grouped proj Q (fold_left (group_step fresh add ndigits) cs d) (seen ++ cs).
Proof.
  induction cs as [|c cs IH]; intros d seen H; simpl.
  - by rewrite app_nil_r.
  - replace (seen ++ c :: cs) with ((seen ++ [c]) ++ cs) by (by rewrite <- app_assoc).
    apply IH. by apply group_step_grouped.
Qed.

Lemma group_lines_grouped cs :
  grouped proj Q (group_lines fresh add ndigits cs) cs.
Proof.
  apply (fold_group_grouped cs [] []). split; [constructor|done|constructor].
Qed.

End Grouping.

Lemma concat_map_perm_pointwise {A B} (f g : A -> list B) l :
  (forall x, f x ≡ₚ g x) -> concat (map f l) ≡ₚ concat (map g l).
Proof.
  intros H. induction l as [|x l IH]; simpl; [done|]. by rewrite (H x), IH.
Qed.

Lemma concat_map_perm {A B} (f : A -> list B) l l' :
  l ≡ₚ l' -> concat (map f l) ≡ₚ concat (map f l').
Proof.
  induction 1 as [|x l l' _ IH|x y l|l l' l'' _ IH1 _ IH2]; simpl.
  - done.
  - by rewrite IH.
  - rewrite !app_assoc. f_equiv. apply Permutation_app_comm.
  - by rewrite IH1.
Qed.

Lemma strictly_descending {V} (l : dict V) :
  StronglySorted (fun a b => (fst b <= fst a)%Z) l ->
  NoDup (map fst l) ->
  StronglySorted (fun a b => (fst b < fst a)%Z) l.
Proof.
  induction 1 as [|a l Hs IH Ha]; intros Hn; [constructor|].
  simpl in Hn. apply NoDup_cons in Hn as [Hnot Hn].
  constructor; [by apply IH|].
  apply Forall_forall. intros b Hb.
  pose proof (proj1 (Forall_forall _ _) Ha b Hb) as Hle. simpl in Hle.
  assert (fst a <> fst b).
  { intros Heq. apply Hnot. rewrite Heq. by apply list_elem_of_fmap_2. }
  lia.
Qed.

Section Reading.
Context {V : Type} (proj : V -> list char) (ndigits : nat).
Context (d : dict V) (cs : list char).
Hypothesis d_nodup : NoDup (map fst d).
Hypothesis d_chars : dict_chars proj d ≡ₚ cs.
Hypothesis d_lines :
  Forall (fun kv => line_of_key ndigits (fst kv) (proj (snd kv))) d.

Lemma lines_of_descending :
  StronglySorted (fun a b => (fst b < fst a)%Z) (lines_of proj d).
Proof.
  assert (H : StronglySorted (fun a b => (fst b < fst a)%Z) (sorted_lines d)).
  { apply strictly_descending; [apply sorted_lines_sorted|].
    by rewrite (sorted_lines_perm d). }
  unfold lines_of. induction H as [|a l Hs IH Ha]; simpl; constructor; [done|].
  apply Forall_map. eapply Forall_impl; [exact Ha|]. done.
Qed.

Lemma lines_of_lines :
  Forall (fun l => line_of_key ndigits (fst l) (snd l) /\
                   StronglySorted (fun a b => (x0 a <= x0 b)%Q) (snd l))
         (lines_of proj d).
Proof.
  unfold lines_of. apply Forall_map.
  rewrite (sorted_lines_perm d).
  eapply Forall_impl; [exact d_lines|].
  intros [k v] [Hne Hk]. simpl in *. split; [split|].
  - intros Heq. apply Hne. apply Permutation_nil_r.
    by rewrite <- (sorted_chars_perm (proj v)), Heq.
  - by rewrite (sorted_chars_perm (proj v)).
  - apply sorted_chars_sorted.
Qed.

Lemma lines_of_chars : concat (map snd (lines_of proj d)) ≡ₚ cs.
Proof.
  unfold lines_of. rewrite map_map. simpl.
  rewrite (concat_map_perm_pointwise _ (fun kv => proj (snd kv)))
    by (intros x; apply sorted_chars_perm).
  rewrite (concat_map_perm _ _ _ (sorted_lines_perm d)). exact d_chars.
Qed.

Lemma lines_of_nonempty : cs <> [] -> lines_of proj d <> [].
Proof.
  intros Hcs Hnil. apply Hcs. apply Permutation_nil_r.
  rewrite <- lines_of_chars. by rewrite Hnil.
Qed.

Lemma lines_of_quantized :
  Forall (fun l => snd l <> [] /\
                   Forall (fun c => quantizes ndigits (y0 c) (fst l)) (snd l) /\
                   StronglySorted (fun a b => (x0 a <= x0 b)%Q) (snd l))
         (lines_of proj d).
Proof.
  eapply Forall_impl; [exact lines_of_lines|].
  intros [k l] [[Hne Hk] Hx]. simpl in *. split; [done|]. split; [|done].
  eapply Forall_impl; [exact Hk|]. intros c <-. apply py_round_quantizes.
Qed.

Lemma lines_of_above :
  StronglySorted (fun l l' => (fst l' < fst l)%Z /\
                              forall a b, a ∈ snd l -> b ∈ snd l' ->
                                          (y0 b < y0 a)%Q)
                 (lines_of proj d).
Proof.
  pose proof lines_of_lines as Hl.
  eapply StronglySorted_weaken_in; [|exact lines_of_descending].
  intros l l' Hin Hin' Hlt. split; [done|]. intros a b Ha Hb.
  pose proof (proj1 (Forall_forall _ _) Hl l Hin) as [[_ Hk] _].
  pose proof (proj1 (Forall_forall _ _) Hl l' Hin') as [[_ Hk'] _].
  apply (py_round_above ndigits).
  rewrite (proj1 (Forall_forall _ _) Hk a Ha).
  by rewrite (proj1 (Forall_forall _ _) Hk' b Hb).
Qed.

End Reading.

Lemma group_chars_grouped cs :
  grouped chars ultra_line_ok (group_chars cs) cs.
Proof.
  apply group_lines_grouped.
  - done.
  - done.
  - intros c. repeat split; simpl; try done. by repeat constructor.
  - intros c ld [[Hne Hk] (Hs & Hf & Hx)]. repeat split; simpl.
    + by destruct (chars ld).
    + apply Forall_app. split; [done|]. by repeat constructor.
    + by rewrite Hs, map_app.
    + by rewrite Hf, map_app.
    + by rewrite Hx, map_app.
Qed.

Lemma group_chars_advanced_grouped cs :
  grouped id (line_of_key 1) (group_chars_advanced cs) cs.
Proof.
  apply group_lines_grouped.
  - done.
  - done.
  - intros c. split; simpl; [done|]. by repeat constructor.
  - intros c l [Hne Hk]. split.
    + by destruct l.
    + apply Forall_app. split; [done|]. by repeat constructor.
Qed.

Lemma average_nonempty l :
  l <> [] -> average l = Ok (Qsum l / inject_Z (Z.of_nat (length l)))%Q.
Proof. unfold average. by destruct l. Qed.

Lemma most_common_pick fonts rest : forall best,
  fold_left (fun best g =>
               if count_of best fonts <? count_of g fonts then g else best)
            rest best ∈ best :: rest.
Proof.
  induction rest as [|g rest IH]; intros best; simpl.
  - apply elem_of_cons. by left.
  - destruct (_ <? _).
    + apply elem_of_cons. right. apply IH.
    + specialize (IH best). apply elem_of_cons in IH as [->|IH].
      * apply elem_of_cons. by left.
      * apply elem_of_cons. right. apply elem_of_cons. by right.
Qed.

Lemma most_common_nonempty fonts :
  fonts <> [] -> exists f, most_common fonts = Ok f /\ f ∈ fonts.
Proof.
  intros Hne. unfold most_common.
  destruct (remove_dups fonts) as [|f rest] eqn:E.
  - destruct fonts as [|g fonts]; [done|].
    assert (g ∈ remove_dups (g :: fonts)) as H.
    { apply elem_of_remove_dups, elem_of_cons. by left. }
    rewrite E in H. by apply elem_of_nil in H.
  - eexists. split; [done|].
    apply elem_of_remove_dups. rewrite E. apply most_common_pick.
Qed.

Section AnalyzeFacts.
Context {u : Ucd}.

Lemma block_of_line_ok blocks k ld :
  ultra_line_ok k ld ->
  exists b, block_of_line blocks (k, ld) = Ok (blocks ++ [b]) /\ block_of ld b.
Proof.
  intros [[Hne _] (Hs & Hf & _)]. unfold block_of_line, block_of. simpl.
  destruct (line_text (sorted_chars (chars ld))) as [|c t] eqn:Ht.
  - exists empty_block. by rewrite <- Ht.
  - assert (Hs' : font_sizes ld <> []).
    { rewrite Hs. by destruct (chars ld). }
    assert (Hf' : fonts ld <> []).
    { rewrite Hf. by destruct (chars ld). }
    rewrite (average_nonempty _ Hs'). cbn [rbind].
    destruct (most_common_nonempty _ Hf') as (f & -> & Hin). cbn [rbind].
    eexists. split; [done|]. cbn [block_text type font_size font indent].
    by repeat split.
Qed.

Lemma for_each_block_of_line lines : forall blocks,
  Forall (fun kv => ultra_line_ok (fst kv) (snd kv)) lines ->
  exists bs,
    for_each block_of_line lines blocks = Ok (blocks ++ bs) /\
    Forall2 (fun kv b => block_of (snd kv) b) lines bs.
Proof.
  induction lines as [|[k ld] lines IH]; intros blocks Hall; simpl.
  - exists []. by rewrite app_nil_r.
  - apply Forall_cons in Hall as [Hl Hall].
    destruct (block_of_line_ok blocks k ld Hl) as (b & -> & Hb). cbn [rbind].
    destruct (IH (blocks ++ [b]) Hall) as (bs & -> & Hbs).
    exists (b :: bs). split; [by rewrite <- app_assoc|]. by constructor.
Qed.

(** The analysis of a page's characters never raises, and gives one block
    for each line, in the order of the lines. *)
Lemma analyze_text_blocks_ok cs :
  exists blocks,
    analyze_text_blocks cs = Ok blocks /\
    Forall2 (fun kv b => block_of (snd kv) b) (sorted_lines (group_chars cs)) blocks.
Proof.
  unfold analyze_text_blocks.
  destruct (for_each_block_of_line (sorted_lines (group_chars cs)) [])
    as (bs & Hok & Hbs).
  - rewrite (sorted_lines_perm (group_chars cs)).
    apply (g_lines _ _ _ _ (group_chars_grouped cs)).
  - exists bs. by split.
Qed.

End AnalyzeFacts.

(** C3. The classifier is a total function into the kinds: for every text,
    font size and indent it gives one of the seven kinds a non-empty line
    can have. The analysis that feeds it never raises either: every line
    holds at least one character, a character without a font size counts as
    size 12 in the average, and every line yields exactly one block, of kind
    [empty] when its text is empty and of the classifier's kind otherwise. *)
Theorem C3_classifier_total {u : Ucd} :
  (forall text fs ind,
     In (classify_text_type text fs ind)
        [heading1; heading2; section_header; bullet; contact; indented; paragraph]) /\
  (forall cs,
     Forall (fun kv =>
               font_sizes (snd kv)
               = map (fun c => default 12%Q (size c)) (chars (snd kv)) /\
               font_sizes (snd kv) <> [])
            (group_chars cs) /\
     exists blocks,
       analyze_text_blocks cs = Ok blocks /\
       Forall2 (fun kv b => block_of (snd kv) b)
               (sorted_lines (group_chars cs)) blocks).
Proof.
  split; [apply classify_text_type_kind|].
  intros cs. split; [|apply analyze_text_blocks_ok].
  eapply Forall_impl; [apply (g_lines _ _ _ _ (group_chars_grouped cs))|].
  intros [k ld] [[Hne _] (Hs & _)]. simpl in *. split; [done|].
  rewrite Hs. by destruct (chars ld).
Qed.

Lemma lines_of_in_reading_order {V} (proj : V -> list char) ndigits d cs :
  NoDup (map fst d) ->
  dict_chars proj d ≡ₚ cs ->
  Forall (fun kv => line_of_key ndigits (fst kv) (proj (snd kv))) d ->
  cs <> [] ->
  in_reading_order ndigits cs (lines_of proj d).
Proof.
  intros Hn Hp Hl Hcs. split; [by eapply lines_of_nonempty|].
  split; [by eapply lines_of_chars|].
  split; [by eapply lines_of_quantized|].
  by eapply lines_of_above.
Qed.

(** ** The page loop *)

Lemma table_rows_lookup size cols data r k :
  r < length data -> k < cols ->
  lookup2 (table_rows size cols data) r k
  = Some (cell_of size (source_value data r k)).
Proof.
  intros Hr Hk. unfold table_rows, lookup2, source_value, lookup2.
  rewrite list_lookup_fmap.
  destruct (lookup_lt_is_Some_2 data r Hr) as [row ->]. simpl.
  destruct (Nat.lt_ge_cases k (length row)) as [Hlt|Hge].
  - rewrite lookup_app_l by (rewrite length_take, length_map; lia).
    rewrite lookup_take_lt by done. rewrite list_lookup_fmap.
    destruct (lookup_lt_is_Some_2 row k Hlt) as [v ->]. done.
  - rewrite lookup_app_r by (rewrite length_take, length_map; lia).
    rewrite length_take, length_map.
    rewrite (lookup_ge_None_2 row k Hge).
    rewrite lookup_replicate_2 by lia. done.
Qed.

Lemma rows_unique (rows1 rows2 : list (list cell)) R C :
  length rows1 = R -> length rows2 = R ->
  Forall (fun row => length row = C) rows1 ->
  Forall (fun row => length row = C) rows2 ->
  (forall r k, r < R -> k < C -> lookup2 rows1 r k = lookup2 rows2 r k) ->
  rows1 = rows2.
Proof.
  intros H1 H2 F1 F2 Hl. apply list_eq. intros r.
  destruct (Nat.lt_ge_cases r R) as [Hr|Hr].
  - destruct (lookup_lt_is_Some_2 rows1 r) as [row1 E1]; [lia|].
    destruct (lookup_lt_is_Some_2 rows2 r) as [row2 E2]; [lia|].
    rewrite E1, E2. f_equal.
    pose proof (proj1 (Forall_lookup _ _) F1 r row1 E1) as L1.
    pose proof (proj1 (Forall_lookup _ _) F2 r row2 E2) as L2.
    simpl in L1, L2. apply list_eq. intros k.
    destruct (Nat.lt_ge_cases k C) as [Hk|Hk].
    + specialize (Hl r k Hr Hk). unfold lookup2 in Hl. by rewrite E1, E2 in Hl.
    + by rewrite !lookup_ge_None_2 by lia.
  - by rewrite !lookup_ge_None_2 by lia.
Qed.

(** The emitter, when it returns, has appended the nodes of the grid. *)
Lemma emit_table_nodes st size doc data doc' :
  emit_table st size doc data = Ok doc' -> doc' = doc ++ table_nodes st size data.
Proof.
  destruct data as [|first rest].
  - simpl. intros [= <-]. by rewrite app_nil_r.
  - intros H. pose proof (emit_table_spec st size doc first rest) as Hs.
    rewrite H in Hs. destruct Hs as (rows & -> & Hlen & Hall & Hlook & _).
    unfold table_nodes. do 3 f_equal.
    apply (rows_unique _ _ (length (first :: rest)) (length first)); try done.
    + unfold table_rows. by rewrite length_map.
    + unfold table_rows. apply Forall_map, Forall_forall. intros row _. simpl.
      rewrite length_app, length_take, length_map, length_replicate. lia.
    + intros r k Hr Hk. rewrite Hlook by done. by rewrite table_rows_lookup.
Qed.

(** A grid the emitter accepts: no non-empty value beyond the first row's
    width. Every grid whose rows are no longer than the first is one. *)
Lemma emit_table_ok st size doc data :
  (forall first rest, data = first :: rest ->
     Forall (fun row => length row <= length first) data) ->
  emit_table st size doc data = Ok (doc ++ table_nodes st size data).
Proof.
  intros Hwf. destruct data as [|first rest]; [by rewrite app_nil_r|].
  destruct (emit_table_wf st size doc first rest (Hwf _ _ eq_refl)) as (doc' & Hok).
  rewrite Hok. f_equal. by apply emit_table_nodes in Hok.
Qed.

(** A loop of appending steps appends what its steps append. *)
Lemma fold_left_appends {A} (f : list node -> A -> list node) xs :
  (forall doc x, f doc x = doc ++ f [] x) ->
  forall doc, fold_left f xs doc = doc ++ concat (map (f []) xs).
Proof.
  intros Hf. induction xs as [|x xs IH]; intros doc; simpl.
  - by rewrite app_nil_r.
  - rewrite IH, (Hf doc x). by rewrite <- app_assoc.
Qed.

Lemma Forall_concat_map {A B} (P : B -> Prop) (f : A -> list B) xs :
  (forall x, Forall P (f x)) -> Forall P (concat (map f xs)).
Proof.
  intros Hf. induction xs as [|x xs IH]; simpl; [constructor|].
  apply Forall_app. by split.
Qed.

Ltac appended :=
  unfold add_heading, add_paragraph;
  rewrite ?on_last_para_app; simpl; rewrite ?app_nil_r; try done.

(** The grids of a page, emitted in order. *)
Lemma emit_tables_nodes st size tables : forall doc doc',
  for_each (emit_table st size) tables doc = Ok doc' ->
  doc' = doc ++ concat (map (table_nodes st size) tables).
Proof.
  induction tables as [|data tables IH]; intros doc doc'; simpl.
  - intros [= <-]. by rewrite app_nil_r.
  - destruct (emit_table st size doc data) as [doc1|e] eqn:E; [|done].
    cbn [rbind]. intros H%IH. apply emit_table_nodes in E. subst.
    by rewrite <- app_assoc.
Qed.

Lemma emit_tables_ok st size tables : forall doc,
  tables_fit tables ->
  for_each (emit_table st size) tables doc
  = Ok (doc ++ concat (map (table_nodes st size) tables)).
Proof.
  induction tables as [|data tables IH]; intros doc Hfit; simpl.
  - by rewrite app_nil_r.
  - apply Forall_cons in Hfit as [Hd Hfit].
    rewrite (emit_table_ok st size doc data Hd). cbn [rbind].
    rewrite IH by done. by rewrite <- app_assoc.
Qed.

Section UltraPages.
Context {u : Ucd}.

Lemma block_nodes_para block : Forall is_para (block_nodes block).
Proof.
  unfold block_nodes, add_formatted_text_block.
  destruct (type block); appended; try (by repeat constructor).
  destruct (clean_bullet_text (block_text block)); by repeat constructor.
Qed.

Lemma smart_line_app doc line : smart_line doc line = doc ++ smart_line [] line.
Proof.
  unfold smart_line. destruct (strip line) as [|c s]; appended.
  repeat match goal with
         | |- context [if ?b then _ else _] => destruct b
         | |- context [match ?x with [] => _ | _ :: _ => _ end] => destruct x
         end; appended.
Qed.

Lemma smart_line_para line : Forall is_para (smart_line [] line).
Proof.
  unfold smart_line. destruct (strip line) as [|c s]; appended;
    try (by repeat constructor).
  repeat match goal with
         | |- context [if ?b then _ else _] => destruct b
         | |- context [match ?x with [] => _ | _ :: _ => _ end] => destruct x
         end; appended; by repeat constructor.
Qed.

(** The text nodes of a page of the ultra variant. *)
Lemma page_text_nodes doc p :
  exists nodes,
    page_text doc p = Ok (doc ++ nodes) /\
    page_text [] p = Ok nodes /\
    Forall is_para nodes.
Proof.
  unfold page_text. destruct (page_chars p) as [|c cs].
  - destruct (extract_text p) as [[|c s]|].
    + exists []. by rewrite app_nil_r.
    + unfold smart_text_parsing.
      rewrite !(fold_left_appends smart_line _ smart_line_app).
      eexists. split; [done|]. split; [done|].
      apply Forall_concat_map, smart_line_para.
    + exists []. by rewrite app_nil_r.
  - destruct (analyze_text_blocks_ok (c :: cs)) as (blocks & -> & _).
    cbn [rbind].
    rewrite !(fold_left_appends add_formatted_text_block _ add_formatted_text_block_app).
    eexists. split; [done|]. split; [done|].
    apply Forall_concat_map, block_nodes_para.
Qed.

End UltraPages.

Section AdvancedPages.
Context {u : Ucd}.

Lemma add_bullet_point_app doc text :
  add_bullet_point doc text = doc ++ add_bullet_point [] text.
Proof.
  unfold add_bullet_point. destruct (clean_bullet_text_advanced text); appended.
Qed.

Lemma add_bullet_point_para text : Forall is_para (add_bullet_point [] text).
Proof.
  unfold add_bullet_point.
  destruct (clean_bullet_text_advanced text); appended; by repeat constructor.
Qed.

Lemma add_formatted_paragraph_app doc text :
  add_formatted_paragraph doc text = doc ++ add_formatted_paragraph [] text.
Proof.
  unfold add_formatted_paragraph. destruct (strip text) as [|c s]; appended.
  destruct (detect_bullet_point (c :: s)); [apply add_bullet_point_app|].
  repeat match goal with
         | |- context [if ?b then _ else _] => destruct b
         end; appended.
Qed.

Lemma add_formatted_paragraph_para text :
  Forall is_para (add_formatted_paragraph [] text).
Proof.
  unfold add_formatted_paragraph. destruct (strip text) as [|c s]; [constructor|].
  destruct (detect_bullet_point (c :: s)); [apply add_bullet_point_para|].
  repeat match goal with
         | |- context [if ?b then _ else _] => destruct b
         end; appended; by repeat constructor.
Qed.

Lemma advanced_fallback_line_app doc line :
  advanced_fallback_line doc line = doc ++ advanced_fallback_line [] line.
Proof.
  unfold advanced_fallback_line. destruct (strip line) as [|c s]; appended.
  destruct (detect_bullet_point (c :: s)); [apply add_bullet_point_app|].
  repeat match goal with
         | |- context [if ?b then _ else _] => destruct b
         end; appended.
Qed.

Lemma advanced_fallback_line_para line :
  Forall is_para (advanced_fallback_line [] line).
Proof.
  unfold advanced_fallback_line. destruct (strip line) as [|c s]; [constructor|].
  destruct (detect_bullet_point (c :: s)); [apply add_bullet_point_para|].
  repeat match goal with
         | |- context [if ?b then _ else _] => destruct b
         end; appended; by repeat constructor.
Qed.

(** One line of the advanced variant: it never raises on a line that holds
    a character, and only appends paragraphs. *)
Lemma advanced_line_nodes doc current line :
  snd line <> [] ->
  exists nodes current',
    advanced_line (doc, current) line = Ok (doc ++ nodes, current') /\
    advanced_line ([], current) line = Ok (nodes, current') /\
    Forall is_para nodes.
Proof.
  intros Hne. unfold advanced_line.
  destruct (line_text (sorted_chars (snd line))) as [|c s].
  - destruct current as [|t ts].
    + exists [], []. by rewrite app_nil_r.
    + rewrite (add_formatted_paragraph_app doc).
      eexists _, _. split; [done|]. split; [done|].
      apply add_formatted_paragraph_para.
  - rewrite average_nonempty.
    2:{ intros H%(f_equal length). rewrite length_map in H.
        apply Hne, Permutation_nil_r. rewrite <- (sorted_chars_perm (snd line)).
        by destruct (sorted_chars (snd line)). }
    cbn [rbind].
    set (avg := (Qsum _ / _)%Q).
    destruct (Qgtb avg 14 || isupper (c :: s) || (length (c :: s) <? 50)).
    2:{ exists [], (current ++ [c :: s]). by rewrite app_nil_r. }
    destruct current as [|t ts].
    { exists [], ([] ++ [c :: s]). by rewrite app_nil_r. }
    rewrite (add_formatted_paragraph_app doc).
    set (pnodes := add_formatted_paragraph [] (para_text (t :: ts))).
    assert (Hp : Forall is_para pnodes) by apply add_formatted_paragraph_para.
    destruct (isupper (c :: s) && (length (c :: s) <? 30)).
    + unfold add_heading, add_paragraph. rewrite <- app_assoc.
      eexists _, _. split; [done|]. split; [done|].
      apply Forall_app. split; [done|]. by repeat constructor.
    + unfold add_paragraph. rewrite !on_last_para_app.
      destruct (Qgtb avg 14); rewrite ?on_last_para_app, <- ?app_assoc;
        (eexists _, _; split; [done|]; split; [done|];
         apply Forall_app; split; [done|]; by repeat constructor).
Qed.

Lemma for_each_advanced_line lines : forall doc current,
  Forall (fun line => snd line <> []) lines ->
  exists nodes current',
    for_each advanced_line lines (doc, current) = Ok (doc ++ nodes, current') /\
    for_each advanced_line lines ([], current) = Ok (nodes, current') /\
    Forall is_para nodes.
Proof.
  induction lines as [|line lines IH]; intros doc current Hall; cbn [for_each].
  - exists [], current. by rewrite app_nil_r.
  - apply Forall_cons in Hall as [Hl Hall].
    destruct (advanced_line_nodes doc current line Hl) as (n1 & c1 & E1 & E1' & Hp1).
    rewrite E1, E1'. cbn [rbind].
    destruct (IH (doc ++ n1) c1 Hall) as (n2 & c2 & E2 & E2' & Hp2).
    destruct (IH n1 c1 Hall) as (n3 & c3 & E3 & E3' & _).
    rewrite E3' in E2'. injection E2' as -> ->.
    rewrite E2, E3. exists (n1 ++ n2), c2.
    split; [by rewrite <- app_assoc|]. split; [done|]. by apply Forall_app.
Qed.

(** The text nodes of a page of the advanced variant. *)
Lemma advanced_page_text_nodes doc p :
  exists nodes,
    advanced_page_text doc p = Ok (doc ++ nodes) /\
    advanced_page_text [] p = Ok nodes /\
    Forall is_para nodes.
Proof.
  unfold advanced_page_text. destruct (page_chars p) as [|c cs].
  - destruct (extract_text p) as [[|c s]|].
    + exists []. by rewrite app_nil_r.
    + rewrite !(fold_left_appends advanced_fallback_line _ advanced_fallback_line_app).
      eexists. split; [done|]. split; [done|].
      apply Forall_concat_map, advanced_fallback_line_para.
    + exists []. by rewrite app_nil_r.
  - set (lines := sorted_lines (group_chars_advanced (c :: cs))).
    assert (Hl : Forall (fun line : Z * list char => snd line <> []) lines).
    { unfold lines. rewrite (sorted_lines_perm (group_chars_advanced (c :: cs))).
      eapply Forall_impl;
        [apply (g_lines _ _ _ _ (group_chars_advanced_grouped (c :: cs)))|].
      by intros kv [H _]. }
    destruct (for_each_advanced_line lines doc [] Hl) as (nodes & cur & -> & -> & Hp).
    cbn [rbind]. destruct cur as [|t ts].
    + by exists nodes.
    + rewrite (add_formatted_paragraph_app (doc ++ nodes)),
        (add_formatted_paragraph_app nodes).
      rewrite <- app_assoc. eexists. split; [done|]. split; [done|].
      apply Forall_app. split; [done|]. apply add_formatted_paragraph_para.
Qed.

End AdvancedPages.

Section PageLoop.
Context (st : tstyle) (size : option Z).
Context (text_of : list node -> page -> result (list node)).
Hypothesis text_of_nodes : forall doc p,
  exists nodes,
    text_of doc p = Ok (doc ++ nodes) /\
    text_of [] p = Ok nodes /\
    Forall is_para nodes.

Lemma page_step_nodes doc page_num p doc' :
  page_step st size text_of doc page_num p = Ok doc' ->
  exists x,
    text_of [] p = Ok x /\ Forall is_para x /\
    doc' = doc ++ page_nodes st size page_num p x.
Proof.
  unfold page_step, page_nodes.
  set (brk := if 1 <? page_num then [PageBreak] else []).
  assert (Hb : (if 1 <? page_num then add_page_break doc else doc) = doc ++ brk).
  { unfold brk, add_page_break. destruct (1 <? page_num); by rewrite ?app_nil_r. }
  rewrite Hb.
  destruct (for_each _ (extract_tables p) (doc ++ brk)) as [doc1|e] eqn:E; [|done].
  cbn [rbind]. apply emit_tables_nodes in E. subst doc1.
  destruct (text_of_nodes ((doc ++ brk) ++ concat (map (table_nodes st size) (extract_tables p))) p)
    as (x & -> & Hx & Hp).
  intros [= <-]. exists x. split; [done|]. split; [done|].
  by rewrite <- !app_assoc.
Qed.

Lemma page_step_ok doc page_num p :
  tables_fit (extract_tables p) -> exists doc', page_step st size text_of doc page_num p = Ok doc'.
Proof.
  intros Hfit. unfold page_step. rewrite emit_tables_ok by done. cbn [rbind].
  destruct (text_of_nodes
              ((if 1 <? page_num then add_page_break doc else doc)
               ++ concat (map (table_nodes st size) (extract_tables p))) p)
    as (x & -> & _). by eexists.
Qed.

Lemma page_loop_nodes pages : forall page_num doc doc',
  for_enumerate (page_step st size text_of) page_num pages doc = Ok doc' ->
  exists texts,
    Forall2 (fun p x => text_of [] p = Ok x /\ Forall is_para x) pages texts /\
    doc' = doc ++ layout st size page_num pages texts.
Proof.
  induction pages as [|p pages IH]; intros page_num doc doc'; cbn [for_enumerate].
  - intros [= <-]. exists []. split; [constructor|]. by rewrite app_nil_r.
  - destruct (page_step st size text_of doc page_num p) as [doc1|e] eqn:E; [|done]. cbn [rbind].
    intros (texts & Hall & ->)%IH.
    apply page_step_nodes in E as (x & Hx & Hp & ->).
    exists (x :: texts). split; [by constructor|].
    simpl. by rewrite <- app_assoc.
Qed.

Lemma page_loop_ok pages : forall page_num doc,
  Forall (fun p => tables_fit (extract_tables p)) pages ->
  exists doc', for_enumerate (page_step st size text_of) page_num pages doc = Ok doc'.
Proof.
  induction pages as [|p pages IH]; intros page_num doc Hall; cbn [for_enumerate].
  - by eexists.
  - apply Forall_cons in Hall as [Hp Hall].
    destruct (page_step_ok doc page_num p Hp) as (doc1 & ->). cbn [rbind].
    by apply IH.
Qed.

End PageLoop.

(** C8. In the body of the document of every run that returns, of either
    variant, the pages follow one another in order; the nodes of a page are
    a page break (for every page but the first), then for each grid of the
    page its table followed by the spacer paragraph, then the page's text
    nodes, which are paragraphs and headings only. A run returns whenever
    no grid has a row longer than its first. *)
Theorem C8_page_order {u : Ucd} (pages : list page) :
  (forall d, ultra_preserve_formatting (Ok pages) = Ok d ->
     exists texts,
       Forall2 (fun p x => page_text [] p = Ok x /\ Forall is_para x) pages texts /\
       body d = layout LightGridAccent1 (Some 11%Z) 1 pages texts) /\
  (forall d, extract_with_tables_and_formatting (Ok pages) = Ok d ->
     exists texts,
       Forall2 (fun p x => advanced_page_text [] p = Ok x /\ Forall is_para x)
               pages texts /\
       body d = layout TableGrid None 1 pages texts) /\
  (Forall (fun p => tables_fit (extract_tables p)) pages ->
   (exists d, ultra_preserve_formatting (Ok pages) = Ok d) /\
   (exists d, extract_with_tables_and_formatting (Ok pages) = Ok d)).
Proof.
  split; [|split].
  - intros d. unfold ultra_preserve_formatting. cbn [rbind].
    change ultra_page with (page_step LightGridAccent1 (Some 11%Z) page_text).
    destruct (for_enumerate _ 1 pages []) as [doc|e] eqn:E; [|done].
    cbn [rbind]. intros [= <-].
    apply (page_loop_nodes _ _ _ page_text_nodes) in E as (texts & Hall & ->).
    by exists texts.
  - intros d. unfold extract_with_tables_and_formatting. cbn [rbind].
    change advanced_page with (page_step TableGrid None advanced_page_text).
    destruct (for_enumerate _ 1 pages []) as [doc|e] eqn:E; [|done].
    cbn [rbind]. intros [= <-].
    apply (page_loop_nodes _ _ _ advanced_page_text_nodes) in E as (texts & Hall & ->).
    by exists texts.
  - intros Hfit. split.
    + unfold ultra_preserve_formatting. cbn [rbind].
      change ultra_page with (page_step LightGridAccent1 (Some 11%Z) page_text).
      destruct (page_loop_ok LightGridAccent1 (Some 11%Z) page_text page_text_nodes
                  pages 1 [] Hfit) as (doc & ->).
      by eexists.
    + unfold extract_with_tables_and_formatting. cbn [rbind].
      change advanced_page with (page_step TableGrid None advanced_page_text).
      destruct (page_loop_ok TableGrid None advanced_page_text advanced_page_text_nodes
                  pages 1 [] Hfit) as (doc & ->).
      by eexists.
Qed.

Lemma C8_page_order_witness :
  exists d texts,
    @ultra_preserve_formatting ascii_ucd (Ok two_pages) = Ok d /\
    Forall2 (fun p x => @page_text ascii_ucd [] p = Ok x /\ Forall is_para x)
            two_pages texts /\
    body d = layout LightGridAccent1 (Some 11%Z) 1 two_pages texts.
Proof.
  destruct (proj2 (proj2 (@C8_page_order ascii_ucd two_pages))) as [[d Hd] _].
  - unfold two_pages. constructor; [|constructor; [|constructor]].
    + simpl. constructor; [|constructor].
      intros first rest H. injection H as <- <-.
      constructor; [simpl; lia|]. constructor; [simpl; lia|]. constructor.
    + simpl. constructor.
  - destruct (proj1 (@C8_page_order ascii_ucd two_pages) d Hd) as (texts & Hall & Hb).
    by exists d, texts.
Defined.

Example two_pages_body :
  option_map (map (fun n => match n with
                            | Para p => concat (map run_text (p_runs p))
                            | Tbl _ _ => py "<table>"
                            | PageBreak => py "<break>"
                            end))
    match @ultra_preserve_formatting ascii_ucd (Ok two_pages) with
    | Ok d => Some (body d)
    | Raise _ => None
    end
  = Some [py "<table>"; []; py "Hi"; py "<break>"; py "Ok"].
Proof. reflexivity. Qed.

(** ** Reading order *)

(** Texts that are not empty and hold no space at either end stay so when
    joined, whatever is put between them. *)
Lemma solid_app a mid b : solid a -> solid b -> solid (a ++ mid ++ b).
Proof.
  intros [Ha [Hal Har]] [Hb [Hbl Hbr]]. split; [by destruct a|]. split.
  - destruct a as [|c a]; [done|]. simpl in *.
    destruct (is_space c) eqn:E; [|done].
    exfalso. pose proof (lstrip_no_lead a) as H. rewrite Hal in H. simpl in H. congruence.
  - assert (Hrb : lstrip (rev b) = rev b).
    { unfold rstrip in Hbr. rewrite <- (rev_involutive (lstrip (rev b))), Hbr. done. }
    assert (Hlead : forall x, lstrip (rev b ++ x) = rev b ++ x).
    { intros x. destruct (rev b) as [|c b'] eqn:Eb.
      - exfalso. apply Hb. rewrite <- (rev_involutive b), Eb. done.
      - simpl in *. destruct (is_space c) eqn:E; [|done].
        exfalso. pose proof (lstrip_no_lead b') as H. rewrite Hrb in H.
        simpl in H. congruence. }
    unfold rstrip. rewrite !rev_app_distr, <- app_assoc, Hlead.
    rewrite !rev_app_distr, !rev_involutive. by rewrite <- app_assoc.
Qed.

Lemma para_text_solid g : g <> [] -> Forall solid g -> solid (para_text g).
Proof.
  unfold para_text. induction g as [|t g IH]; [done|]. intros _ [Ht Hg]%Forall_cons.
  destruct g as [|t' g]; [done|].
  change (solid (t ++ [32%N] ++ join_sep [32%N] (t' :: g))).
  apply solid_app; [done|]. by apply IH.
Qed.

Lemma line_text_solid cs c s : line_text cs = c :: s -> solid (c :: s).
Proof. intros H. split; [done|]. rewrite <- H. apply strip_trimmed. Qed.

(** The nodes of the advanced variant show the lines in their order. *)
Section ReadOff.
Context {u : Ucd}.

Lemma new_para_text t st : node_text (Para (new_para t st)) = t.
Proof. destruct t; unfold node_text, para_shown; simpl; by rewrite ?app_nil_r. Qed.

Lemma add_formatted_paragraph_shows g :
  g <> [] -> Forall solid g ->
  shows_group g (map node_text (add_formatted_paragraph [] (para_text g))).
Proof.
  intros Hg Hs. destruct (para_text_solid g Hg Hs) as [Hne Ht].
  unfold shows_group, add_formatted_paragraph. rewrite (strip_id _ Ht).
  destruct (para_text g) as [|c s] eqn:E; [done|].
  destruct (detect_bullet_point (c :: s)) eqn:Ed.
  - right. split; [done|]. unfold add_bullet_point.
    destruct (clean_bullet_text_advanced (c :: s)) as [|d t] eqn:Ec; [done|].
    unfold add_paragraph. cbn [app map List.filter has_text].
    by rewrite new_para_text.
  - left. destruct (isupper (c :: s) && (length (c :: s) <? 50)).
    + unfold add_heading, add_paragraph. cbn [app map]. by rewrite new_para_text.
    + unfold add_paragraph. cbn [app].
      destruct (has_keyword emphasis_keywords (c :: s)).
      * simpl. unfold para_shown. simpl. by rewrite app_nil_r.
      * cbn [map]. by rewrite new_para_text.
Qed.

Lemma for_each_advanced_line_reads lines : forall doc current doc' current',
  Forall solid current ->
  for_each advanced_line lines (doc, current) = Ok (doc', current') ->
  exists ns groups shown,
    doc' = doc ++ ns /\
    current ++ List.filter has_text
                 (map (fun l => line_text (sorted_chars (snd l))) lines)
    = concat groups ++ current' /\
    Forall (fun g => g <> []) groups /\
    Forall2 shows_group groups shown /\
    map node_text ns = concat shown /\
    Forall solid current'.
Proof.
  induction lines as [|line lines IH]; intros doc current doc' current' Hcur;
    cbn [for_each].
  - intros [= <- <-]. exists [], [], []. rewrite !app_nil_r. by repeat split.
  - destruct (advanced_line (doc, current) line) as [[doc1 cur1]|e] eqn:E; [|done].
    cbn [rbind]. intros Hrest. unfold advanced_line in E.
    cbn [map List.filter].
    destruct (line_text (sorted_chars (snd line))) as [|c s] eqn:Ht.
    + cbn [has_text]. destruct current as [|t ts].
      * injection E as <- <-. by apply IH.
      * injection E as <- <-.
        destruct (IH _ _ _ _ (Forall_nil_2 _) Hrest)
          as (ns & groups & shown & -> & Hg & Hne & Hs & Hn & Hc).
        rewrite add_formatted_paragraph_app, <- app_assoc.
        eexists _, ((t :: ts) :: groups), (_ :: shown).
        split; [done|]. split; [by simpl in *; rewrite Hg, <- app_assoc|].
        split; [by constructor|]. split.
        { constructor; [|done]. by apply add_formatted_paragraph_shows. }
        split; [|done]. by rewrite map_app, Hn.
    + cbn [has_text]. apply line_text_solid in Ht as Hsolid.
      destruct (average _) as [avg|e]; [|done]. cbn [rbind] in E.
      destruct (Qgtb avg 14 || isupper (c :: s) || (length (c :: s) <? 50)) eqn:Eh.
      2:{ injection E as <- <-.
          destruct (IH doc (current ++ [c :: s]) doc' current') as
            (ns & groups & shown & -> & Hg & Hne & Hs & Hn & Hc); [|done|].
          { apply Forall_app. split; [done|]. constructor; [done|constructor]. }
          exists ns, groups, shown. split; [done|].
          split; [by rewrite <- Hg, <- app_assoc|]. done. }
      destruct current as [|t ts].
      { injection E as <- <-.
        destruct (IH doc ([] ++ [c :: s]) doc' current') as
          (ns & groups & shown & -> & Hg & Hne & Hs & Hn & Hc); [|done|].
        { constructor; [done|constructor]. }
        exists ns, groups, shown. done. }
      assert (E' : exists hnode,
                 node_text hnode = c :: s /\
                 doc1 = doc ++ add_formatted_paragraph [] (para_text (t :: ts)) ++ [hnode] /\
                 cur1 = []).
      { rewrite (add_formatted_paragraph_app doc) in E.
        destruct (isupper (c :: s) && (length (c :: s) <? 30)).
        - injection E as <- <-. unfold add_heading, add_paragraph.
          eexists. split; [apply new_para_text|]. by rewrite <- app_assoc.
        - unfold add_paragraph in E. rewrite !on_last_para_app in E.
          destruct (Qgtb avg 14); rewrite ?on_last_para_app in E;
            injection E as <- <-; (eexists; split; [|by rewrite <- app_assoc]);
            unfold node_text, para_shown; simpl; by rewrite app_nil_r. }
      destruct E' as (hnode & Hh & -> & ->).
      destruct (IH _ _ _ _ (Forall_nil_2 _) Hrest)
        as (ns & groups & shown & -> & Hg & Hne & Hs & Hn & Hc).
      eexists _, ((t :: ts) :: [c :: s] :: groups), (_ :: [c :: s] :: shown).
      split; [by rewrite <- !app_assoc|].
      split; [by simpl in *; rewrite Hg, <- !app_assoc|].
      split; [by repeat constructor|]. split.
      { constructor; [by apply add_formatted_paragraph_shows|].
        constructor; [by left|done]. }
      split; [|done]. rewrite !map_app, Hn. simpl. rewrite Hh.
      by rewrite <- ?app_assoc.
Qed.

Lemma advanced_page_text_reads doc p doc' :
  page_chars p <> [] ->
  advanced_page_text doc p = Ok doc' ->
  exists ns,
    doc' = doc ++ ns /\
    read_off (map node_text ns)
             (map (fun l => line_text (snd l)) (advanced_lines (page_chars p))).
Proof.
  intros Hne. unfold advanced_page_text.
  destruct (page_chars p) as [|c cs] eqn:Ep; [done|].
  destruct (for_each _ _ (doc, [])) as [[doc1 cur]|e] eqn:E; [|done].
  cbn [rbind].
  apply for_each_advanced_line_reads in E
    as (ns & groups & shown & -> & Hg & Hgne & Hs & Hn & Hc); [|constructor].
  assert (Ht : map (fun l => line_text (snd l)) (advanced_lines (c :: cs))
               = map (fun l => line_text (sorted_chars (snd l)))
                     (sorted_lines (group_chars_advanced (c :: cs)))).
  { unfold advanced_lines, lines_of. by rewrite map_map. }
  rewrite Ht. cbn [app] in Hg. unfold read_off.
  destruct cur as [|t ts]; intros [= <-].
  - exists ns. split; [done|]. exists groups, shown.
    rewrite Hg, app_nil_r. done.
  - rewrite add_formatted_paragraph_app, <- app_assoc.
    eexists. split; [done|].
    exists (groups ++ [t :: ts]),
      (shown ++ [map node_text (add_formatted_paragraph [] (para_text (t :: ts)))]).
    split; [by rewrite Hg, concat_app; simpl; rewrite app_nil_r|].
    split; [apply Forall_app; split; [done|by repeat constructor]|].
    split.
    { apply Forall2_app; [done|]. constructor; [|constructor].
      by apply add_formatted_paragraph_shows. }
    rewrite map_app, Hn, concat_app. simpl. by rewrite app_nil_r.
Qed.

End ReadOff.

(** C2. For every non-empty list of characters of a page, the lines of the
    line grouper, of both variants, are in reading order by the coordinates
    of the characters: the key of a line is the vertical position of each
    of its characters rounded to two places (ultra) or one (advanced), the
    keys strictly descend, every character of a line lies strictly higher
    on the page than every character of a later line, and inside a line
    the characters go from left to right; the lines hold exactly the
    characters of the page. The text is read in this order: the blocks of
    [analyze_text_blocks] carry the texts of the lines, each the stripped
    concatenation of its characters, in the order of the lines, and the
    ultra variant appends the nodes of these blocks in that order; the
    nodes the advanced variant appends for the page show the texts of the
    lines, in the order of the lines, joined into paragraphs of consecutive
    lines, with nothing left out but what the bullet stripper removes. *)
Theorem C2_line_grouper_reading_order {u : Ucd} (cs : list char) :
  cs <> [] ->
  in_reading_order 2 cs (ultra_lines cs) /\
  in_reading_order 1 cs (advanced_lines cs) /\
  (exists blocks,
     analyze_text_blocks cs = Ok blocks /\
     map block_text blocks = map (fun l => line_text (snd l)) (ultra_lines cs) /\
     forall doc p doc',
       page_chars p = cs -> page_text doc p = Ok doc' ->
       doc' = doc ++ concat (map block_nodes blocks)) /\
  (forall doc p doc',
     page_chars p = cs -> advanced_page_text doc p = Ok doc' ->
     exists nodes,
       doc' = doc ++ nodes /\
       read_off (map node_text nodes)
                (map (fun l => line_text (snd l)) (advanced_lines cs))).
Proof.
  intros Hcs.
  destruct (group_chars_grouped cs) as [Hn Hp Hl].
  destruct (group_chars_advanced_grouped cs) as [Hn' Hp' Hl'].
  split; [|split; [|split]].
  - apply lines_of_in_reading_order; try done.
    eapply Forall_impl; [exact Hl|]. by intros kv [H _].
  - by apply lines_of_in_reading_order.
  - destruct (analyze_text_blocks_ok cs) as (blocks & Hok & Hb).
    exists blocks. split; [done|]. split.
    + unfold ultra_lines, lines_of. rewrite map_map. clear Hok.
      induction Hb as [|kv b lines bs [Ht _] _ IH]; [done|].
      cbn [map snd]. by rewrite Ht, IH.
    + intros doc p doc' Hpc. unfold page_text. rewrite Hpc.
      destruct cs as [|c cs']; [done|]. rewrite Hok. cbn [rbind].
      intros [= <-].
      apply (fold_left_appends add_formatted_text_block _
               add_formatted_text_block_app).
  - intros doc p doc' Hpc H. rewrite <- Hpc.
    apply advanced_page_text_reads; [by rewrite Hpc|done].
Qed.

Lemma C2_line_grouper_reading_order_witness :
  (in_reading_order 2 slanted_chars (ultra_lines slanted_chars) /\
   in_reading_order 1 slanted_chars (advanced_lines slanted_chars) /\
   (exists blocks,
      @analyze_text_blocks ascii_ucd slanted_chars = Ok blocks /\
      map block_text blocks
      = map (fun l => line_text (snd l)) (ultra_lines slanted_chars) /\
      forall doc p doc',
        page_chars p = slanted_chars -> @page_text ascii_ucd doc p = Ok doc' ->
        doc' = doc ++ concat (map (@block_nodes ascii_ucd) blocks)) /\
   (forall doc p doc',
      page_chars p = slanted_chars ->
      @advanced_page_text ascii_ucd doc p = Ok doc' ->
      exists nodes,
        doc' = doc ++ nodes /\
        @read_off ascii_ucd (map node_text nodes)
          (map (fun l => line_text (snd l)) (advanced_lines slanted_chars)))) /\
  map (fun l => (fst l, map text (snd l))) (ultra_lines slanted_chars)
  = [(70000%Z, [py "H"; py "i"]); (10000%Z, [py "b"; py "y"])] /\
  map (fun l => (fst l, map text (snd l))) (advanced_lines slanted_chars)
  = [(7000%Z, [py "H"; py "i"]); (1000%Z, [py "b"; py "y"])] /\
  option_map (map node_text)
    match @page_text ascii_ucd [] slanted_page with
    | Ok doc => Some doc
    | Raise _ => None
    end = Some [py "Hi"; py "by"] /\
  option_map (map node_text)
    match @advanced_page_text ascii_ucd [] slanted_page with
    | Ok doc => Some doc
    | Raise _ => None
    end = Some [py "Hi"; py "by"].
Proof.
  split.
  - apply (@C2_line_grouper_reading_order ascii_ucd slanted_chars).
    discriminate.
  - repeat split; reflexivity.
Defined.

(** ** The main programs *)

(** An exception on one page ends the loop over the pages with it. *)
Lemma for_enumerate_raise {A St} (body : St -> nat -> A -> result St)
  before x after e : forall start s s1,
  for_enumerate body start before s = Ok s1 ->
  body s1 (start + length before) x = Raise e ->
  for_enumerate body start (before ++ x :: after) s = Raise e.
Proof.
  induction before as [|y before IH]; intros start s s1; cbn [for_enumerate app].
  - intros [= <-]. simpl. rewrite Nat.add_0_r. by intros ->.
  - destruct (body s start y) as [s2|e2]; [|done]. cbn [rbind].
    intros H1 H2. apply (IH (S start) s2 s1 H1).
    by replace (S start + length before) with (start + length (y :: before))
      by (simpl; lia).
Qed.

Lemma try_convert_raise convert filename w printed e :
  convert (env_open w (read_path w)) = Raise e ->
  try_convert convert filename w printed
  = {| stdout := printed ++ [MsgStarting; MsgError e; MsgTryOther];
       saved := None; exit_status := None |}.
Proof. intros H. unfold try_convert. by rewrite H. Qed.

Lemma try_convert_saved convert filename w printed file :
  saved (try_convert convert filename w printed) = Some file ->
  exists d, convert (env_open w (read_path w)) = Ok d /\
            env_save w = None /\ file = (filename, d).
Proof.
  unfold try_convert, save.
  destruct (convert _) as [d|e]; cbn [rbind]; [|done].
  destruct (env_save w); [done|]. simpl. intros [= <-]. by exists d.
Qed.

(** C9. An exception raised on any page is raised by the conversion. When
    the conversion raises, in either variant, the main program saves no
    document, and the last lines it prints are the error message and the
    advice to try another converter. A document is saved only when the
    conversion returned it and saving raised nothing. *)
Theorem C9_failed_run_saves_nothing {u : Ucd} (w : env) :
  (forall before p after doc e,
     for_enumerate ultra_page 1 before [] = Ok doc ->
     ultra_page doc (1 + length before) p = Raise e ->
     ultra_preserve_formatting (Ok (before ++ p :: after)) = Raise e) /\
  (forall before p after doc e,
     for_enumerate advanced_page 1 before [] = Ok doc ->
     advanced_page doc (1 + length before) p = Raise e ->
     extract_with_tables_and_formatting (Ok (before ++ p :: after)) = Raise e) /\
  (forall e,
     ultra_preserve_formatting (env_open w (read_path w)) = Raise e ->
     saved (ultra_main w) = None /\
     (env_requirements w <> InstallFailed ->
      exists printed, stdout (ultra_main w) = printed ++ [MsgError e; MsgTryOther])) /\
  (forall e,
     extract_with_tables_and_formatting (env_open w (read_path w)) = Raise e ->
     saved (advanced_main w) = None /\
     exists printed, stdout (advanced_main w) = printed ++ [MsgError e; MsgTryOther]) /\
  (forall file,
     saved (ultra_main w) = Some file ->
     exists d, ultra_preserve_formatting (env_open w (read_path w)) = Ok d /\
               env_save w = None /\ file = ("PDF-Ultra-Formatted.docx"%string, d)) /\
  (forall file,
     saved (advanced_main w) = Some file ->
     exists d, extract_with_tables_and_formatting (env_open w (read_path w)) = Ok d /\
               env_save w = None /\ file = ("PDF-Advanced-Formatted.docx"%string, d)).
Proof.
  split; [|split; [|split; [|split; [|split]]]].
  - intros before p after doc e H1 H2. unfold ultra_preserve_formatting. cbn [rbind].
    by rewrite (for_enumerate_raise _ _ _ _ _ _ _ _ H1 H2).
  - intros before p after doc e H1 H2.
    unfold extract_with_tables_and_formatting. cbn [rbind].
    by rewrite (for_enumerate_raise _ _ _ _ _ _ _ _ H1 H2).
  - intros e He. unfold ultra_main.
    destruct (env_requirements w) eqn:Er;
      rewrite ?(try_convert_raise _ _ _ _ _ He); simpl; (split; [done|]);
      intros Hreq.
    + by exists [MsgBanner; MsgRequirements Available; MsgStarting].
    + by exists [MsgBanner; MsgRequirements Installed; MsgStarting].
    + by destruct Hreq.
  - intros e He. unfold advanced_main.
    rewrite (try_convert_raise _ _ _ _ _ He). simpl. split; [done|].
    by exists [MsgStarting].
  - intros file. unfold ultra_main.
    destruct (env_requirements w); try apply try_convert_saved. done.
  - intros file. unfold advanced_main. apply try_convert_saved.
Qed.

Lemma C9_failed_run_saves_nothing_witness :
  saved (@ultra_main ascii_ucd bad_run) = None /\
  (exists printed,
     stdout (@ultra_main ascii_ucd bad_run)
     = printed ++ [MsgError IndexError; MsgTryOther]) /\
  saved (@advanced_main ascii_ucd bad_run) = None.
Proof.
  destruct (@C9_failed_run_saves_nothing ascii_ucd bad_run)
    as (Hpage & _ & Hu & Ha & _).
  assert (Hraise : @ultra_preserve_formatting ascii_ucd
                     (env_open bad_run (read_path bad_run)) = Raise IndexError).
  { apply (Hpage [] bad_page [] []); reflexivity. }
  destruct (Hu IndexError Hraise) as [Hs Hp].
  split; [exact Hs|]. split; [apply Hp; discriminate|].
  apply (Ha IndexError). reflexivity.
Defined.

Example bad_run_output :
  @ultra_main ascii_ucd bad_run
  = {| stdout := [MsgBanner; MsgRequirements Available; MsgStarting;
                  MsgError IndexError; MsgTryOther];
       saved := None; exit_status := None |}.
Proof. reflexivity. Qed.

Example read_path_quotes : read_path bad_run = py "in.pdf".
Proof. reflexivity. Qed.

(** * Further properties *)

(** ** Substitution of an anchored pattern *)

Section AnchoredFacts.
Context {u : Ucd}.

Lemma accept_advances : advances accept.
Proof. intros q t p' r' [= <- <-]. split; [done|]. by left. Qed.

Lemma advances_step (k : cont) c rest p' r' :
  advances k -> k (Some c) rest = Some (p', r') ->
  r' `suffix_of` c :: rest /\ p' <> None /\ length r' < length (c :: rest).
Proof.
  intros Hk H. destruct (Hk _ _ _ _ H) as [Hs Hc].
  split; [by apply suffix_cons_r|]. simpl.
  destruct Hc as [[-> ->]|[Hp Hl]]; split; try done; lia.
Qed.

Lemma star_from_advances p (k : cont) : advances k -> advances (star_from p k).
Proof.
  intros Hk q t. revert q. induction t as [|c t IH]; intros q p' r'; simpl.
  - apply Hk.
  - destruct (p c); [|apply Hk].
    destruct (star_from p k (Some c) t) as [[p1 r1]|] eqn:E; simpl.
    + intros [= <- <-]. destruct (IH _ _ _ E) as [Hs Hc].
      split; [by apply suffix_cons_r|]. right. simpl.
      destruct Hc as [[-> ->]|[Hp Hl]]; split; try done; lia.
    + apply Hk.
Qed.

Lemma match_at_advances r (k : cont) : advances k -> advances (match_at r k).
Proof.
  revert k. induction r as [| |p|p|p|a IHa b IHb]; intros k Hk q t p' r'; simpl.
  - destruct q; [done|apply Hk].
  - destruct (xorb _ _); [apply Hk|done].
  - destruct t as [|c t]; [done|]. destruct (p c); [|done].
    intros H. destruct (advances_step k c t p' r' Hk H) as (Hs & Hp & Hl).
    split; [done|]. by right.
  - by apply star_from_advances.
  - destruct t as [|c t]; [apply Hk|]. destruct (p c); [|apply Hk].
    destruct (k (Some c) t) as [[p1 r1]|] eqn:E; simpl; [|apply Hk].
    intros [= <- <-]. destruct (advances_step k c t p1 r1 Hk E) as (Hs & Hp & Hl).
    split; [done|]. by right.
  - apply IHa. by apply IHb.
Qed.

(** [re.sub] of a pattern anchored by [^]: the text after the match at the
    start, the text itself when there is none. *)
Lemma re_sub_anchored r s :
  re_sub (Seq Bol r) s
  = match match_at r accept None s with
    | Some (_, rest) => rest
    | None => s
    end.
Proof.
  unfold re_sub. cbn [sub_from match_at].
  assert (Hkeep : match s with
                  | [] => []
                  | c :: rest => c :: sub_from (Seq Bol r) (length s) (Some c) rest
                  end = s).
  { destruct s as [|c s]; [done|]. by rewrite sub_from_anchored. }
  rewrite Hkeep.
  destruct (match_at r accept None s) as [[p' rest]|] eqn:E; [|done].
  destruct (match_at_advances r accept accept_advances _ _ _ _ E)
    as [_ [[_ ->]|[Hp Hl]]].
  - by rewrite Nat.ltb_irrefl.
  - destruct (Nat.ltb_spec (length rest) (length s)); [|lia].
    destruct p' as [c|]; [|done]. apply sub_from_anchored.
Qed.

Lemma re_sub_anchored_suffix r s : re_sub (Seq Bol r) s `suffix_of` s.
Proof.
  rewrite re_sub_anchored.
  destruct (match_at r accept None s) as [[p' rest]|] eqn:E; [|done].
  by destruct (match_at_advances r accept accept_advances _ _ _ _ E).
Qed.

(** A pattern that succeeds before a continuation succeeds before every
    continuation that accepts wherever that one does. *)
Lemma star_from_succeeds p (k k' : cont) prev s :
  (forall q t, is_Some (k q t) -> is_Some (k' q t)) ->
  is_Some (star_from p k prev s) -> is_Some (star_from p k' prev s).
Proof.
  intros Hk. revert prev. induction s as [|c s IH]; intros prev; simpl.
  - apply Hk.
  - destruct (p c); [|apply Hk].
    destruct (star_from p k (Some c) s) eqn:E; simpl.
    + intros _. destruct (IH (Some c)) as [x ->]; [by rewrite E|]. by eexists.
    + intros H%Hk. destruct (star_from p k' (Some c) s); simpl; [by eexists|done].
Qed.

Lemma match_at_succeeds r (k k' : cont) prev s :
  (forall q t, is_Some (k q t) -> is_Some (k' q t)) ->
  is_Some (match_at r k prev s) -> is_Some (match_at r k' prev s).
Proof.
  revert k k' prev s.
  induction r as [| |p|p|p|a IHa b IHb]; intros k k' prev s Hk; simpl.
  - destruct prev; [done|apply Hk].
  - destruct (xorb _ _); [apply Hk|done].
  - destruct s as [|c s]; [done|]. destruct (p c); [apply Hk|done].
  - by apply star_from_succeeds.
  - destruct s as [|c s]; [apply Hk|]. destruct (p c); [|apply Hk].
    destruct (k (Some c) s) eqn:E; simpl.
    + intros _. destruct (Hk (Some c) s) as [x ->]; [by rewrite E|]. by eexists.
    + intros H%Hk. destruct (k' (Some c) s); simpl; [by eexists|done].
  - apply IHa. intros q t. by apply IHb.
Qed.

(** [class*] before the accepting continuation takes the longest run. *)
Lemma star_from_accept p prev s :
  exists q, star_from p accept prev s = Some (q, lstrip_chars p s) /\
            (prev <> None -> q <> None).
Proof.
  revert prev. induction s as [|c s IH]; intros prev; simpl.
  - by exists prev.
  - destruct (p c); [|by exists prev].
    destruct (IH (Some c)) as (q & -> & Hq). simpl. exists q. split; [done|].
    intros _. by apply Hq.
Qed.

End AnchoredFacts.

(** ** What the strippers remove *)

Lemma lstrip_chars_length p s : length (lstrip_chars p s) <= length s.
Proof.
  induction s as [|c s IH]; simpl; [done|]. destruct (p c); simpl; lia.
Qed.

Lemma lstrip_chars_suffix p s : lstrip_chars p s `suffix_of` s.
Proof.
  induction s as [|c s IH]; simpl; [done|].
  destruct (p c); [by apply suffix_cons_r|done].
Qed.

Lemma lstrip_chars_run p run body :
  forallb p run = true ->
  match body with [] => True | c :: _ => p c = false end ->
  lstrip_chars p (run ++ body) = body.
Proof.
  intros Hrun Hbody. induction run as [|c run IH]; simpl.
  - destruct body as [|c body]; [done|]. simpl. by rewrite Hbody.
  - simpl in Hrun. apply andb_true_iff in Hrun as [-> Hrun]. by apply IH.
Qed.

Lemma lstrip_is_lstrip_chars s : lstrip s = lstrip_chars is_space s.
Proof. induction s as [|c s IH]; simpl; [done|]. by rewrite IH. Qed.

Lemma lstrip_suffix s : lstrip s `suffix_of` s.
Proof. rewrite lstrip_is_lstrip_chars. apply lstrip_chars_suffix. Qed.

Lemma rstrip_prefix s : rstrip s `prefix_of` s.
Proof.
  unfold rstrip. destruct (lstrip_suffix (rev s)) as [k Hk].
  exists (rev k). apply (f_equal (@rev N)) in Hk.
  by rewrite rev_involutive, rev_app_distr in Hk.
Qed.

Lemma part_of_refl s : part_of s s.
Proof. exists [], []. by rewrite app_nil_r. Qed.

Lemma part_of_trans a b c : part_of a b -> part_of b c -> part_of a c.
Proof.
  intros (p1 & q1 & ->) (p2 & q2 & ->). exists (p2 ++ p1), (q1 ++ q2).
  by rewrite <- !app_assoc.
Qed.

Lemma suffix_part_of a s : a `suffix_of` s -> part_of a s.
Proof. intros [k ->]. exists k, []. by rewrite app_nil_r. Qed.

Lemma prefix_part_of a s : a `prefix_of` s -> part_of a s.
Proof. intros [k ->]. by exists [], k. Qed.

Lemma part_of_length a s : part_of a s -> length a <= length s.
Proof. intros (p & q & ->). rewrite !length_app. lia. Qed.

Lemma strip_part_of s : part_of (strip s) s.
Proof.
  unfold strip. eapply part_of_trans.
  - apply prefix_part_of, rstrip_prefix.
  - apply suffix_part_of, lstrip_suffix.
Qed.

Section StripperMore.
Context {u : Ucd}.

Lemma re_sub_plus p s : re_sub (Seq Bol (Plus p)) s = lstrip_chars p s.
Proof.
  rewrite re_sub_anchored. unfold Plus. cbn [match_at].
  destruct s as [|c s]; [done|]. simpl. destruct (p c); [|done].
  by destruct (star_from_accept p (Some c) s) as (q & -> & _).
Qed.

(** X1. The first substitution of both strippers removes exactly the
    longest leading run of whitespace and bullet glyphs, and the one of the
    fallback parser the longest leading run of whitespace, glyphs, digits
    and periods; what follows the run is returned as it is. *)
Theorem X1_glyph_run_removed (s : str) :
  re_sub re_bullet_run s = lstrip_chars bullet_class s /\
  re_sub re_marker_run s
  = lstrip_chars (fun c => bullet_class c || is_decimal c || dot c) s.
Proof. split; apply re_sub_plus. Qed.

Lemma anchored_step_part_of r s : part_of (strip (re_sub (Seq Bol r) s)) s.
Proof.
  eapply part_of_trans; [apply strip_part_of|].
  apply suffix_part_of, re_sub_anchored_suffix.
Qed.

(** X2. The strippers of both variants only cut at the two ends: the
    result is a contiguous part of the text it was given, and it carries no
    whitespace at either end. *)
Theorem X2_stripper_cuts_at_the_ends (s : str) :
  (part_of (clean_bullet_text s) s /\ trimmed (clean_bullet_text s)) /\
  (part_of (clean_bullet_text_advanced s) s /\
   trimmed (clean_bullet_text_advanced s)).
Proof.
  split; (split; [|apply strip_trimmed]).
  - unfold clean_bullet_text.
    eapply part_of_trans; apply anchored_step_part_of.
  - unfold clean_bullet_text_advanced.
    eapply part_of_trans; [apply anchored_step_part_of|].
    eapply part_of_trans; apply anchored_step_part_of.
Qed.

Lemma anchored_step_length r s : length (strip (re_sub (Seq Bol r) s)) <= length s.
Proof. apply part_of_length, anchored_step_part_of. Qed.

(** A pattern that begins with a character, once it matches at the start,
    makes the substitution strictly shorter. *)
Lemma re_sub_shortens p (k : cont) r s :
  advances k ->
  (forall q t, match_at r accept q t = match_at (Cls p) k q t) ->
  is_Some (match_at r accept None s) ->
  length (re_sub (Seq Bol r) s) < length s.
Proof.
  intros Hk Hr [[p' rest] H]. rewrite re_sub_anchored, H.
  rewrite Hr in H. cbn [match_at] in H.
  destruct s as [|c s]; [done|]. destruct (p c); [|done].
  by destruct (advances_step k c s p' rest Hk H) as (_ & _ & Hl).
Qed.

Lemma bullet_lead_shortens s :
  re_match re_bullet_lead s = true ->
  length (re_sub re_bullet_run s) < length s.
Proof.
  intros H. unfold re_bullet_run. rewrite re_sub_plus.
  unfold re_match, re_bullet_lead in H. cbn [match_at] in H.
  destruct s as [|c s]; [done|]. simpl.
  destruct (bullet_class c); [|done].
  pose proof (lstrip_chars_length bullet_class s). simpl. lia.
Qed.

Lemma re_match_true r s : re_match r s = true -> is_Some (match_at r accept None s).
Proof. unfold re_match. destruct (match_at r accept None s); [by eexists|done]. Qed.

Lemma number_marker_shortens s :
  no_lead_space s -> re_match re_number_lead s = true ->
  length (re_sub re_number_marker s) < length s.
Proof.
  intros Hs H%re_match_true.
  change (is_Some (star_from is_space
            (match_at (Plus is_decimal) (match_at (Cls dot) accept)) None s)) in H.
  rewrite star_space_no_lead in H by done.
  apply (re_sub_shortens is_decimal
           (match_at (Star is_decimal)
              (match_at (Cls dot) (match_at (Star is_space) accept)))).
  - repeat apply match_at_advances. apply accept_advances.
  - done.
  - change (is_Some (match_at (Plus is_decimal)
              (match_at (Cls dot) (match_at (Star is_space) accept)) None s)).
    revert H. apply match_at_succeeds. intros q t.
    change (is_Some (match_at (Cls dot) accept q t) ->
            is_Some (match_at (Cls dot) (match_at (Star is_space) accept) q t)).
    apply match_at_succeeds. intros q' t' _.
    destruct (star_from_accept is_space q' t') as (x & Hx & _).
    cbn [match_at]. rewrite Hx. by eexists.
Qed.

Lemma letter_marker_shortens s :
  no_lead_space s -> re_match re_letter_lead s = true ->
  length (re_sub re_letter_marker s) < length s.
Proof.
  intros Hs H%re_match_true.
  change (is_Some (star_from is_space
            (match_at (Cls ascii_letter) (match_at (Cls dot) accept)) None s)) in H.
  rewrite star_space_no_lead in H by done.
  apply (re_sub_shortens ascii_letter
           (match_at (Cls dot) (match_at (Star is_space) accept))).
  - repeat apply match_at_advances. apply accept_advances.
  - done.
  - change (is_Some (match_at (Cls ascii_letter)
              (match_at (Cls dot) (match_at (Star is_space) accept)) None s)).
    revert H. apply match_at_succeeds. intros q t.
    change (is_Some (match_at (Cls dot) accept q t) ->
            is_Some (match_at (Cls dot) (match_at (Star is_space) accept) q t)).
    apply match_at_succeeds. intros q' t' _.
    destruct (star_from_accept is_space q' t') as (x & Hx & _).
    cbn [match_at]. rewrite Hx. by eexists.
Qed.

Lemma strip_length s : length (strip s) <= length s.
Proof. apply part_of_length, strip_part_of. Qed.

Lemma clean_bullet_text_shortens text :
  trimmed text ->
  re_match re_bullet_lead text || re_match re_number_lead text = true ->
  length (clean_bullet_text text) < length text.
Proof.
  intros Ht H. unfold clean_bullet_text.
  destruct (re_match re_bullet_lead text) eqn:Hb.
  - pose proof (bullet_lead_shortens text Hb).
    pose proof (strip_length (re_sub re_bullet_run text)).
    pose proof (anchored_step_length
                  (Seq (Plus is_decimal) (Seq (Cls dot) (Star is_space)))
                  (strip (re_sub re_bullet_run text))) as H2.
    change (Seq Bol (Seq (Plus is_decimal) (Seq (Cls dot) (Star is_space))))
      with re_number_marker in H2. lia.
  - simpl in H. rewrite bullet_run_no_match, (strip_id text) by done.
    pose proof (number_marker_shortens text (trimmed_no_lead _ Ht) H).
    pose proof (strip_length (re_sub re_number_marker text)). lia.
Qed.

Lemma clean_bullet_text_advanced_shortens text :
  trimmed text -> detect_bullet_point text = true ->
  length (clean_bullet_text_advanced text) < length text.
Proof.
  intros Ht H. pose proof (trimmed_no_lead _ Ht) as Hn.
  unfold clean_bullet_text_advanced.
  assert (Hlast : forall t,
    length (strip (re_sub re_letter_marker t)) <= length t).
  { intros t. apply (anchored_step_length
                       (Seq (Cls ascii_letter) (Seq (Cls dot) (Star is_space)))). }
  assert (Hmid : forall t,
    length (strip (re_sub re_number_marker t)) <= length t).
  { intros t. apply (anchored_step_length
                       (Seq (Plus is_decimal) (Seq (Cls dot) (Star is_space)))). }
  destruct (re_match re_bullet_lead text) eqn:Hb.
  - pose proof (bullet_lead_shortens text Hb).
    pose proof (strip_length (re_sub re_bullet_run text)).
    pose proof (Hmid (strip (re_sub re_bullet_run text))).
    pose proof (Hlast (strip (re_sub re_number_marker
                                (strip (re_sub re_bullet_run text))))). lia.
  - rewrite bullet_run_no_match, (strip_id text) by done.
    destruct (re_match re_number_lead text) eqn:Hnum.
    + pose proof (number_marker_shortens text Hn Hnum).
      pose proof (strip_length (re_sub re_number_marker text)).
      pose proof (Hlast (strip (re_sub re_number_marker text))). lia.
    + rewrite number_marker_no_match, (strip_id text) by done.
      assert (Hl : re_match re_letter_lead text = true).
      { unfold detect_bullet_point in H. rewrite Hnum in H.
        destruct text as [|c rest]; [done|].
        rewrite startswith_one_of in H.
        unfold re_match, re_bullet_lead in Hb. cbn [match_at] in Hb.
        unfold bullet_class in Hb.
        destruct (is_space c); [done|]. cbn [orb] in Hb.
        destruct (one_of bullet_glyphs c); [done|]. by cbn [orb] in H. }
      pose proof (letter_marker_shortens text Hn Hl).
      pose proof (strip_length (re_sub re_letter_marker text)). lia.
Qed.

(** X3. Detection and stripping agree. A text without surrounding
    whitespace that passes the marker tests of the ultra classifier is
    strictly shortened by the ultra stripper, and one that
    [detect_bullet_point] accepts is strictly shortened by the stripper of
    [add_bullet_point]: no detected marker is left in place. *)
Theorem X3_detected_marker_is_removed (text : str) :
  trimmed text ->
  (re_match re_bullet_lead text || re_match re_number_lead text = true ->
   length (clean_bullet_text text) < length text) /\
  (detect_bullet_point text = true ->
   length (clean_bullet_text_advanced text) < length text).
Proof.
  intros Ht. split.
  - by apply clean_bullet_text_shortens.
  - by apply clean_bullet_text_advanced_shortens.
Qed.

(** The stripper on a run of glyphs and whitespace followed by a body that
    carries no marker. *)
Lemma clean_bullet_text_run run body :
  forallb bullet_class run = true ->
  trimmed body ->
  re_match re_bullet_lead body || re_match re_number_lead body = false ->
  clean_bullet_text (run ++ body) = body.
Proof.
  intros Hrun Ht H. pose proof H as H'.
  apply orb_false_iff in H' as [Hb Hn].
  unfold clean_bullet_text at 1. unfold re_bullet_run. rewrite re_sub_plus.
  rewrite lstrip_chars_run; [|done|].
  - rewrite (strip_id body) by done.
    rewrite number_marker_no_match by (done || by apply trimmed_no_lead).
    by apply strip_id.
  - destruct body as [|c body]; [done|].
    unfold re_match, re_bullet_lead in Hb. cbn [match_at] in Hb.
    by destruct (bullet_class c).
Qed.

(** X4. A bullet line made of a run of bullet glyphs and whitespace and a
    body that has no surrounding whitespace and no marker of its own is
    stripped to exactly its body, and the block emitter appends for it one
    List Bullet paragraph holding the body (nothing when the body is
    empty). *)
Theorem X4_bullet_block_emits_body (doc : list node) (run body : str)
  (fs ind : Q) (f : str) :
  forallb bullet_class run = true ->
  trimmed body ->
  re_match re_bullet_lead body || re_match re_number_lead body = false ->
  clean_bullet_text (run ++ body) = body /\
  add_formatted_text_block doc
    {| type := bullet; block_text := run ++ body; font_size := fs; font := f;
       indent := ind |}
  = match body with
    | [] => doc
    | _ => doc ++ [Para (new_para body ListBullet)]
    end.
Proof.
  intros Hrun Ht H. pose proof (clean_bullet_text_run run body Hrun Ht H) as Hc.
  split; [done|]. unfold add_formatted_text_block. cbn [type block_text].
  rewrite Hc. by destruct body.
Qed.

End StripperMore.

Lemma X3_detected_marker_is_removed_witness :
  length (@clean_bullet_text ascii_ucd (py "12. item")) < length (py "12. item") /\
  length (@clean_bullet_text_advanced ascii_ucd (py "b. item")) < length (py "b. item").
Proof.
  split.
  - apply (proj1 (@X3_detected_marker_is_removed ascii_ucd (py "12. item")
                    ltac:(split; reflexivity))).
    reflexivity.
  - apply (proj2 (@X3_detected_marker_is_removed ascii_ucd (py "b. item")
                    ltac:(split; reflexivity))).
    reflexivity.
Defined.

Lemma X4_bullet_block_emits_body_witness :
  @clean_bullet_text ascii_ucd ([8226; 32]%N ++ py "Led a team") = py "Led a team" /\
  @add_formatted_text_block ascii_ucd []
    {| type := bullet; block_text := [8226; 32]%N ++ py "Led a team";
       font_size := 12; font := py "default"; indent := 0 |}
  = [] ++ [Para (new_para (py "Led a team") ListBullet)].
Proof.
  apply (@X4_bullet_block_emits_body ascii_ucd [] [8226; 32]%N (py "Led a team")
           12 0 (py "default")).
  - reflexivity.
  - split; reflexivity.
  - reflexivity.
Defined.

(** ** What the classifier needs to see *)

Section ContactFacts.
Context {u : Ucd}.

Lemma phone_needs_digit s : forall prev,
  Forall (fun c => is_decimal c = false) s -> search_from re_phone prev s = false.
Proof.
  induction s as [|c s IH]; intros prev Hs.
  - cbn. by destruct (xorb _ _).
  - apply Forall_cons in Hs as [Hc Hs].
    cbn [search_from]. rewrite (IH (Some c) Hs).
    unfold re_phone, digits3. cbn [match_at]. rewrite Hc.
    by destruct (xorb _ _).
Qed.

Lemma star_needs_at p (K : cont) s :
  (forall q, K q [] = None) ->
  (forall q c t, c <> 64%N -> K q (c :: t) = None) ->
  forall q, 64%N ∉ s -> star_from p K q s = None.
Proof.
  intros K0 K1. induction s as [|c s IH]; intros q Hs; [apply K0|].
  apply not_elem_of_cons in Hs as [Hc Hs].
  cbn [star_from]. rewrite (K1 q c s) by congruence.
  destruct (p c); [|done]. by rewrite (IH (Some c) Hs).
Qed.

Lemma email_needs_at s : forall prev,
  64%N ∉ s -> search_from re_email prev s = false.
Proof.
  induction s as [|c s IH]; intros prev Hs.
  - cbn. by destruct (xorb _ _).
  - cbn [search_from]. pose proof Hs as Hs'.
    apply not_elem_of_cons in Hs' as [Hc Hs'].
    rewrite (IH (Some c) Hs').
    unfold re_email, Plus. cbn [match_at].
    destruct (xorb _ _); [|done]. destruct (email_local c); [|done].
    rewrite star_needs_at; [done|done| |done].
    intros q d t Hd. destruct (N.eqb_spec 64 d); [congruence|done].
Qed.

Lemma digit_or_none s :
  Exists (fun c => is_decimal c = true) s \/
  Forall (fun c => is_decimal c = false) s.
Proof.
  induction s as [|c s [IH|IH]].
  - right. constructor.
  - left. by apply Exists_cons_tl.
  - destruct (is_decimal c) eqn:E.
    + left. by apply Exists_cons_hd.
    + right. by constructor.
Qed.

(** X5. The classifier gives [contact] only to a text that holds a decimal
    digit or the character [@]: without either, neither the phone pattern
    nor the e-mail pattern can match anywhere in the text. *)
Theorem X5_contact_needs_digit_or_at (text : str) (fs ind : Q) :
  classify_text_type text fs ind = contact ->
  Exists (fun c => is_decimal c = true) text \/ 64%N ∈ text.
Proof.
  intros H.
  destruct (decide (64%N ∈ text)) as [Hat|Hat]; [by right|]. left.
  destruct (digit_or_none text) as [He|Hd]; [done|]. exfalso.
  unfold classify_text_type, re_search in H.
  rewrite (phone_needs_digit text None Hd), (email_needs_at text None Hat) in H.
  repeat match type of H with
         | context [if ?b then _ else _] => destruct b
         end; discriminate.
Qed.

(** X6. On a text that does not begin with whitespace, whatever passes the
    marker tests of the ultra classifier is accepted by
    [detect_bullet_point] of the advanced variant. *)
Theorem X6_ultra_markers_are_detected (text : str) :
  no_lead_space text ->
  re_match re_bullet_lead text || re_match re_number_lead text = true ->
  detect_bullet_point text = true.
Proof.
  intros Hn H. unfold detect_bullet_point.
  destruct (re_match re_number_lead text); [by rewrite orb_true_r|].
  rewrite orb_false_r in H.
  destruct text as [|c rest]; [done|].
  rewrite startswith_one_of.
  unfold re_match, re_bullet_lead in H. cbn [match_at] in H.
  unfold bullet_class in H. simpl in Hn. rewrite Hn in H. cbn [orb] in H.
  by destruct (one_of bullet_glyphs c).
Qed.

End ContactFacts.

Lemma X5_contact_needs_digit_or_at_witness :
  Exists (fun c => @is_decimal ascii_ucd c = true) (py "john.doe@example.com") \/
  64%N ∈ py "john.doe@example.com".
Proof.
  apply (@X5_contact_needs_digit_or_at ascii_ucd (py "john.doe@example.com") 12 0).
  reflexivity.
Defined.

Lemma X6_ultra_markers_are_detected_witness :
  @detect_bullet_point ascii_ucd (py "- item") = true.
Proof.
  apply (@X6_ultra_markers_are_detected ascii_ucd (py "- item")).
  - reflexivity.
  - reflexivity.
Defined.

(** ** The blocks of a page *)

Section Keys.
Context {V : Type} (fresh : V) (add : char -> V -> V) (ndigits : nat).

Lemma group_step_keys d c k :
  k ∈ map fst (group_step fresh add ndigits d c)
  <-> k ∈ map fst d \/ k = py_round (y0 c) ndigits.
Proof.
  unfold group_step, dict_setdefault. rewrite dict_alter_keys.
  destruct (dict_mem _ d) eqn:E.
  - apply dict_mem_true in E. split; [by left|]. by intros [H| ->].
  - rewrite map_app, elem_of_app. simpl. by rewrite list_elem_of_singleton.
Qed.

Lemma group_fold_keys cs : forall d k,
  k ∈ map fst (fold_left (group_step fresh add ndigits) cs d)
  <-> k ∈ map fst d \/ k ∈ map (fun c => py_round (y0 c) ndigits) cs.
Proof.
  induction cs as [|c cs IH]; intros d k; simpl.
  - split; [by left|]. intros [H|H]; [done|]. by apply elem_of_nil in H.
  - rewrite IH, group_step_keys, elem_of_cons. tauto.
Qed.

Lemma group_lines_keys cs k :
  k ∈ map fst (group_lines fresh add ndigits cs)
  <-> k ∈ map (fun c => py_round (y0 c) ndigits) cs.
Proof.
  unfold group_lines. rewrite group_fold_keys. simpl.
  split; [|by right]. intros [H|H]; [|done]. by apply elem_of_nil in H.
Qed.

End Keys.

Lemma concat_nonempty_length {A} (ll : list (list A)) :
  Forall (fun l => l <> []) ll -> length ll <= length (concat ll).
Proof.
  induction 1 as [|l ll Hl _ IH]; simpl; [done|].
  rewrite length_app. destruct l; [done|]. simpl. lia.
Qed.

Lemma group_chars_count cs :
  length (group_chars cs) = length (remove_dups (map line_key cs)) /\
  length (group_chars cs) <= length cs.
Proof.
  destruct (group_chars_grouped cs) as [Hn Hp Hl]. split.
  - rewrite <- (length_map fst (group_chars cs)).
    apply Permutation_length, NoDup_Permutation; [done|apply NoDup_remove_dups|].
    intros k. rewrite elem_of_remove_dups. apply group_lines_keys.
  - rewrite <- (Permutation_length Hp). unfold dict_chars.
    rewrite <- (length_map (fun kv => chars (snd kv)) (group_chars cs)).
    apply concat_nonempty_length, Forall_map.
    eapply Forall_impl; [exact Hl|]. by intros kv [[H _] _].
Qed.

Section BlockFacts.
Context {u : Ucd}.

Lemma block_of_line_from blocks k ld :
  ultra_line_ok k ld ->
  exists b, block_of_line blocks (k, ld) = Ok (blocks ++ [b]) /\ block_from (k, ld) b.
Proof.
  intros Hok. pose proof Hok as [[Hne _] (Hs & Hf & _)].
  unfold block_of_line, block_from, block_of. simpl.
  destruct (line_text (sorted_chars (chars ld))) as [|c t] eqn:Ht.
  - exists empty_block. by rewrite <- Ht.
  - assert (Hs' : font_sizes ld <> []).
    { rewrite Hs. by destruct (chars ld). }
    assert (Hf' : fonts ld <> []).
    { rewrite Hf. by destruct (chars ld). }
    rewrite (average_nonempty _ Hs'). cbn [rbind].
    destruct (most_common_nonempty _ Hf') as (f & Hmc & Hin).
    rewrite Hmc. cbn [rbind].
    eexists. split; [done|]. cbn [block_text type font_size font indent].
    split; [exact Hok|]. split; [by repeat split|done].
Qed.

Lemma for_each_block_from lines : forall blocks,
  Forall (fun kv => ultra_line_ok (fst kv) (snd kv)) lines ->
  exists bs,
    for_each block_of_line lines blocks = Ok (blocks ++ bs) /\
    Forall2 block_from lines bs.
Proof.
  induction lines as [|[k ld] lines IH]; intros blocks Hall; cbn [for_each].
  - exists []. by rewrite app_nil_r.
  - apply Forall_cons in Hall as [Hl Hall].
    destruct (block_of_line_from blocks k ld Hl) as (b & -> & Hb). cbn [rbind].
    destruct (IH (blocks ++ [b]) Hall) as (bs & -> & Hbs).
    exists (b :: bs). split; [by rewrite <- app_assoc|]. by constructor.
Qed.

Lemma analyze_blocks_from cs :
  exists blocks,
    analyze_text_blocks cs = Ok blocks /\
    Forall2 block_from (sorted_lines (group_chars cs)) blocks.
Proof.
  unfold analyze_text_blocks.
  destruct (for_each_block_from (sorted_lines (group_chars cs)) [])
    as (bs & Hok & Hbs).
  - rewrite (sorted_lines_perm (group_chars cs)).
    apply (g_lines _ _ _ _ (group_chars_grouped cs)).
  - exists bs. by split.
Qed.

Lemma Forall2_Forall_right {A B} (R : A -> B -> Prop) (P : B -> Prop) l k :
  (forall a b, R a b -> P b) -> Forall2 R l k -> Forall P k.
Proof. intros H. induction 1; constructor; eauto. Qed.

(** X7. The analysis makes one block for each distinct rounded vertical
    position among the characters, so never more blocks than characters
    (and none for no character). *)
Theorem X7_one_block_per_line (cs : list char) :
  exists blocks,
    analyze_text_blocks cs = Ok blocks /\
    length blocks = length (remove_dups (map line_key cs)) /\
    length blocks <= length cs.
Proof.
  destruct (analyze_blocks_from cs) as (blocks & Hok & Hb).
  exists blocks. split; [done|].
  apply Forall2_length in Hb.
  rewrite (Permutation_length (sorted_lines_perm (group_chars cs))) in Hb.
  rewrite <- Hb. apply group_chars_count.
Qed.

(** X8. The text of every block carries no whitespace at either end, and a
    block is of kind [empty] exactly when its text is empty: a line of
    whitespace gives an [empty] block, every other line a block of one of
    the classifier's kinds. *)
Theorem X8_block_text_trimmed (cs : list char) :
  exists blocks,
    analyze_text_blocks cs = Ok blocks /\
    Forall (fun b => trimmed (block_text b) /\
                     (type b = empty <-> block_text b = [])) blocks.
Proof.
  destruct (analyze_blocks_from cs) as (blocks & Hok & Hb).
  exists blocks. split; [done|].
  eapply Forall2_Forall_right; [|exact Hb].
  intros kv b (_ & [Ht Hk] & _). split.
  - rewrite Ht. apply strip_trimmed.
  - destruct (block_text b) as [|c t] eqn:E.
    + by rewrite Hk.
    + destruct Hk as (Hty & _). split; [|done]. intros He.
      pose proof (classify_text_type_kind (c :: t) (font_size b) (indent b)) as Hin.
      rewrite <- Hty, He in Hin. simpl in Hin.
      repeat (destruct Hin as [Hin|Hin]; [discriminate|]). done.
Qed.

End BlockFacts.

(** ** Indent, font and font size of a block *)

Lemma min_fold_spec rest : forall m,
  let r := fold_left (fun m y => if Qgtb m y then y else m) rest m in
  In r (m :: rest) /\ (r <= m)%Q /\ Forall (fun x => (r <= x)%Q) rest.
Proof.
  induction rest as [|y rest IH]; intros m; simpl.
  - split; [by left|]. split; [apply Qle_refl|constructor].
  - destruct (IH (if Qgtb m y then y else m)) as (Hin & Hle & Hall).
    set (r := fold_left _ rest _) in *.
    assert (Hm : ((if Qgtb m y then y else m) <= m)%Q /\
                 ((if Qgtb m y then y else m) <= y)%Q).
    { unfold Qgtb. destruct (Qle_bool m y) eqn:E; simpl.
      - apply Qle_bool_iff in E. split; [apply Qle_refl|done].
      - split; [|apply Qle_refl]. apply Qlt_le_weak, Qnot_le_lt.
        intros H. apply Qle_bool_iff in H. congruence. }
    destruct Hm as [Hm Hy]. split; [|split].
    + destruct Hin as [Hin|Hin]; [|by right; right].
      rewrite <- Hin. destruct (Qgtb m y); [right; by left|by left].
    + by eapply Qle_trans.
    + constructor; [by eapply Qle_trans|done].
Qed.

Lemma min_or_zero_spec xs :
  xs <> [] ->
  In (min_or_zero xs) xs /\ Forall (fun x => (min_or_zero xs <= x)%Q) xs.
Proof.
  destruct xs as [|x rest]; [done|]. intros _. unfold min_or_zero.
  destruct (min_fold_spec rest x) as (Hin & Hle & Hall).
  split; [done|]. by constructor.
Qed.

Lemma most_common_fold_spec fonts rest : forall best,
  let r := fold_left (fun best g =>
                        if count_of best fonts <? count_of g fonts then g else best)
                     rest best in
  count_of best fonts <= count_of r fonts /\
  Forall (fun g => count_of g fonts <= count_of r fonts) rest.
Proof.
  induction rest as [|g rest IH]; intros best; simpl; [split; [done|constructor]|].
  destruct (IH (if count_of best fonts <? count_of g fonts then g else best))
    as [Hb Hall].
  set (r := fold_left _ rest _) in *.
  destruct (Nat.ltb_spec (count_of best fonts) (count_of g fonts)).
  - split; [lia|]. constructor; [lia|done].
  - split; [lia|]. constructor; [lia|done].
Qed.

Lemma most_common_spec fonts f :
  most_common fonts = Ok f ->
  f ∈ fonts /\ forall g, g ∈ fonts -> count_of g fonts <= count_of f fonts.
Proof.
  unfold most_common. destruct (remove_dups fonts) as [|f0 rest] eqn:E; [done|].
  intros [= <-]. split.
  - apply elem_of_remove_dups. rewrite E. apply most_common_pick.
  - intros g Hg. apply elem_of_remove_dups in Hg. rewrite E in Hg.
    destruct (most_common_fold_spec fonts rest f0) as [Hb Hall].
    apply elem_of_cons in Hg as [->|Hg]; [done|].
    by apply (proj1 (Forall_forall _ _) Hall).
Qed.

Section BlockAttributes.
Context {u : Ucd}.

(** X9. The indent of every block with text is the horizontal position of
    the leftmost character of its line: it is the position of one of the
    line's characters, and no character of the line lies further left. *)
Theorem X9_indent_is_leftmost (cs : list char) :
  exists blocks,
    analyze_text_blocks cs = Ok blocks /\
    Forall2 (fun l b =>
               block_text b <> [] ->
               (exists c, c ∈ snd l /\ indent b = x0 c) /\
               Forall (fun c => (indent b <= x0 c)%Q) (snd l))
            (ultra_lines cs) blocks.
Proof.
  destruct (analyze_blocks_from cs) as (blocks & Hok & Hb).
  exists blocks. split; [done|].
  unfold ultra_lines, lines_of. apply Forall2_fmap_l.
  eapply Forall2_impl; [exact Hb|].
  intros [k ld] b ([[Hne _] (_ & _ & Hx)] & [Ht Hk] & _) Htext. simpl in *.
  destruct (block_text b) as [|c t]; [done|].
  destruct Hk as (_ & _ & _ & Hind).
  destruct (min_or_zero_spec (x_positions ld)) as [Hin Hall].
  { rewrite Hx. by destruct (chars ld). }
  rewrite <- Hind, Hx in Hin, Hall. split.
  - apply in_map_iff in Hin as (c' & Hc' & Hin). exists c'. split; [|done].
    rewrite (sorted_chars_perm (chars ld)). by apply list_elem_of_In.
  - rewrite (sorted_chars_perm (chars ld)).
    apply Forall_forall. intros c0 Hc0.
    apply (proj1 (Forall_forall _ _) Hall). by apply list_elem_of_fmap_2.
Qed.

(** X10. The font of every block with text is a most frequent font name
    among the characters of its line, a character without a font name
    counting as "default". *)
Theorem X10_font_is_most_frequent (cs : list char) :
  exists blocks,
    analyze_text_blocks cs = Ok blocks /\
    Forall2 (fun kv b =>
               block_text b <> [] ->
               fonts (snd kv)
               = map (fun c => default (py "default") (fontname c)) (chars (snd kv)) /\
               font b ∈ fonts (snd kv) /\
               forall g, g ∈ fonts (snd kv) ->
                 count_of g (fonts (snd kv)) <= count_of (font b) (fonts (snd kv)))
            (sorted_lines (group_chars cs)) blocks.
Proof.
  destruct (analyze_blocks_from cs) as (blocks & Hok & Hb).
  exists blocks. split; [done|].
  eapply Forall2_impl; [exact Hb|].
  intros [k ld] b ([_ (_ & Hf & _)] & _ & Hmc) Htext. simpl in *.
  split; [done|]. by apply most_common_spec, Hmc.
Qed.

End BlockAttributes.

Lemma inject_succ n :
  (inject_Z (Z.of_nat (S n)) == inject_Z (Z.of_nat n) + 1)%Q.
Proof. rewrite Nat2Z.inj_succ. unfold Z.succ. rewrite inject_Z_plus. reflexivity. Qed.

Lemma Qsum_fold_lower a l : forall acc,
  Forall (fun x => (a <= x)%Q) l ->
  (acc + inject_Z (Z.of_nat (length l)) * a <= fold_left Qplus l acc)%Q.
Proof.
  induction l as [|x l IH]; intros acc Hl.
  - cbn [fold_left length]. change (inject_Z (Z.of_nat 0)) with 0%Q. lra.
  - apply Forall_cons in Hl as [Hx Hl]. cbn [fold_left length].
    specialize (IH (acc + x)%Q Hl). rewrite inject_succ. lra.
Qed.

Lemma Qsum_fold_upper b l : forall acc,
  Forall (fun x => (x <= b)%Q) l ->
  (fold_left Qplus l acc <= acc + inject_Z (Z.of_nat (length l)) * b)%Q.
Proof.
  induction l as [|x l IH]; intros acc Hl.
  - cbn [fold_left length]. change (inject_Z (Z.of_nat 0)) with 0%Q. lra.
  - apply Forall_cons in Hl as [Hx Hl]. cbn [fold_left length].
    specialize (IH (acc + x)%Q Hl). rewrite inject_succ. lra.
Qed.

Lemma inject_length_pos {A} (x : A) l :
  (0 < inject_Z (Z.of_nat (length (x :: l))))%Q.
Proof.
  change 0%Q with (inject_Z 0). rewrite <- Zlt_Qlt. simpl length. lia.
Qed.

(** The average of sizes that all exceed a bound exceeds it; the average of
    sizes within a bound is within it. *)
Lemma average_above a l avg :
  average l = Ok avg -> Forall (fun x => (a < x)%Q) l -> (a < avg)%Q.
Proof.
  destruct l as [|x l]; [done|]. unfold average.
  cbn [length]. intros [= <-] Hl.
  apply Forall_cons in Hl as [Hx Hl].
  apply Qlt_shift_div_l; [apply (inject_length_pos x l)|].
  unfold Qsum. cbn [fold_left].
  assert (Hl' : Forall (fun y => (a <= y)%Q) l).
  { eapply Forall_impl; [exact Hl|]. intros y. apply Qlt_le_weak. }
  pose proof (Qsum_fold_lower a l (0 + x)%Q Hl') as H.
  rewrite (inject_succ (length l)). lra.
Qed.

Lemma average_within b l avg :
  average l = Ok avg -> Forall (fun x => (x <= b)%Q) l -> (avg <= b)%Q.
Proof.
  destruct l as [|x l]; [done|]. unfold average.
  cbn [length]. intros [= <-] Hl.
  apply Qle_shift_div_r; [apply (inject_length_pos x l)|].
  unfold Qsum. pose proof (Qsum_fold_upper b (x :: l) 0%Q Hl) as H.
  cbn [length] in H. lra.
Qed.

Lemma Qgtb_true a b : (b < a)%Q -> Qgtb a b = true.
Proof.
  intros H. unfold Qgtb. destruct (Qle_bool a b) eqn:E; [|done].
  apply Qle_bool_iff in E. lra.
Qed.

Lemma Qgtb_false a b : (a <= b)%Q -> Qgtb a b = false.
Proof. intros H. unfold Qgtb. apply Qle_bool_iff in H. by rewrite H. Qed.

Lemma dict_chars_elem {V} (proj : V -> list char) (d : dict V) kv c :
  kv ∈ d -> c ∈ proj (snd kv) -> c ∈ dict_chars proj d.
Proof.
  intros Hkv Hc. unfold dict_chars. apply list_elem_of_In, in_concat.
  exists (proj (snd kv)). split; [|by apply list_elem_of_In].
  apply in_map_iff. exists kv. split; [done|]. by apply list_elem_of_In.
Qed.

Section FontSizes.
Context {u : Ucd}.

(** The sizes a line averages are those of characters of the page. *)
Lemma line_sizes_Forall (P : Q -> Prop) cs :
  Forall (fun c => P (default 12%Q (size c))) cs ->
  Forall (fun kv => Forall P (font_sizes (snd kv))) (sorted_lines (group_chars cs)).
Proof.
  intros Hcs. destruct (group_chars_grouped cs) as [_ Hp Hl].
  rewrite (sorted_lines_perm (group_chars cs)).
  apply Forall_forall. intros kv Hkv.
  pose proof (proj1 (Forall_forall _ _) Hl kv Hkv) as [_ (Hs & _)].
  rewrite Hs. apply Forall_forall. intros x Hx.
  apply list_elem_of_fmap in Hx as (c & -> & Hc).
  apply (proj1 (Forall_forall _ _) Hcs).
  rewrite <- Hp. by eapply dict_chars_elem.
Qed.

Lemma Forall2_Forall_left {A B} (R : A -> B -> Prop) (P : A -> Prop)
  (S : B -> Prop) l k :
  (forall a b, P a -> R a b -> S b) -> Forall P l -> Forall2 R l k -> Forall S k.
Proof.
  intros H Hl HR. revert Hl. induction HR; intros Hl; [constructor|].
  apply Forall_cons in Hl as [Ha Hl]. constructor; eauto.
Qed.

(** X11. When every character of a page has a font size above 16, every
    line with text becomes a [heading1] block: the average of the sizes of
    a line exceeds 16 whatever the line holds. *)
Theorem X11_large_font_lines_are_heading1 (cs : list char) :
  Forall (fun c => (16 < default 12 (size c))%Q) cs ->
  exists blocks,
    analyze_text_blocks cs = Ok blocks /\
    Forall (fun b => type b = empty \/ type b = heading1) blocks.
Proof.
  intros Hcs. destruct (analyze_blocks_from cs) as (blocks & Hok & Hb).
  exists blocks. split; [done|].
  eapply Forall2_Forall_left; [|apply (line_sizes_Forall _ cs Hcs)|exact Hb].
  intros kv b Hsz (_ & [_ Hk] & _). simpl in Hsz.
  destruct (block_text b) as [|c t]; [left; by rewrite Hk|]. right.
  destruct Hk as (Hty & Havg & _). rewrite Hty.
  unfold classify_text_type.
  by rewrite (Qgtb_true _ _ (average_above 16 _ _ Havg Hsz)).
Qed.

Lemma classify_small_font text fs ind :
  (fs <= 14)%Q ->
  classify_text_type text fs ind <> heading1 /\
  (classify_text_type text fs ind = heading2 ->
   isupper text = true /\ length text < 50).
Proof.
  intros Hfs. unfold classify_text_type.
  rewrite (Qgtb_false fs 16) by lra. rewrite (Qgtb_false fs 14) by done.
  destruct (isupper text) eqn:Hu; simpl.
  - destruct (Nat.ltb_spec (length text) 50).
    + by split.
    + split; repeat match goal with
                    | |- context [if ?b then _ else _] => destruct b
                    end; done.
  - split; repeat match goal with
                  | |- context [if ?b then _ else _] => destruct b
                  end; done.
Qed.

(** X12. When no character of a page has a font size above 14 (in
    particular when the characters carry no size at all, and count as 12),
    no line becomes a [heading1] block, and a line becomes a [heading2]
    block only through the all-uppercase rule: its text is all uppercase
    and shorter than 50 characters. *)
Theorem X12_small_font_headings_are_caps (cs : list char) :
  Forall (fun c => (default 12 (size c) <= 14)%Q) cs ->
  exists blocks,
    analyze_text_blocks cs = Ok blocks /\
    Forall (fun b => type b <> heading1 /\
                     (type b = heading2 ->
                      isupper (block_text b) = true /\ length (block_text b) < 50))
           blocks.
Proof.
  intros Hcs. destruct (analyze_blocks_from cs) as (blocks & Hok & Hb).
  exists blocks. split; [done|].
  eapply Forall2_Forall_left;
    [|apply (line_sizes_Forall (fun x => (x <= 14)%Q) cs Hcs)|exact Hb].
  intros kv b Hsz (_ & [_ Hk] & _). simpl in Hsz.
  destruct (block_text b) as [|c t]; [by rewrite Hk|].
  destruct Hk as (Hty & Havg & _). rewrite Hty.
  apply classify_small_font. by eapply average_within.
Qed.

End FontSizes.

Lemma X11_large_font_lines_are_heading1_witness :
  exists blocks,
    @analyze_text_blocks ascii_ucd
      [ {| text := py "T"; x0 := 10; y0 := 700; size := Some 18%Q; fontname := None |};
        {| text := py "o"; x0 := 20; y0 := 700; size := Some 20%Q; fontname := None |} ]
    = Ok blocks /\
    Forall (fun b => type b = empty \/ type b = heading1) blocks.
Proof.
  apply (@X11_large_font_lines_are_heading1 ascii_ucd).
  repeat constructor.
Defined.

Lemma X12_small_font_headings_are_caps_witness :
  exists blocks,
    @analyze_text_blocks ascii_ucd four_chars = Ok blocks /\
    Forall (fun b => type b <> heading1 /\
                     (type b = heading2 ->
                      @isupper ascii_ucd (block_text b) = true /\
                      length (block_text b) < 50))
           blocks.
Proof.
  apply (@X12_small_font_headings_are_caps ascii_ucd four_chars).
  repeat constructor; discriminate.
Defined.

(** ** When the table emitter returns *)



(** ** A grid that does not fit *)

Lemma emit_table_returns st size doc data doc' :
  emit_table st size doc data = Ok doc' -> ~ overflows data.
Proof.
  intros H (first & rest & r & k & c & s & -> & Hl & Hk).
  pose proof (emit_table_spec st size doc first rest) as Hs. rewrite H in Hs.
  destruct Hs as (rows & _ & _ & _ & _ & Hfit). apply Hfit in Hl. lia.
Qed.

Lemma emit_tables_returns st size tables : forall doc doc',
  for_each (emit_table st size) tables doc = Ok doc' ->
  forall data, data ∈ tables -> ~ overflows data.
Proof.
  induction tables as [|data tables IH]; intros doc doc'; cbn [for_each].
  - intros _ data H. by apply elem_of_nil in H.
  - destruct (emit_table st size doc data) as [doc1|e1] eqn:E; cbn [rbind]; [|done].
    intros H data' [->|Hin]%elem_of_cons.
    + by eapply emit_table_returns.
    + by eapply IH.
Qed.

Section Returns.
Context (st : tstyle) (size : option Z).
Context (text_of : list node -> page -> result (list node)).

Lemma page_step_returns doc page_num p doc' :
  page_step st size text_of doc page_num p = Ok doc' ->
  forall data, data ∈ extract_tables p -> ~ overflows data.
Proof.
  unfold page_step.
  destruct (for_each _ (extract_tables p) _) as [doc1|e1] eqn:E; cbn [rbind]; [|done].
  intros _. by eapply emit_tables_returns.
Qed.

(** A page loop that returns has met no grid that overflows, whatever the
    text part of a page does. *)
Lemma page_loop_returns pages : forall page_num doc doc',
  for_enumerate (page_step st size text_of) page_num pages doc = Ok doc' ->
  forall p data, p ∈ pages -> data ∈ extract_tables p -> ~ overflows data.
Proof.
  induction pages as [|p pages IH]; intros page_num doc doc'; cbn [for_enumerate].
  - intros _ p data H. by apply elem_of_nil in H.
  - destruct (page_step st size text_of doc page_num p) as [doc1|e1] eqn:E;
      cbn [rbind]; [|done].
    intros H p' data [->|Hin]%elem_of_cons Hd.
    + by eapply page_step_returns.
    + by eapply IH.
Qed.

End Returns.

(** X14. A document that holds, on any page, a grid with a non-empty value
    beyond the width of the grid's first row is never converted: in either
    variant the conversion raises, whatever the other pages and grids hold,
    and the main program saves no document. Put the other way round, a
    conversion that returns has met no such grid. *)
Theorem X14_conversion_raises_on_overflow {u : Ucd} (pages : list page) :
  (exists p data, p ∈ pages /\ data ∈ extract_tables p /\ overflows data) ->
  (exists e, ultra_preserve_formatting (Ok pages) = Raise e) /\
  (exists e, extract_with_tables_and_formatting (Ok pages) = Raise e) /\
  (forall w, env_open w (read_path w) = Ok pages ->
     saved (ultra_main w) = None /\ saved (advanced_main w) = None).
Proof.
  intros (p & data & Hp & Hd & Ho).
  assert (Hu : exists e, ultra_preserve_formatting (Ok pages) = Raise e).
  { unfold ultra_preserve_formatting. cbn [rbind].
    change ultra_page with (page_step LightGridAccent1 (Some 11%Z) page_text).
    destruct (for_enumerate _ 1 pages []) as [doc|e] eqn:E; cbn [rbind].
    - exfalso. by eapply page_loop_returns.
    - by exists e. }
  assert (Ha : exists e, extract_with_tables_and_formatting (Ok pages) = Raise e).
  { unfold extract_with_tables_and_formatting. cbn [rbind].
    change advanced_page with (page_step TableGrid None advanced_page_text).
    destruct (for_enumerate _ 1 pages []) as [doc|e] eqn:E; cbn [rbind].
    - exfalso. by eapply page_loop_returns.
    - by exists e. }
  split; [done|]. split; [done|]. intros w Hw.
  destruct Hu as [e1 He1]. destruct Ha as [e2 He2]. rewrite <- Hw in He1, He2.
  split.
  - unfold ultra_main.
    destruct (env_requirements w); rewrite ?(try_convert_raise _ _ _ _ _ He1); done.
  - unfold advanced_main. by rewrite (try_convert_raise _ _ _ _ _ He2).
Qed.

Lemma X14_conversion_raises_on_overflow_witness :
  ((exists e, @ultra_preserve_formatting ascii_ucd (Ok [bad_page]) = Raise e) /\
   (exists e, @extract_with_tables_and_formatting ascii_ucd (Ok [bad_page]) = Raise e) /\
   (forall w, env_open w (read_path w) = Ok [bad_page] ->
      saved (@ultra_main ascii_ucd w) = None /\
      saved (@advanced_main ascii_ucd w) = None)) /\
  @ultra_preserve_formatting ascii_ucd (Ok [bad_page]) = Raise IndexError /\
  @extract_with_tables_and_formatting ascii_ucd (Ok [bad_page]) = Raise IndexError.
Proof.
  split; [|split; reflexivity].
  apply (@X14_conversion_raises_on_overflow ascii_ucd [bad_page]).
  exists bad_page, [[Some (py "a")]; [Some (py "b"); Some (py "c")]].
  split; [by apply elem_of_cons; left|].
  split; [by apply elem_of_cons; left|].
  exists [Some (py "a")], [[Some (py "b"); Some (py "c")]], 1, 1, 99%N, [].
  split; [reflexivity|]. split; [reflexivity|]. simpl. lia.
Defined.

(** ** Counting the nodes of a document *)

Lemma count_nodes_app f a b : count_nodes f (a ++ b) = count_nodes f a + count_nodes f b.
Proof. unfold count_nodes. by rewrite List.filter_app, length_app. Qed.

Lemma count_nodes_para f ns :
  (forall p, f (Para p) = false) -> Forall is_para ns -> count_nodes f ns = 0.
Proof.
  intros Hf. unfold count_nodes. induction 1 as [|n ns Hn _ IH]; [done|].
  destruct n as [p| |]; try done. simpl. by rewrite Hf.
Qed.

Lemma count_table_nodes st size tables :
  count_nodes is_table (concat (map (table_nodes st size) tables))
  = length (List.filter has_rows tables) /\
  count_nodes is_break (concat (map (table_nodes st size) tables)) = 0.
Proof.
  induction tables as [|data tables [IH1 IH2]]; [done|].
  cbn [map concat]. rewrite !count_nodes_app, IH1, IH2.
  by destruct data.
Qed.

Lemma layout_counts st size pages : forall page_num texts,
  1 <= page_num ->
  Forall2 (fun (p : page) x => Forall is_para x) pages texts ->
  count_nodes is_table (layout st size page_num pages texts)
  = length (List.filter has_rows (concat (map extract_tables pages))) /\
  count_nodes is_break (layout st size page_num pages texts)
  = if 1 <? page_num then length pages else pred (length pages).
Proof.
  induction pages as [|p pages IH]; intros page_num texts Hn Hall.
  - apply Forall2_nil_inv_l in Hall as ->. by destruct (1 <? page_num).
  - apply Forall2_cons_inv_l in Hall as (x & texts' & Hx & Hall & ->).
    cbn [layout map concat]. unfold page_nodes.
    destruct (IH (S page_num) texts' ltac:(lia) Hall) as [IH1 IH2].
    destruct (count_table_nodes st size (extract_tables p)) as [Ht Hb].
    rewrite !count_nodes_app, IH1, IH2, Ht, Hb.
    rewrite !(count_nodes_para _ x) by done.
    rewrite List.filter_app, length_app.
    destruct (Nat.ltb_spec 1 (S page_num)); [|lia].
    destruct (1 <? page_num); simpl; split; lia.
Qed.

(** X15. In the document of every run that returns, of either variant,
    the page breaks are one fewer than the pages (none for no page), and
    the tables are as many as the grids with at least one row, over all
    pages. *)
Theorem X15_breaks_and_tables_counted {u : Ucd} (pages : list page) (d : document) :
  ultra_preserve_formatting (Ok pages) = Ok d \/
  extract_with_tables_and_formatting (Ok pages) = Ok d ->
  count_nodes is_break (body d) = pred (length pages) /\
  count_nodes is_table (body d)
  = length (List.filter has_rows (concat (map extract_tables pages))).
Proof.
  unfold ultra_preserve_formatting, extract_with_tables_and_formatting.
  cbn [rbind].
  change ultra_page with (page_step LightGridAccent1 (Some 11%Z) page_text).
  change advanced_page with (page_step TableGrid None advanced_page_text).
  intros [H|H].
  - destruct (for_enumerate _ 1 pages []) as [doc|e] eqn:E; [|done].
    cbn [rbind] in H. injection H as <-.
    apply (page_loop_nodes _ _ _ page_text_nodes) in E as (texts & Hall & ->).
    simpl. destruct (layout_counts LightGridAccent1 (Some 11%Z) pages 1 texts)
      as [Ht Hb]; [lia| |done].
    eapply Forall2_impl; [exact Hall|]. by intros p x [_ Hx].
  - destruct (for_enumerate _ 1 pages []) as [doc|e] eqn:E; [|done].
    cbn [rbind] in H. injection H as <-.
    apply (page_loop_nodes _ _ _ advanced_page_text_nodes) in E as (texts & Hall & ->).
    simpl. destruct (layout_counts TableGrid None pages 1 texts)
      as [Ht Hb]; [lia| |done].
    eapply Forall2_impl; [exact Hall|]. by intros p x [_ Hx].
Qed.

Lemma X15_breaks_and_tables_counted_witness :
  exists d,
    @ultra_preserve_formatting ascii_ucd (Ok two_pages) = Ok d /\
    count_nodes is_break (body d) = 1 /\
    count_nodes is_table (body d) = 1.
Proof.
  eexists. split; [reflexivity|].
  apply (@X15_breaks_and_tables_counted ascii_ucd two_pages).
  left. reflexivity.
Defined.

(** ** The headings of the advanced variant and of the fallback *)

Section Headings.
Context {u : Ucd}.

Lemma caps_heading2_intro t :
  isupper t && (length t <? 50) = true ->
  caps_heading2 (Para (new_para t (HeadingStyle 2))).
Proof.
  intros [Hu Hl%Nat.ltb_lt]%andb_true_iff. simpl. split; [done|].
  exists t. destruct t as [|c t]; [done|]. by repeat split.
Qed.

Lemma add_bullet_point_caps text : Forall caps_heading2 (add_bullet_point [] text).
Proof.
  unfold add_bullet_point.
  destruct (clean_bullet_text_advanced text); appended; by repeat constructor.
Qed.

Lemma add_formatted_paragraph_caps text :
  Forall caps_heading2 (add_formatted_paragraph [] text).
Proof.
  unfold add_formatted_paragraph. destruct (strip text) as [|c s]; [constructor|].
  destruct (detect_bullet_point (c :: s)); [apply add_bullet_point_caps|].
  destruct (isupper (c :: s) && (length (c :: s) <? 50)) eqn:E.
  - unfold add_heading, add_paragraph. constructor; [|constructor].
    by apply caps_heading2_intro.
  - destruct (has_keyword emphasis_keywords (c :: s)); appended;
      by repeat constructor.
Qed.

Lemma advanced_fallback_line_caps line :
  Forall caps_heading2 (advanced_fallback_line [] line).
Proof.
  unfold advanced_fallback_line. destruct (strip line) as [|c s]; [constructor|].
  destruct (detect_bullet_point (c :: s)); [apply add_bullet_point_caps|].
  destruct (isupper (c :: s) && (length (c :: s) <? 50)) eqn:E.
  - unfold add_heading, add_paragraph. constructor; [|constructor].
    by apply caps_heading2_intro.
  - appended. by repeat constructor.
Qed.

Lemma smart_line_caps line : Forall caps_heading2 (smart_line [] line).
Proof.
  unfold smart_line. destruct (strip line) as [|c s].
  - appended. by repeat constructor.
  - destruct (isupper (c :: s) && (length (c :: s) <? 50)) eqn:E.
    + unfold add_heading, add_paragraph. constructor; [|constructor].
      by apply caps_heading2_intro.
    + repeat match goal with
             | |- context [if ?b then _ else _] => destruct b
             | |- context [match ?x with [] => _ | _ :: _ => _ end] => destruct x
             end; appended; by repeat constructor.
Qed.

Lemma table_nodes_caps st size data : Forall caps_heading2 (table_nodes st size data).
Proof. destruct data; by repeat constructor. Qed.

Lemma advanced_line_caps doc current line doc' current' :
  advanced_line (doc, current) line = Ok (doc', current') ->
  Forall caps_heading2 doc -> Forall caps_heading2 doc'.
Proof.
  unfold advanced_line. intros H Hdoc.
  destruct (line_text (sorted_chars (snd line))) as [|c s].
  - destruct current as [|t ts]; injection H as <- <-; [done|].
    rewrite add_formatted_paragraph_app. apply Forall_app. split; [done|].
    apply add_formatted_paragraph_caps.
  - destruct (average _) as [avg|e]; [|done]. cbn [rbind] in H.
    destruct (Qgtb avg 14 || isupper (c :: s) || (length (c :: s) <? 50)).
    2:{ by injection H as <- <-. }
    destruct current as [|t ts]; [by injection H as <- <-|].
    assert (Hp : Forall caps_heading2
                   (add_formatted_paragraph doc (para_text (t :: ts)))).
    { rewrite add_formatted_paragraph_app. apply Forall_app. split; [done|].
      apply add_formatted_paragraph_caps. }
    destruct (isupper (c :: s) && (length (c :: s) <? 30)) eqn:E.
    + injection H as <- <-. unfold add_heading, add_paragraph.
      apply Forall_app. split; [done|]. constructor; [|constructor].
      apply caps_heading2_intro.
      apply andb_true_iff in E as [-> Hl%Nat.ltb_lt]. simpl.
      apply Nat.ltb_lt. simpl in Hl. lia.
    + injection H as <- <-. unfold add_paragraph.
      rewrite !on_last_para_app.
      destruct (Qgtb avg 14); rewrite ?on_last_para_app;
        (apply Forall_app; split; [done|]; by repeat constructor).
Qed.

Lemma for_each_advanced_line_caps lines : forall doc current doc' current',
  for_each advanced_line lines (doc, current) = Ok (doc', current') ->
  Forall caps_heading2 doc -> Forall caps_heading2 doc'.
Proof.
  induction lines as [|line lines IH]; intros doc current doc' current';
    cbn [for_each].
  - by intros [= <- <-].
  - destruct (advanced_line (doc, current) line) as [[doc1 cur1]|e] eqn:E; [|done].
    cbn [rbind]. intros H Hdoc. eapply IH; [exact H|].
    by eapply advanced_line_caps.
Qed.

Lemma advanced_page_text_caps doc p doc' :
  advanced_page_text doc p = Ok doc' ->
  Forall caps_heading2 doc -> Forall caps_heading2 doc'.
Proof.
  unfold advanced_page_text. intros H Hdoc. destruct (page_chars p) as [|c cs].
  - destruct (extract_text p) as [[|c s]|]; injection H as <-; try done.
    rewrite (fold_left_appends advanced_fallback_line _ advanced_fallback_line_app).
    apply Forall_app. split; [done|].
    apply Forall_concat_map, advanced_fallback_line_caps.
  - destruct (for_each _ _ (doc, [])) as [[doc1 cur]|e] eqn:E; [|done].
    cbn [rbind] in H.
    pose proof (for_each_advanced_line_caps _ _ _ _ _ E Hdoc) as H1.
    destruct cur as [|t ts]; injection H as <-; [done|].
    rewrite add_formatted_paragraph_app. apply Forall_app. split; [done|].
    apply add_formatted_paragraph_caps.
Qed.

Lemma fallback_page_text_caps doc p doc' :
  page_chars p = [] ->
  page_text doc p = Ok doc' ->
  Forall caps_heading2 doc -> Forall caps_heading2 doc'.
Proof.
  unfold page_text. intros -> H Hdoc.
  destruct (extract_text p) as [[|c s]|]; injection H as <-; try done.
  unfold smart_text_parsing.
  rewrite (fold_left_appends smart_line _ smart_line_app).
  apply Forall_app. split; [done|]. apply Forall_concat_map, smart_line_caps.
Qed.

End Headings.

Section HeadingLoop.
Context {u : Ucd} (st : tstyle) (size : option Z).
Context (text_of : list node -> page -> result (list node)).
Context (fits : page -> Prop).
Hypothesis text_of_caps : forall doc p doc',
  fits p -> text_of doc p = Ok doc' ->
  Forall caps_heading2 doc -> Forall caps_heading2 doc'.

Lemma page_step_caps doc page_num p doc' :
  fits p ->
  page_step st size text_of doc page_num p = Ok doc' ->
  Forall caps_heading2 doc -> Forall caps_heading2 doc'.
Proof.
  intros Hp. unfold page_step. intros H Hdoc.
  destruct (for_each _ (extract_tables p) _) as [doc1|e] eqn:E; [|done].
  cbn [rbind] in H. apply emit_tables_nodes in E. subst doc1.
  eapply text_of_caps; [done|exact H|].
  apply Forall_app. split.
  - destruct (1 <? page_num); [|done]. unfold add_page_break.
    apply Forall_app. split; [done|]. by repeat constructor.
  - apply Forall_concat_map, table_nodes_caps.
Qed.

Lemma page_loop_caps pages : forall page_num doc doc',
  Forall fits pages ->
  for_enumerate (page_step st size text_of) page_num pages doc = Ok doc' ->
  Forall caps_heading2 doc -> Forall caps_heading2 doc'.
Proof.
  induction pages as [|p pages IH]; intros page_num doc doc' Hall;
    cbn [for_enumerate].
  - by intros [= <-].
  - apply Forall_cons in Hall as [Hp Hall].
    destruct (page_step st size text_of doc page_num p) as [doc1|e] eqn:E; [|done].
    cbn [rbind]. intros H Hdoc. eapply IH; [done|exact H|].
    by eapply page_step_caps.
Qed.

End HeadingLoop.

(** X16. The advanced variant never makes a heading of level 1: every
    heading in the document of a run that returns is of level 2 and holds
    all-uppercase text shorter than 50 characters. The same holds for the
    ultra variant on a document whose pages carry no character data, where
    every page goes through the fallback parser. *)
Theorem X16_headings_are_level2_caps {u : Ucd} (pages : list page) (d : document) :
  extract_with_tables_and_formatting (Ok pages) = Ok d \/
  (Forall (fun p => page_chars p = []) pages /\
   ultra_preserve_formatting (Ok pages) = Ok d) ->
  Forall caps_heading2 (body d).
Proof.
  unfold ultra_preserve_formatting, extract_with_tables_and_formatting.
  cbn [rbind].
  change ultra_page with (page_step LightGridAccent1 (Some 11%Z) page_text).
  change advanced_page with (page_step TableGrid None advanced_page_text).
  intros [H|[Hall H]].
  - destruct (for_enumerate _ 1 pages []) as [doc|e] eqn:E; [|done].
    cbn [rbind] in H. injection H as <-. simpl.
    eapply (page_loop_caps TableGrid None advanced_page_text (fun _ => True));
      [| |exact E|constructor].
    + intros doc0 p doc' _. apply advanced_page_text_caps.
    + by apply Forall_forall.
  - destruct (for_enumerate _ 1 pages []) as [doc|e] eqn:E; [|done].
    cbn [rbind] in H. injection H as <-. simpl.
    eapply (page_loop_caps LightGridAccent1 (Some 11%Z) page_text
              (fun p => page_chars p = []));
      [|exact Hall|exact E|constructor].
    intros doc0 p doc'. apply fallback_page_text_caps.
Qed.

Lemma X16_headings_are_level2_caps_witness :
  (exists d,
     @extract_with_tables_and_formatting ascii_ucd (Ok heading_pages) = Ok d /\
     Forall (@caps_heading2 ascii_ucd) (body d) /\
     body d = [Para (new_para (py "AB") (HeadingStyle 2));
               Para (new_para (py "CD") (HeadingStyle 2));
               PageBreak;
               Para (new_para (py "EF") (HeadingStyle 2));
               Para (new_para (py "plain") Normal)]) /\
  (exists d,
     @ultra_preserve_formatting ascii_ucd (Ok [fallback_page]) = Ok d /\
     Forall (@caps_heading2 ascii_ucd) (body d) /\
     body d = [Para (new_para (py "EF") (HeadingStyle 2));
               Para (new_para (py "plain") Normal)]).
Proof.
  split.
  - eexists. split; [reflexivity|]. split; [|reflexivity].
    apply (@X16_headings_are_level2_caps ascii_ucd heading_pages).
    left. reflexivity.
  - eexists. split; [reflexivity|]. split; [|reflexivity].
    apply (@X16_headings_are_level2_caps ascii_ucd [fallback_page]).
    right. split; [|reflexivity]. by repeat constructor.
Defined.

(** ** A page of one line in the advanced variant *)

Lemma group_fold_one_key {V} (fresh : V) (add : char -> V -> V) ndigits k cs :
  Forall (fun c => py_round (y0 c) ndigits = k) cs ->
  forall v,
    fold_left (group_step fresh add ndigits) cs [(k, v)]
    = [(k, fold_left (fun v c => add c v) cs v)].
Proof.
  induction 1 as [|c cs Hc _ IH]; intros v; [done|].
  cbn [fold_left]. rewrite <- IH. f_equal.
  unfold group_step, dict_setdefault, dict_mem. rewrite Hc.
  cbn [existsb fst]. rewrite Z.eqb_refl. cbn [orb dict_alter].
  by rewrite Z.eqb_refl.
Qed.

Lemma group_chars_advanced_one_line k c cs :
  Forall (fun c => py_round (y0 c) 1 = k) (c :: cs) ->
  group_chars_advanced (c :: cs) = [(k, c :: cs)].
Proof.
  intros [Hc Hcs]%Forall_cons. unfold group_chars_advanced, group_lines.
  cbn [fold_left].
  assert (H1 : group_step [] (fun c line => line ++ [c]) 1 [] c = [(k, [c])]).
  { unfold group_step, dict_setdefault, dict_mem. rewrite Hc.
    cbn [existsb app dict_alter]. by rewrite Z.eqb_refl. }
  rewrite H1, (group_fold_one_key _ _ 1 k cs Hcs). do 2 f_equal.
  clear. change (c :: cs) with ([c] ++ cs).
  generalize [c]. induction cs as [|d cs IH]; intros l; simpl.
  - by rewrite app_nil_r.
  - rewrite IH. by rewrite <- app_assoc.
Qed.

Section OneLine.
Context {u : Ucd}.

Lemma advanced_line_nothing_pending doc line :
  snd line <> [] ->
  advanced_line (doc, []) line
  = Ok (doc, match line_text (sorted_chars (snd line)) with
             | [] => []
             | t => [t]
             end).
Proof.
  intros Hne. unfold advanced_line.
  destruct (line_text (sorted_chars (snd line))) as [|c s]; [done|].
  rewrite average_nonempty.
  2:{ intros H%(f_equal length). rewrite length_map in H.
      apply Hne, Permutation_nil_r. rewrite <- (sorted_chars_perm (snd line)).
      by destruct (sorted_chars (snd line)). }
  cbn [rbind]. by destruct (_ || _ || _).
Qed.

(** X17. In the advanced variant a line met while no paragraph is pending
    is never emitted as a header, whatever its font size and case: it only
    becomes the pending paragraph. A page whose characters all lie on one
    line is therefore emitted through [add_formatted_paragraph] alone, as
    the paragraph, bullet or all-uppercase heading that function makes of
    the line's text. *)
Theorem X17_single_line_page (doc : list node) (p : page) (k : Z) :
  page_chars p <> [] ->
  Forall (fun c => py_round (y0 c) 1 = k) (page_chars p) ->
  advanced_page_text doc p
  = Ok (doc ++ add_formatted_paragraph []
                 (line_text (sorted_chars (page_chars p)))).
Proof.
  intros Hne Hk. unfold advanced_page_text.
  destruct (page_chars p) as [|c cs] eqn:E; [done|].
  rewrite (group_chars_advanced_one_line k c cs Hk).
  change (sorted_lines [(k, c :: cs)]) with [(k, c :: cs)].
  cbn [for_each]. rewrite advanced_line_nothing_pending by done.
  cbn [rbind snd].
  destruct (line_text (sorted_chars (c :: cs))) as [|d t] eqn:Ht.
  - unfold add_formatted_paragraph. simpl. by rewrite app_nil_r.
  - rewrite add_formatted_paragraph_app. done.
Qed.

End OneLine.

Lemma X17_single_line_page_witness :
  @advanced_page_text ascii_ucd [] one_line_page
  = Ok [Para (new_para (py "HI") (HeadingStyle 2))].
Proof.
  etransitivity.
  - apply (@X17_single_line_page ascii_ucd [] one_line_page 7000%Z).
    + discriminate.
    + repeat constructor.
  - reflexivity.
Defined.

(** ** The text nodes of a page of the ultra variant *)

Section UltraText.
Context {u : Ucd}.

Lemma block_nodes_at_most_one block : length (block_nodes block) <= 1.
Proof.
  rewrite block_nodes_length.
  destruct (type block); destruct (clean_bullet_text (block_text block));
    simpl; lia.
Qed.

Lemma concat_length_bound {A B} (f : A -> list B) l :
  (forall x, length (f x) <= 1) -> length (concat (map f l)) <= length l.
Proof.
  intros Hf. induction l as [|x l IH]; simpl; [done|].
  rewrite length_app. specialize (Hf x). lia.
Qed.

(** X19. Whenever the text part of a page with character data returns in
    the ultra variant, it has appended paragraphs and headings only, and at
    most one for each line: no more text nodes than there are distinct
    rounded vertical positions among the characters. *)
Theorem X19_text_nodes_bounded_by_lines (doc : list node) (p : page)
  (doc' : list node) :
  page_chars p <> [] ->
  page_text doc p = Ok doc' ->
  exists nodes,
    doc' = doc ++ nodes /\
    Forall is_para nodes /\
    length nodes <= length (remove_dups (map line_key (page_chars p))).
Proof.
  intros Hne. unfold page_text. destruct (page_chars p) as [|c cs]; [done|].
  destruct (analyze_text_blocks (c :: cs)) as [blocks|e] eqn:Hok; [|done].
  cbn [rbind]. intros [= <-].
  destruct (analyze_blocks_from (c :: cs)) as (blocks' & Hok' & Hb).
  rewrite Hok in Hok'. injection Hok' as <-.
  rewrite (fold_left_appends add_formatted_text_block _ add_formatted_text_block_app).
  eexists. split; [done|]. split; [apply Forall_concat_map, block_nodes_para|].
  etransitivity; [apply concat_length_bound, block_nodes_at_most_one|].
  apply Forall2_length in Hb.
  rewrite (Permutation_length (sorted_lines_perm (group_chars (c :: cs)))) in Hb.
  rewrite <- Hb. apply Nat.eq_le_incl, group_chars_count.
Qed.

(** X20. The block emitter keeps the text and fixes the style by the kind
    alone: a block of any kind but [bullet] and [empty] is appended as one
    paragraph that shows exactly the block's text, a [bullet] block whose
    stripped text is not empty as one paragraph that shows the stripped
    text, and the paragraph's style is level-1 heading for [heading1],
    level-2 heading for [heading2] and [section_header], List Bullet for
    [bullet] and the plain style otherwise; size, italic, underline and
    indent never change what is shown. *)
Theorem X20_emitter_keeps_text (block : text_block) :
  type block <> empty ->
  (type block = bullet -> clean_bullet_text (block_text block) <> []) ->
  exists p,
    block_nodes block = [Para p] /\
    p_style p = style_of_kind (type block) /\
    para_shown p = match type block with
                   | bullet => clean_bullet_text (block_text block)
                   | _ => block_text block
                   end.
Proof.
  intros He Hb. unfold block_nodes, add_formatted_text_block, add_heading.
  destruct (type block) eqn:Hty; try done;
    rewrite ?on_last_para_add, ?on_last_para_app;
    try (eexists; split; [reflexivity|]; split; [reflexivity|];
         unfold para_shown; simpl;
         destruct (block_text block); simpl;
         destruct (Qgtb (font_size block) 12); simpl; by rewrite ?app_nil_r).
  specialize (Hb eq_refl).
  destruct (clean_bullet_text (block_text block)) as [|c s]; [done|].
  eexists. split; [reflexivity|]. split; [reflexivity|].
  unfold para_shown. simpl. by rewrite app_nil_r.
Qed.

End UltraText.

Lemma X19_text_nodes_bounded_by_lines_witness :
  exists doc',
    @page_text ascii_ucd [] one_line_page = Ok doc' /\
    map node_text doc' = [py "HI"] /\
    exists nodes,
      doc' = [] ++ nodes /\
      Forall is_para nodes /\
      length nodes
      <= length (remove_dups (map line_key (page_chars one_line_page))).
Proof.
  eexists. split; [reflexivity|]. split; [reflexivity|].
  apply (@X19_text_nodes_bounded_by_lines ascii_ucd [] one_line_page).
  - discriminate.
  - reflexivity.
Defined.

Lemma X20_emitter_keeps_text_witness :
  exists p,
    @block_nodes ascii_ucd
      {| type := contact; block_text := py "john.doe@example.com"; font_size := 12;
         font := py "default"; indent := 0 |} = [Para p] /\
    p_style p = Normal /\
    para_shown p = py "john.doe@example.com".
Proof.
  apply (@X20_emitter_keeps_text ascii_ucd
           {| type := contact; block_text := py "john.doe@example.com";
              font_size := 12; font := py "default"; indent := 0 |}).
  - discriminate.
  - discriminate.
Defined.

(** ** Characters at the same horizontal position *)

Lemma insert_sorted_at_x x c l :
  at_x x (insert_sorted (fun a b => Qle_bool (x0 a) (x0 b)) c l) = at_x x (c :: l).
Proof.
  unfold at_x. induction l as [|y l IH]; [done|].
  cbn [insert_sorted]. destruct (Qle_bool (x0 c) (x0 y)) eqn:E; [done|].
  cbn [List.filter] in *. rewrite IH.
  destruct (Qeq_bool (x0 c) x) eqn:Ec; [|done].
  destruct (Qeq_bool (x0 y) x) eqn:Ey; [|done].
  apply Qeq_bool_iff in Ec, Ey.
  assert (H : Qle_bool (x0 c) (x0 y) = true).
  { apply Qle_bool_iff. rewrite Ec, Ey. apply Qle_refl. }
  congruence.
Qed.

(** X21. Sorting the characters of a line is stable: the characters that
    share a horizontal position are read in the order in which the source
    gave them. *)
Theorem X21_sorted_chars_stable (x : Q) (cs : list char) :
  at_x x (sorted_chars cs) = at_x x cs.
Proof.
  unfold sorted_chars, sorted. induction cs as [|c cs IH]; [done|].
  cbn [foldr]. rewrite insert_sorted_at_x. unfold at_x in *.
  cbn [List.filter]. by rewrite IH.
Qed.
